(** * German buy-to-let property analyzer: projection engine and sensitivity sweeps

    A shallow embedding of [src/german-property-analyzer.jsx]: the tax
    calculator [calculateGermanTax], the projection engine
    [calculateProjections] with its nested IRR solver [calculateIRR], the
    heatmap colour function [getColor], the memoised sweeps [tornadoData]
    and [heatmapData] of the main component with the bar widths and cell
    colours computed from them when rendering, and the scenario state of the
    component with its handlers ([addScenario], [editScenario],
    [removeScenario], [openScenarioDialog], [handleCustomAdjustment], ...)
    and [scenarioProjections].

    JavaScript numbers are kept behind an interface [JSNumber] so that every
    function is written once, in the order and with the operator grouping of
    the source, and read at two number types:

    - [float], the kernel's binary64 numbers: the arithmetic the program
      runs, with NaN, the infinities and rounding.  [Math.pow], which
      ECMAScript leaves implementation-approximated, is computed here by
      repeated multiplication (all call sites pass integer exponents);
    - [Q], exact rational arithmetic: the reading in which the algebraic
      properties of the formulas are stated.  [Q] has no NaN or infinity
      and [x / 0] is [0] there, so properties over [Q] are only stated
      where every divisor is non-zero.

    The clock read by [new Date()] and the host time zone are an explicit
    argument ([Host]).

    The file has three parts: the program, the definitions the statements
    need, and the properties, each with the lemmas it rests on: first
    C1 .. C10, then further properties of the code (X1 .. X28). *)

From Stdlib Require Import ZArith QArith Qpower Qround Qabs Lqa Lia.
From Stdlib Require Import List String Ascii Bool DecimalString Sorted Permutation.
From Stdlib Require Import Floats.
Import ListNotations.

Set Implicit Arguments.
Set Warnings "-inexact-float".

(** * The program *)

(** ** JavaScript numbers *)

(** The exact value denoted by a number: a rational, an infinity or NaN
    (both zeros denote [0]). *)
Inductive xnum : Type :=
| XFin (q : Q)
| XPInf
| XNInf
| XNaN.

Class JSNumber (num : Type) : Type := {
  of_Z : Z -> num;                 (* integer literals and loop counters *)
  add : num -> num -> num;
  sub : num -> num -> num;
  mul : num -> num -> num;
  div : num -> num -> num;
  opp : num -> num;
  ltb : num -> num -> bool;
  leb : num -> num -> bool;
  Math_pow : num -> Z -> num;      (* Math.pow at an integer exponent *)
  Math_abs : num -> num;
  Math_max : num -> num -> num;
  exact : num -> xnum
}.

Declare Scope js_scope.
Delimit Scope js_scope with js.
Notation "a + b" := (add a b) : js_scope.
Notation "a - b" := (sub a b) : js_scope.
Notation "a * b" := (mul a b) : js_scope.
Notation "a / b" := (div a b) : js_scope.
Notation "- a" := (opp a) : js_scope.
Notation "a <? b" := (ltb a b) : js_scope.
Notation "a <=? b" := (leb a b) : js_scope.
Notation "a >? b" := (ltb b a) (at level 70) : js_scope.

Section Literals.
Context {num : Type} `{JSNumber num}.

(** The integer literal [z]. *)
Definition int (z : Z) : num := of_Z z.

(** The decimal literal [m * 10^-e], e.g. [lit 92298 2] for [922.98].
    On binary64 one division of two exactly represented integers is the
    correctly rounded value of the literal. *)
Definition lit (m : Z) (e : nat) : num := div (of_Z m) (of_Z (10 ^ Z.of_nat e)).

(** JavaScript truthiness of a number: [0], [-0] and [NaN] are falsy. *)
Definition truthy (x : num) : bool :=
  match exact x with
  | XFin q => negb (Qeq_bool q 0)
  | XNaN => false
  | _ => true
  end.

(** [x || 0]. *)
Definition or_zero (x : num) : num := if truthy x then x else int 0.
End Literals.

(** *** Exact rationals *)

#[global] Instance Q_JSNumber : JSNumber Q := {|
  of_Z := inject_Z;
  add := Qplus;
  sub := Qminus;
  mul := Qmult;
  div := Qdiv;
  opp := Qopp;
  ltb := fun a b => negb (Qle_bool b a);
  leb := Qle_bool;
  Math_pow := Qpower;
  Math_abs := Qabs;
  Math_max := fun a b => if Qle_bool a b then b else a;
  exact := XFin
|}.

(** *** Binary64 *)

Module F64.
Definition of_Z (z : Z) : float :=
  match z with
  | Z0 => PrimFloat.zero
  | Zpos _ => PrimFloat.of_uint63 (Uint63.of_Z z)
  | Zneg p => PrimFloat.opp (PrimFloat.of_uint63 (Uint63.of_Z (Zpos p)))
  end.

(** [x * (x * ... * 1)]: [p] factors. *)
Definition pow_pos (x : float) (p : positive) : float :=
  Pos.iter (PrimFloat.mul x) PrimFloat.one p.

Definition pow (x : float) (n : Z) : float :=
  match n with
  | Z0 => PrimFloat.one
  | Zpos p => pow_pos x p
  | Zneg p => PrimFloat.div PrimFloat.one (pow_pos x p)
  end.

(** [Math.max]: NaN if either argument is NaN, and [+0] above [-0]. *)
Definition max (a b : float) : float :=
  if PrimFloat.is_nan a || PrimFloat.is_nan b then PrimFloat.nan
  else if PrimFloat.ltb a b then b
  else if PrimFloat.ltb b a then a
  else if PrimFloat.get_sign a then b else a.

Definition exact (x : float) : xnum :=
  match Prim2SF x with
  | S754_zero _ => XFin 0
  | S754_infinity false => XPInf
  | S754_infinity true => XNInf
  | S754_nan => XNaN
  | S754_finite s m e =>
      let n := if s then Zneg m else Zpos m in
      match e with
      | Zneg d => XFin (Qmake n (2 ^ d)%positive)
      | _ => XFin (inject_Z (n * 2 ^ e))
      end
  end.
End F64.

#[global] Instance float_JSNumber : JSNumber float := {|
  of_Z := F64.of_Z;
  add := PrimFloat.add;
  sub := PrimFloat.sub;
  mul := PrimFloat.mul;
  div := PrimFloat.div;
  opp := PrimFloat.opp;
  ltb := PrimFloat.ltb;
  leb := PrimFloat.leb;
  Math_pow := F64.pow;
  Math_abs := PrimFloat.abs;
  Math_max := F64.max;
  exact := F64.exact
|}.

(** ** Data model *)

Inductive MaritalStatus : Type := single | married.

Record PropertyInputs (num : Type) : Type := {
  purchasePrice : num;
  notaryAndLandRegistryFees : num;
  realEstateTransferTax : num;
  brokerCommission : num;
  renovationCosts : num;
  equity : num;
  interestRate : num;
  repaymentRate : num;
  monthlyRent : num;
  monthlyPropertyManagement : num;
  monthlyMaintenance : num;
  monthlyInsurance : num;
  monthlyOtherCosts : num;
  rentIncreaseRate : num;
  propertyValueIncreaseRate : num;
  operatingCostsIncreaseRate : num;
  annualIncome : num;
  maritalStatus : MaritalStatus;
  marginalTaxRate : num;
  churchTaxLiability : bool;
  vacancyRate : num;
  depreciationRate : num
}.

(** The numeric keys of [PropertyInputs]; the sweeps override them by name
    ([{ ...inputs, [key]: value }]). *)
Inductive InputKey : Type :=
| k_purchasePrice | k_notaryAndLandRegistryFees | k_realEstateTransferTax
| k_brokerCommission | k_renovationCosts | k_equity | k_interestRate
| k_repaymentRate | k_monthlyRent | k_monthlyPropertyManagement
| k_monthlyMaintenance | k_monthlyInsurance | k_monthlyOtherCosts
| k_rentIncreaseRate | k_propertyValueIncreaseRate
| k_operatingCostsIncreaseRate | k_annualIncome | k_marginalTaxRate
| k_vacancyRate | k_depreciationRate.

Definition InputKey_eqb (a b : InputKey) : bool :=
  match a, b with
  | k_purchasePrice, k_purchasePrice
  | k_notaryAndLandRegistryFees, k_notaryAndLandRegistryFees
  | k_realEstateTransferTax, k_realEstateTransferTax
  | k_brokerCommission, k_brokerCommission
  | k_renovationCosts, k_renovationCosts
  | k_equity, k_equity
  | k_interestRate, k_interestRate
  | k_repaymentRate, k_repaymentRate
  | k_monthlyRent, k_monthlyRent
  | k_monthlyPropertyManagement, k_monthlyPropertyManagement
  | k_monthlyMaintenance, k_monthlyMaintenance
  | k_monthlyInsurance, k_monthlyInsurance
  | k_monthlyOtherCosts, k_monthlyOtherCosts
  | k_rentIncreaseRate, k_rentIncreaseRate
  | k_propertyValueIncreaseRate, k_propertyValueIncreaseRate
  | k_operatingCostsIncreaseRate, k_operatingCostsIncreaseRate
  | k_annualIncome, k_annualIncome
  | k_marginalTaxRate, k_marginalTaxRate
  | k_vacancyRate, k_vacancyRate
  | k_depreciationRate, k_depreciationRate => true
  | _, _ => false
  end.

Record SensitivityVariable (num : Type) : Type := {
  sv_name : string;
  sv_key : InputKey;
  sv_min : num;
  sv_max : num;
  sv_step : num;
  sv_unit : string;
  sv_currentValue : num
}.

Record YearlyProjection (num : Type) : Type := {
  year : Z;
  date : string;
  propertyValue : num;
  outstandingLoan : num;
  annualLoanPayment : num;
  interestPaid : num;
  principalRepaid : num;
  grossRent : num;
  effectiveRent : num;
  totalOperatingCosts : num;
  depreciation : num;
  taxableIncome : num;
  taxSavings : num;
  grossCashFlow : num;
  netCashFlow : num;
  yp_equity : num;
  netWorth : num;
  cumulativeCashFlow : num;
  cumulativeTaxSavings : num
}.

Record Summary (num : Type) : Type := {
  totalInvestment : num;
  irr10Year : num;
  irr20Year : num;
  irr40Year : num;
  totalCashFlow10Year : num;
  totalCashFlow20Year : num;
  totalCashFlow40Year : num;
  netWorth10Year : num;
  netWorth20Year : num;
  netWorth40Year : num;
  averageAnnualCashFlow : num;
  roiAtYear10 : num;
  roiAtYear20 : num;
  roiAtYear40 : num
}.

Record ProjectionResults (num : Type) : Type := {
  yearlyData : list (YearlyProjection num);
  summary : Summary num
}.

Record TaxResult (num : Type) : Type := {
  incomeTax : num;
  solidarityTax : num;
  churchTax : num;
  totalTax : num
}.

(** [{ ...inputs, [key]: value }]: the field named by [k] becomes [v], every
    other field is copied. *)
Definition setInput {num : Type} (k : InputKey) (v : num)
    (i : PropertyInputs num) : PropertyInputs num :=
  let put (k' : InputKey) (old : num) := if InputKey_eqb k k' then v else old in
  {| purchasePrice := put k_purchasePrice (purchasePrice i);
     notaryAndLandRegistryFees := put k_notaryAndLandRegistryFees (notaryAndLandRegistryFees i);
     realEstateTransferTax := put k_realEstateTransferTax (realEstateTransferTax i);
     brokerCommission := put k_brokerCommission (brokerCommission i);
     renovationCosts := put k_renovationCosts (renovationCosts i);
     equity := put k_equity (equity i);
     interestRate := put k_interestRate (interestRate i);
     repaymentRate := put k_repaymentRate (repaymentRate i);
     monthlyRent := put k_monthlyRent (monthlyRent i);
     monthlyPropertyManagement := put k_monthlyPropertyManagement (monthlyPropertyManagement i);
     monthlyMaintenance := put k_monthlyMaintenance (monthlyMaintenance i);
     monthlyInsurance := put k_monthlyInsurance (monthlyInsurance i);
     monthlyOtherCosts := put k_monthlyOtherCosts (monthlyOtherCosts i);
     rentIncreaseRate := put k_rentIncreaseRate (rentIncreaseRate i);
     propertyValueIncreaseRate := put k_propertyValueIncreaseRate (propertyValueIncreaseRate i);
     operatingCostsIncreaseRate := put k_operatingCostsIncreaseRate (operatingCostsIncreaseRate i);
     annualIncome := put k_annualIncome (annualIncome i);
     maritalStatus := maritalStatus i;
     marginalTaxRate := put k_marginalTaxRate (marginalTaxRate i);
     churchTaxLiability := churchTaxLiability i;
     vacancyRate := put k_vacancyRate (vacancyRate i);
     depreciationRate := put k_depreciationRate (depreciationRate i) |}.

(** [inputs[key]] *)
Definition getInput {num : Type} (k : InputKey) (i : PropertyInputs num) : num :=
  match k with
  | k_purchasePrice => purchasePrice i
  | k_notaryAndLandRegistryFees => notaryAndLandRegistryFees i
  | k_realEstateTransferTax => realEstateTransferTax i
  | k_brokerCommission => brokerCommission i
  | k_renovationCosts => renovationCosts i
  | k_equity => equity i
  | k_interestRate => interestRate i
  | k_repaymentRate => repaymentRate i
  | k_monthlyRent => monthlyRent i
  | k_monthlyPropertyManagement => monthlyPropertyManagement i
  | k_monthlyMaintenance => monthlyMaintenance i
  | k_monthlyInsurance => monthlyInsurance i
  | k_monthlyOtherCosts => monthlyOtherCosts i
  | k_rentIncreaseRate => rentIncreaseRate i
  | k_propertyValueIncreaseRate => propertyValueIncreaseRate i
  | k_operatingCostsIncreaseRate => operatingCostsIncreaseRate i
  | k_annualIncome => annualIncome i
  | k_marginalTaxRate => marginalTaxRate i
  | k_vacancyRate => vacancyRate i
  | k_depreciationRate => depreciationRate i
  end.

(** ** German tax calculator *)

Section TaxCalculator.
Context {num : Type} `{JSNumber num}.
Local Open Scope js_scope.

(** First progression zone, [11604 < income <= 17005]. *)
Definition taxZoneA (income : num) : num :=
  let y := (income - int 11604) / int 10000 in
  (lit 92298 2 * y + int 1400) * y.

(** Second progression zone, [17005 < income <= 66760]. *)
Definition taxZoneB (income : num) : num :=
  let z := (income - int 17005) / int 10000 in
  (lit 18119 2 * z + int 2397) * z + lit 102538 2.

(** Third progression zone, [66760 < income <= 277825]. *)
Definition taxZoneC (income : num) : num :=
  lit 42 2 * income - lit 1060213 2.

(** Top rate zone. *)
Definition taxZoneTop (income : num) : num :=
  lit 45 2 * income - lit 1893688 2.

(** The five-zone formula, before splitting is undone. *)
Definition incomeTaxFormula (income : num) : num :=
  if income <=? int 11604 then int 0
  else if income <=? int 17005 then taxZoneA income
  else if income <=? int 66760 then taxZoneB income
  else if income <=? int 277825 then taxZoneC income
  else taxZoneTop income.

Definition calculateGermanTax (taxableIncome : num)
    (maritalStatus : MaritalStatus) (churchTax : bool) : TaxResult num :=
  let income :=
    match maritalStatus with
    | married => taxableIncome / int 2
    | single => taxableIncome
    end in
  let incomeTax := incomeTaxFormula income in
  let incomeTax :=
    match maritalStatus with
    | married => incomeTax * int 2
    | single => incomeTax
    end in
  let solidarityThreshold :=
    match maritalStatus with
    | married => int 32734
    | single => int 16369
    end in
  let solidarityTax :=
    if incomeTax >? solidarityThreshold
    then (incomeTax - solidarityThreshold) * lit 55 3 * lit 12 1
    else int 0 in
  let churchTaxAmount := if churchTax then incomeTax * lit 8 2 else int 0 in
  {| incomeTax := Math_max (int 0) incomeTax;
     solidarityTax := Math_max (int 0) solidarityTax;
     churchTax := churchTaxAmount;
     totalTax := Math_max (int 0) (incomeTax + solidarityTax + churchTaxAmount) |}.
End TaxCalculator.

(** ** The clock

    [calculateProjections] reads [new Date()] and prints every year's date
    with [toISOString], which is in UTC.  The host supplies what these calls
    observe: the local year and month of "today", and whether local midnight
    on the first of a month lies ahead of UTC (then the UTC date printed is
    the day before). *)

Record Host : Type := {
  today_getFullYear : Z;
  today_getMonth : Z;                 (* 0 .. 11 *)
  aheadOfUTC : Z -> Z -> bool         (* year, month (0 .. 11) *)
}.

Module Calendar.
Definition isLeap (y : Z) : bool :=
  ((y mod 4 =? 0) && negb (y mod 100 =? 0) || (y mod 400 =? 0))%Z.

(** Days of month [m], counted 1 .. 12. *)
Definition daysInMonth (y m : Z) : Z :=
  if (m =? 2)%Z then (if isLeap y then 29 else 28)
  else if ((m =? 4) || (m =? 6) || (m =? 9) || (m =? 11))%Z then 30
  else 31.

Definition digits (z : Z) : string :=
  NilZero.string_of_uint (N.to_uint (Z.to_N z)).

Fixpoint zeros (n : nat) : string :=
  match n with
  | O => EmptyString
  | S n' => String "0" (zeros n')
  end.

(** Decimal digits of [z >= 0], left-padded with zeros to [w] characters. *)
Definition pad (w : nat) (z : Z) : string :=
  let s := digits z in
  (zeros (w - String.length s) ++ s)%string.

Definition iso (y m d : Z) : string :=
  (pad 4 y ++ "-" ++ pad 2 m ++ "-" ++ pad 2 d)%string.

(** [new Date(y, m, 1)] for a month index [m] that may have run past 11:
    the local year and month (0 .. 11) it denotes. *)
Definition firstOfMonth (y m : Z) : Z * Z := ((y + m / 12)%Z, (m mod 12)%Z).

(** [d.toISOString().split('T')[0]] for [d] the local midnight of the first
    of month [m] (0 .. 11) of year [y]. *)
Definition isoDateOfFirst (h : Host) (y m : Z) : string :=
  if aheadOfUTC h y m then
    (if (m =? 0)%Z then iso (y - 1) 12 31 else iso y m (daysInMonth y m))
  else iso y (m + 1) 1.
End Calendar.

(** ** Projection calculator *)

(** How [calculateIRR] left its loop: through the [return] inside it, or by
    running out of its 100 iterations. *)
Inductive IRROutcome (num : Type) : Type :=
| Converged (newRate : num)
| Exhausted (rate : num).
Arguments Converged {num} newRate.
Arguments Exhausted {num} rate.

Section ProjectionCalculator.
Context {num : Type} `{JSNumber num}.
Local Open Scope js_scope.

Definition acquisitionCosts (inputs : PropertyInputs num) : num :=
  purchasePrice inputs *
    (int 1 + notaryAndLandRegistryFees inputs / int 100
           + realEstateTransferTax inputs / int 100
           + brokerCommission inputs / int 100)
  + renovationCosts inputs.

Definition loanAmountOf (inputs : PropertyInputs num) : num :=
  acquisitionCosts inputs - equity inputs.

(** Outstanding loan at the start of year [year] (0-based), before and
    after the clamp [Math.max(0, _)]. *)
Definition rawOutstandingLoan (inputs : PropertyInputs num) (year : nat) : num :=
  let loanAmount := loanAmountOf inputs in
  let annualRate := interestRate inputs / int 100 in
  let annualRepaymentRate := repaymentRate inputs / int 100 in
  let annualPaymentRate := annualRate + annualRepaymentRate in
  match year with
  | O => loanAmount
  | S _ =>
      let monthlyRate := annualPaymentRate / int 12 in
      let monthsPassed := (Z.of_nat year * 12)%Z in
      let totalMonths := (30 * 12)%Z in
      if (monthsPassed <? totalMonths)%Z then
        let monthlyPayment :=
          loanAmount * monthlyRate
            / (int 1 - Math_pow (int 1 + monthlyRate) (- totalMonths)) in
        loanAmount * Math_pow (int 1 + monthlyRate) monthsPassed
          - monthlyPayment * (Math_pow (int 1 + monthlyRate) monthsPassed - int 1)
              / monthlyRate
      else int 0
  end.

Definition outstandingLoanAt (inputs : PropertyInputs num) (year : nat) : num :=
  Math_max (int 0) (rawOutstandingLoan inputs year).

(** One pass of the loop body: the record of year [year] (0-based), given
    the running totals carried in. *)
Definition yearRecord (h : Host) (inputs : PropertyInputs num) (year : nat)
    (cumulativeCashFlow0 cumulativeTaxSavings0 : num) : YearlyProjection num :=
  let '(startYear, startMonth) :=
    Calendar.firstOfMonth (today_getFullYear h) (today_getMonth h + 1) in
  let yearDate := Calendar.isoDateOfFirst h (startYear + Z.of_nat year) startMonth in
  let buildingValue := purchasePrice inputs * lit 8 1 in
  let propertyValue :=
    purchasePrice inputs
      * Math_pow (int 1 + propertyValueIncreaseRate inputs / int 100) (Z.of_nat year) in
  let grossRent :=
    monthlyRent inputs * int 12
      * Math_pow (int 1 + rentIncreaseRate inputs / int 100) (Z.of_nat year) in
  let effectiveRent := grossRent * (int 1 - vacancyRate inputs / int 100) in
  let monthlyOperatingCosts :=
    monthlyPropertyManagement inputs + monthlyMaintenance inputs
      + monthlyInsurance inputs + monthlyOtherCosts inputs in
  let totalOperatingCosts :=
    monthlyOperatingCosts * int 12
      * Math_pow (int 1 + operatingCostsIncreaseRate inputs / int 100) (Z.of_nat year) in
  let annualRate := interestRate inputs / int 100 in
  let annualRepaymentRate := repaymentRate inputs / int 100 in
  let annualPaymentRate := annualRate + annualRepaymentRate in
  let outstandingLoan := outstandingLoanAt inputs year in
  let annualLoanPayment :=
    if outstandingLoan >? int 0 then outstandingLoan * annualPaymentRate else int 0 in
  let interestPaid := outstandingLoan * annualRate in
  let principalRepaid := annualLoanPayment - interestPaid in
  let depreciation := buildingValue * (depreciationRate inputs / int 100) in
  let taxableRentalIncome :=
    effectiveRent - totalOperatingCosts - interestPaid - depreciation in
  let taxSavings :=
    if taxableRentalIncome <? int 0 then
      let taxSavings := Math_abs taxableRentalIncome * (marginalTaxRate inputs / int 100) in
      if churchTaxLiability inputs then taxSavings * lit 108 2 else taxSavings
    else
      let taxSavings := - taxableRentalIncome * (marginalTaxRate inputs / int 100) in
      if churchTaxLiability inputs then taxSavings * lit 108 2 else taxSavings in
  let grossCashFlow := effectiveRent - totalOperatingCosts - annualLoanPayment in
  let netCashFlow := grossCashFlow + taxSavings in
  let cumulativeCashFlow := cumulativeCashFlow0 + netCashFlow in
  let cumulativeTaxSavings := cumulativeTaxSavings0 + taxSavings in
  let equity := propertyValue - outstandingLoan in
  let netWorth := equity + cumulativeCashFlow in
  {| year := Z.of_nat year + 1;
     date := yearDate;
     propertyValue := propertyValue;
     outstandingLoan := outstandingLoan;
     annualLoanPayment := annualLoanPayment;
     interestPaid := interestPaid;
     principalRepaid := principalRepaid;
     grossRent := grossRent;
     effectiveRent := effectiveRent;
     totalOperatingCosts := totalOperatingCosts;
     depreciation := depreciation;
     taxableIncome := taxableRentalIncome;
     taxSavings := taxSavings;
     grossCashFlow := grossCashFlow;
     netCashFlow := netCashFlow;
     yp_equity := equity;
     netWorth := netWorth;
     cumulativeCashFlow := cumulativeCashFlow;
     cumulativeTaxSavings := cumulativeTaxSavings |}.

(** [for (let year = ...; year < years; year++)] with [n] passes left;
    [yearlyData.push] appends. *)
Fixpoint projectionLoop (h : Host) (inputs : PropertyInputs num) (n year : nat)
    (cumulativeCashFlow0 cumulativeTaxSavings0 : num)
    (yearlyData0 : list (YearlyProjection num)) : list (YearlyProjection num) :=
  match n with
  | O => yearlyData0
  | S n' =>
      let r := yearRecord h inputs year cumulativeCashFlow0 cumulativeTaxSavings0 in
      projectionLoop h inputs n' (S year)
        (cumulativeCashFlow r) (cumulativeTaxSavings r) (yearlyData0 ++ [r])
  end.

(** The inner loop of [calculateIRR]: NPV and its derivative at [rate]. *)
Fixpoint npvLoop (rate : num) (flows : list num) (j : Z) (npv dnpv : num) : num * num :=
  match flows with
  | [] => (npv, dnpv)
  | f :: rest =>
      npvLoop rate rest (j + 1)
        (npv + f / Math_pow (int 1 + rate) j)
        (dnpv - int j * f / Math_pow (int 1 + rate) (j + 1))
  end.

(** One Newton-Raphson step. *)
Definition newtonStep (flows : list num) (rate : num) : num :=
  let '(npv, dnpv) := npvLoop rate flows 0 (int 0) (int 0) in
  rate - npv / dnpv.

(** The outer loop with [n] iterations left. *)
Fixpoint irrLoop (flows : list num) (n : nat) (rate : num) : IRROutcome num :=
  match n with
  | O => Exhausted rate
  | S n' =>
      let newRate := newtonStep flows rate in
      if Math_abs (newRate - rate) <? lit 1 4 then Converged newRate
      else irrLoop flows n' newRate
  end.

Definition irrRun (cashFlows : list num) (initialInvestment : num) : IRROutcome num :=
  irrLoop (- initialInvestment :: cashFlows) 100 (lit 1 1).

Definition calculateIRR (cashFlows : list num) (initialInvestment : num) : num :=
  match irrRun cashFlows initialInvestment with
  | Converged newRate => newRate * int 100
  | Exhausted rate => rate * int 100
  end.

(** [yearlyData[i]?.field || 0] *)
Definition fieldOrZero (field : YearlyProjection num -> num)
    (yearlyData : list (YearlyProjection num)) (i : Z) : num :=
  if (i <? 0)%Z then int 0
  else match nth_error yearlyData (Z.to_nat i) with
       | Some d => or_zero (field d)
       | None => int 0
       end.

(** [cashFlows.length >= n ? calculateIRR([...cashFlows.slice(0, -1),
    cashFlows[n-1] + finalEquity], totalInvestment) : 0] *)
Definition irrAt (n : nat) (cashFlows : list num) (finalEquity totalInvestment : num) : num :=
  if (n <=? List.length cashFlows)%nat then
    calculateIRR (removelast cashFlows ++ [nth (n - 1) cashFlows (int 0) + finalEquity])
      totalInvestment
  else int 0.

(** [yearlyData[i] ? (yearlyData[i].netWorth / totalInvestment - 1) * 100 : 0] *)
Definition roiAt (yearlyData : list (YearlyProjection num)) (i : nat)
    (totalInvestment : num) : num :=
  match nth_error yearlyData i with
  | Some d => (netWorth d / totalInvestment - int 1) * int 100
  | None => int 0
  end.

Definition calculateProjections (h : Host) (inputs : PropertyInputs num)
    (years : nat) : ProjectionResults num :=
  let totalInvestment := equity inputs in
  let yearlyData := projectionLoop h inputs years 0 (int 0) (int 0) [] in
  let cashFlows10 := map (@netCashFlow num) (firstn 10 yearlyData) in
  let cashFlows20 := map (@netCashFlow num) (firstn 20 yearlyData) in
  let cashFlows40 := map (@netCashFlow num) yearlyData in
  let finalEquity10 := fieldOrZero (@yp_equity num) yearlyData 9 in
  let finalEquity20 := fieldOrZero (@yp_equity num) yearlyData 19 in
  let finalEquity40 := fieldOrZero (@yp_equity num) yearlyData 39 in
  let irr10 := irrAt 10 cashFlows10 finalEquity10 totalInvestment in
  let irr20 := irrAt 20 cashFlows20 finalEquity20 totalInvestment in
  let irr40 := irrAt 40 cashFlows40 finalEquity40 totalInvestment in
  let len := Z.of_nat (List.length yearlyData) in
  {| yearlyData := yearlyData;
     summary :=
       {| totalInvestment := totalInvestment;
          irr10Year := irr10;
          irr20Year := irr20;
          irr40Year := irr40;
          totalCashFlow10Year := fieldOrZero (@cumulativeCashFlow num) yearlyData 9;
          totalCashFlow20Year := fieldOrZero (@cumulativeCashFlow num) yearlyData 19;
          totalCashFlow40Year := fieldOrZero (@cumulativeCashFlow num) yearlyData 39;
          netWorth10Year := fieldOrZero (@netWorth num) yearlyData 9;
          netWorth20Year := fieldOrZero (@netWorth num) yearlyData 19;
          netWorth40Year := fieldOrZero (@netWorth num) yearlyData 39;
          averageAnnualCashFlow :=
            fieldOrZero (@cumulativeCashFlow num) yearlyData (Z.min 39 (len - 1))
              / int (Z.min 40 len);
          roiAtYear10 := roiAt yearlyData 9 totalInvestment;
          roiAtYear20 := roiAt yearlyData 19 totalInvestment;
          roiAtYear40 := roiAt yearlyData 39 totalInvestment |} |}.
End ProjectionCalculator.

(** ** Printing numbers *)

(** The result of [Math.round]: an integer, or the non-finite argument. *)
Inductive rounded : Type :=
| RInt (z : Z)
| RNaN
| RPInf
| RNInf.

Section Printing.
Context {num : Type} `{JSNumber num}.

(** [Math.round(x)]: the integer nearest to [x], ties towards [+Infinity]. *)
Definition Math_round (x : num) : rounded :=
  match exact x with
  | XFin q => RInt (Qfloor (q + (1 # 2)))
  | XPInf => RPInf
  | XNInf => RNInf
  | XNaN => RNaN
  end.

(** [`${r}`] for a rounded number (plain digits: values below [1e21]). *)
Definition rounded_toString (r : rounded) : string :=
  match r with
  | RInt z => if (z <? 0)%Z then ("-" ++ Calendar.digits (- z))%string
              else Calendar.digits z
  | RNaN => "NaN"
  | RPInf => "Infinity"
  | RNInf => "-Infinity"
  end.

(** [x.toFixed(2)] (values below [1e21]). *)
Definition toFixed2 (x : num) : string :=
  match exact x with
  | XFin q =>
      let n := Qfloor (Qabs q * 100 + (1 # 2)) in
      ((if Qle_bool 0 q then "" else "-")
         ++ Calendar.digits (n / 100) ++ "." ++ Calendar.pad 2 (n mod 100))%string
  | XPInf => "Infinity"
  | XNInf => "-Infinity"
  | XNaN => "NaN"
  end.
End Printing.

(** ** Heatmap colours *)

Section HeatmapColour.
Context {num : Type} `{JSNumber num}.
Local Open Scope js_scope.

(** The first line of [getColor]. *)
Definition normalized (value min max : num) : num :=
  (value - min) / (max - min).

Definition rgb (red green : rounded) : string :=
  ("rgb(" ++ rounded_toString red ++ ", " ++ rounded_toString green ++ ", 100)")%string.

Definition getColor (value min max : num) : string :=
  let normalized := normalized value min max in
  if normalized <? lit 5 1 then
    let red := RInt 255 in
    let green := Math_round (int 255 * normalized * int 2) in
    rgb red green
  else
    let red := Math_round (int 255 * (int 1 - (normalized - lit 5 1) * int 2)) in
    let green := RInt 255 in
    rgb red green.
End HeatmapColour.

(** ** Sensitivity sweeps of the main component *)

Inductive Metric : Type := irr10 | irr20 | irr40 | cashflow | networth.

Record TornadoItem (num : Type) : Type := {
  t_variable : string;
  minImpact : num;
  maxImpact : num;
  baseValue : num;
  range : num
}.

Record HeatmapCell (num : Type) : Type := {
  c_x : Z;
  c_y : Z;
  xLabel : string;
  yLabel : string;
  c_value : num
}.

Section ArraySort.
Context {A num : Type} `{JSNumber num}.
Local Open Scope js_scope.

(** [Array.prototype.sort(compare)]: the sort is stable, and [a] is moved
    behind [b] exactly when [compare(a, b) > 0].  For a consistent
    comparator every conforming sort returns this list. *)
Fixpoint sortInsert (compare : A -> A -> num) (a : A) (l : list A) : list A :=
  match l with
  | [] => [a]
  | b :: l' =>
      if compare a b >? int 0 then b :: sortInsert compare a l'
      else a :: l
  end.

Definition Array_sort (compare : A -> A -> num) (l : list A) : list A :=
  fold_right (sortInsert compare) [] l.
End ArraySort.

Section Sweeps.
Context {num : Type} `{JSNumber num}.
Local Open Scope js_scope.

Definition sensitivityVariables (inputs : PropertyInputs num)
    : list (SensitivityVariable num) :=
  [ {| sv_name := "Interest Rate"; sv_key := k_interestRate;
       sv_min := int 2; sv_max := int 6; sv_step := lit 25 2; sv_unit := "%";
       sv_currentValue := interestRate inputs |};
    {| sv_name := "Rent Increase"; sv_key := k_rentIncreaseRate;
       sv_min := int 1; sv_max := int 5; sv_step := lit 5 1; sv_unit := "%";
       sv_currentValue := rentIncreaseRate inputs |};
    {| sv_name := "Property Value Increase"; sv_key := k_propertyValueIncreaseRate;
       sv_min := int 0; sv_max := int 5; sv_step := lit 5 1; sv_unit := "%";
       sv_currentValue := propertyValueIncreaseRate inputs |};
    {| sv_name := "Operating Costs Increase"; sv_key := k_operatingCostsIncreaseRate;
       sv_min := int 1; sv_max := int 4; sv_step := lit 5 1; sv_unit := "%";
       sv_currentValue := operatingCostsIncreaseRate inputs |};
    {| sv_name := "Vacancy Rate"; sv_key := k_vacancyRate;
       sv_min := int 0; sv_max := int 10; sv_step := int 1; sv_unit := "%";
       sv_currentValue := vacancyRate inputs |};
    {| sv_name := "Marginal Tax Rate"; sv_key := k_marginalTaxRate;
       sv_min := int 30; sv_max := int 50; sv_step := int 1; sv_unit := "%";
       sv_currentValue := marginalTaxRate inputs |};
    {| sv_name := "Repayment Rate"; sv_key := k_repaymentRate;
       sv_min := int 1; sv_max := int 3; sv_step := lit 2 1; sv_unit := "%";
       sv_currentValue := repaymentRate inputs |};
    {| sv_name := "Depreciation Rate"; sv_key := k_depreciationRate;
       sv_min := int 1; sv_max := int 3; sv_step := lit 5 1; sv_unit := "%";
       sv_currentValue := depreciationRate inputs |} ].

(** [getMetricValue], the same closure in [tornadoData] and [heatmapData]. *)
Definition getMetricValue (metric : Metric) (projectionYears : nat)
    (projection : ProjectionResults num) : num :=
  let s := summary projection in
  match metric with
  | irr10 => irr10Year s
  | irr20 => irr20Year s
  | irr40 => irr40Year s
  | cashflow =>
      if (projectionYears =? 10)%nat then totalCashFlow10Year s
      else if (projectionYears =? 20)%nat then totalCashFlow20Year s
      else totalCashFlow40Year s
  | networth =>
      if (projectionYears =? 10)%nat then netWorth10Year s
      else if (projectionYears =? 20)%nat then netWorth20Year s
      else netWorth40Year s
  end.

(** The row of one catalog variable, before sorting. *)
Definition tornadoItem (h : Host) (tornadoMetric : Metric)
    (inputs : PropertyInputs num) (projectionYears : nat) (baseValue : num)
    (variable : SensitivityVariable num) : TornadoItem num :=
  let minInputs := setInput (sv_key variable) (sv_min variable) inputs in
  let minProjection := calculateProjections h minInputs projectionYears in
  let minValue := getMetricValue tornadoMetric projectionYears minProjection in
  let maxInputs := setInput (sv_key variable) (sv_max variable) inputs in
  let maxProjection := calculateProjections h maxInputs projectionYears in
  let maxValue := getMetricValue tornadoMetric projectionYears maxProjection in
  {| t_variable := sv_name variable;
     minImpact := minValue;
     maxImpact := maxValue;
     baseValue := baseValue;
     range := Math_abs (maxValue - minValue) |}.

(** [tornadoData] over a given catalog. *)
Definition tornadoOf (catalog : list (SensitivityVariable num)) (h : Host)
    (showTornadoChart : bool) (tornadoMetric : Metric)
    (inputs : PropertyInputs num) (projectionYears : nat) : list (TornadoItem num) :=
  if negb showTornadoChart then []
  else
    let baseProjection := calculateProjections h inputs projectionYears in
    let baseValue := getMetricValue tornadoMetric projectionYears baseProjection in
    Array_sort (fun a b => range b - range a)
      (map (tornadoItem h tornadoMetric inputs projectionYears baseValue) catalog).

Definition tornadoData (h : Host) (showTornadoChart : bool) (tornadoMetric : Metric)
    (inputs : PropertyInputs num) (projectionYears : nat) : list (TornadoItem num) :=
  tornadoOf (sensitivityVariables inputs) h showTornadoChart tornadoMetric
    inputs projectionYears.

(** The test value of step [k] on an axis: [min + k * stepSize]. *)
Definition testValue (v : SensitivityVariable num) (k : nat) : num :=
  let steps := 5%Z in
  let stepSize := (sv_max v - sv_min v) / int (steps - 1) in
  sv_min v + int (Z.of_nat k) * stepSize.

(** The cell pushed in pass [(i, j)] of the two loops. *)
Definition heatmapCell (h : Host) (varX varY : SensitivityVariable num)
    (heatmapVarX heatmapVarY : InputKey) (heatmapMetric : Metric)
    (inputs : PropertyInputs num) (projectionYears : nat) (i j : nat)
    : HeatmapCell num :=
  let xValue := testValue varX j in
  let yValue := testValue varY i in
  let testInputs := setInput heatmapVarY yValue (setInput heatmapVarX xValue inputs) in
  let projection := calculateProjections h testInputs projectionYears in
  let metricValue := getMetricValue heatmapMetric projectionYears projection in
  {| c_x := Z.of_nat j;
     c_y := Z.of_nat i;
     xLabel := toFixed2 xValue;
     yLabel := toFixed2 yValue;
     c_value := metricValue |}.

Definition heatmapData (h : Host) (showHeatmap : bool)
    (heatmapVarX heatmapVarY : InputKey) (heatmapMetric : Metric)
    (inputs : PropertyInputs num) (projectionYears : nat) : list (HeatmapCell num) :=
  if negb showHeatmap then []
  else
    match find (fun v => InputKey_eqb (sv_key v) heatmapVarX) (sensitivityVariables inputs),
          find (fun v => InputKey_eqb (sv_key v) heatmapVarY) (sensitivityVariables inputs)
    with
    | Some varX, Some varY =>
        flat_map (fun i =>
          map (fun j =>
            heatmapCell h varX varY heatmapVarX heatmapVarY heatmapMetric
              inputs projectionYears i j)
            (seq 0 5))
          (seq 0 5)
    | _, _ => []
    end.
End Sweeps.

(** ** Rendering of the heatmap table and of the tornado bars *)

Record TornadoBar (num : Type) : Type := {
  minWidthPercent : num;
  maxWidthPercent : num;
  shouldSwapColors : bool
}.

Section Rendering.
Context {num : Type} `{JSNumber num}.
Local Open Scope js_scope.

(** [Math.min(a, b)]: [Math.max] mirrored, so that NaN and the order of the
    two zeros come out as ECMAScript has them. *)
Definition Math_min (a b : num) : num := - Math_max (- a) (- b).

(** [Math.max(x, ...xs)] and [Math.min(x, ...xs)] for a non-empty argument
    list. *)
Definition Math_max_spread (x : num) (xs : list num) : num := fold_left Math_max xs x.

Definition Math_min_spread (x : num) (xs : list num) : num := fold_left Math_min xs x.

(** The background colour of the table cell of column [x] and row [y] in
    [TableHeatmap]; [None] is the [null] returned when no cell is found.
    [minValue] and [maxValue] are taken over all cells. *)
Definition heatmapCellColor (heatmapData : list (HeatmapCell num)) (x y : Z)
    : option string :=
  match find (fun d => (c_x d =? x)%Z && (c_y d =? y)%Z) heatmapData with
  | None => None
  | Some cell =>
      match map (@c_value num) heatmapData with
      | [] => None
      | v :: vs =>
          let minValue := Math_min_spread v vs in
          let maxValue := Math_max_spread v vs in
          Some (getColor (c_value cell) minValue maxValue)
      end
  end.

(** [Math.max(Math.abs(d.minImpact - d.baseValue),
              Math.abs(d.maxImpact - d.baseValue))] *)
Definition absDelta (d : TornadoItem num) : num :=
  Math_max (Math_abs (minImpact d - baseValue d)) (Math_abs (maxImpact d - baseValue d)).

(** The widths and colour swap computed for each row in
    [tornadoData.map((item, idx) => ...)]. *)
Definition tornadoBars (tornadoData : list (TornadoItem num)) : list (TornadoBar num) :=
  match map absDelta tornadoData with
  | [] => []
  | x :: xs =>
      map (fun item =>
             let minDelta := minImpact item - baseValue item in
             let maxDelta := maxImpact item - baseValue item in
             let maxAbsDelta := Math_max_spread x xs in
             {| minWidthPercent := Math_abs minDelta / maxAbsDelta * int 100;
                maxWidthPercent := Math_abs maxDelta / maxAbsDelta * int 100;
                shouldSwapColors := maxImpact item <? baseValue item |})
          tornadoData
  end.
End Rendering.

(** ** Scenarios *)

Inductive ScenarioType : Type := optimistic | pessimistic | custom.

(** [Partial<Record<keyof PropertyInputs, number>>]: the own keys of the
    object in insertion order, each once, with their values. *)
Definition Adjustments (num : Type) : Type := list (InputKey * num).

Record Scenario (num : Type) : Type := {
  sc_name : string;
  sc_variables : Adjustments num;
  sc_color : string
}.

(** A slot of a JavaScript array: absent (a hole), holding [undefined], or
    holding an element. *)
Inductive Slot (A : Type) : Type :=
| Hole
| Undefined
| Elem (a : A).
Arguments Hole {A}.
Arguments Undefined {A}.
Arguments Elem {A} a.

Section JSArrays.
Context {A : Type}.

(** [[...l]]: iteration reads a hole as [undefined]. *)
Definition Array_spread (l : list (Slot A)) : list (Slot A) :=
  map (fun s => match s with Hole => Undefined | _ => s end) l.

(** [l[i] = x]: beyond the end the array is extended with holes. *)
Fixpoint Array_assign (l : list (Slot A)) (i : nat) (x : A) : list (Slot A) :=
  match l, i with
  | [], O => [Elem x]
  | [], S i' => Hole :: Array_assign [] i' x
  | _ :: rest, O => Elem x :: rest
  | s :: rest, S i' => s :: Array_assign rest i' x
  end.

(** [l.filter((_, i) => keep(i))] from index [i] on: holes are not visited. *)
Fixpoint Array_filterIndex (keep : nat -> bool) (i : nat) (l : list (Slot A))
    : list (Slot A) :=
  match l with
  | [] => []
  | Hole :: rest => Array_filterIndex keep (S i) rest
  | s :: rest =>
      if keep i then s :: Array_filterIndex keep (S i) rest
      else Array_filterIndex keep (S i) rest
  end.

(** [l[i]] when it is an element; [None] when it reads [undefined]. *)
Definition Array_get (l : list (Slot A)) (i : nat) : option A :=
  match nth_error l i with
  | Some (Elem a) => Some a
  | _ => None
  end.
End JSArrays.

Section AdjustmentObjects.
Context {num : Type}.

(** [a[k]] *)
Fixpoint adjLookup (k : InputKey) (a : Adjustments num) : option num :=
  match a with
  | [] => None
  | (k', v) :: rest => if InputKey_eqb k' k then Some v else adjLookup k rest
  end.

(** [{ ...a, [k]: v }]: an existing key keeps its place. *)
Fixpoint adjSet (k : InputKey) (v : num) (a : Adjustments num) : Adjustments num :=
  match a with
  | [] => [(k, v)]
  | (k', v') :: rest =>
      if InputKey_eqb k' k then (k', v) :: rest else (k', v') :: adjSet k v rest
  end.

(** [delete a[k]] *)
Fixpoint adjDelete (k : InputKey) (a : Adjustments num) : Adjustments num :=
  match a with
  | [] => []
  | (k', v') :: rest =>
      if InputKey_eqb k' k then adjDelete k rest else (k', v') :: adjDelete k rest
  end.

(** [{ ...inputs, ...a }] *)
Definition applyAdjustments (inputs : PropertyInputs num) (a : Adjustments num)
    : PropertyInputs num :=
  fold_left (fun i kv => setInput (fst kv) (snd kv) i) a inputs.
End AdjustmentObjects.

(** What a handler call did: ran to its end, stopped at an [alert], or threw
    a [TypeError] (reading a property of [undefined]). *)
Inductive Outcome (S : Type) : Type :=
| Done (s : S)
| Alert (message : string) (s : S)
| Threw.
Arguments Done {S} s.
Arguments Alert {S} message s.
Arguments Threw {S}.

(** The state of the scenario dialog and list ([useState] of the component). *)
Record UIState (num : Type) : Type := {
  scenarios : list (Slot (Scenario num));
  showScenarioDialog : bool;
  newScenarioName : string;
  newScenarioType : ScenarioType;
  editingScenarioIndex : option nat;
  customAdjustments : Adjustments num
}.

Section ScenarioHandlers.
Context {num : Type} `{JSNumber num}.
Local Open Scope js_scope.

(** [!name.trim()]: whether a name is blank.  [String.prototype.trim] is
    left to the host. *)
Variable isBlank : string -> bool.

Definition getPresetAdjustments (inputs : PropertyInputs num) (preset : ScenarioType)
    : Adjustments num :=
  match preset with
  | optimistic =>
      [ (k_interestRate, Math_max (int 2) (interestRate inputs - lit 5 1));
        (k_rentIncreaseRate, Math_min (int 5) (rentIncreaseRate inputs + int 1));
        (k_propertyValueIncreaseRate,
           Math_min (int 5) (propertyValueIncreaseRate inputs + int 1));
        (k_vacancyRate, int 0) ]
  | _ =>
      [ (k_interestRate, Math_min (int 6) (interestRate inputs + int 1));
        (k_rentIncreaseRate, Math_max (int 1) (rentIncreaseRate inputs - int 1));
        (k_propertyValueIncreaseRate,
           Math_max (int 0) (propertyValueIncreaseRate inputs - int 1));
        (k_vacancyRate, int 5) ]
  end.

Definition scenarioColors : list string :=
  ["#1e3a8a"; "#10b981"; "#ef4444"; "#8b5cf6"; "#f59e0b"; "#3b82f6"; "#ec4899"; "#14b8a6"]%string.

Definition getScenarioColor (index : nat) : string :=
  nth (index mod List.length scenarioColors) scenarioColors EmptyString.

Definition isValidAdjustment (inputs : PropertyInputs num) (key : InputKey)
    (value : num) (type : ScenarioType) : bool :=
  match type with
  | custom => true
  | optimistic =>
      let baseValue := getInput key inputs in
      match key with
      | k_interestRate | k_operatingCostsIncreaseRate | k_vacancyRate =>
          value <=? baseValue
      | k_rentIncreaseRate | k_propertyValueIncreaseRate
      | k_repaymentRate | k_depreciationRate =>
          baseValue <=? value
      | _ => true
      end
  | pessimistic =>
      let baseValue := getInput key inputs in
      match key with
      | k_interestRate | k_operatingCostsIncreaseRate | k_vacancyRate =>
          baseValue <=? value
      | k_rentIncreaseRate | k_propertyValueIncreaseRate
      | k_repaymentRate | k_depreciationRate =>
          value <=? baseValue
      | _ => true
      end
  end.

Definition addScenario (inputs : PropertyInputs num) (s : UIState num)
    : Outcome (UIState num) :=
  if isBlank (newScenarioName s) then Alert "Please enter a scenario name" s
  else
    let adjustments :=
      match newScenarioType s with
      | custom => customAdjustments s
      | preset => getPresetAdjustments inputs preset
      end in
    if (List.length adjustments =? 0)%nat
       && match newScenarioType s with custom => true | _ => false end
    then Alert "Please adjust at least one variable for custom scenarios" s
    else
      let newScenario :=
        {| sc_name := newScenarioName s;
           sc_variables := adjustments;
           sc_color := getScenarioColor (List.length (scenarios s)) |} in
      Done {| scenarios :=
                match editingScenarioIndex s with
                | Some index => Array_assign (Array_spread (scenarios s)) index newScenario
                | None => Array_spread (scenarios s) ++ [Elem newScenario]
                end;
              showScenarioDialog := false;
              newScenarioName := EmptyString;
              newScenarioType := custom;
              editingScenarioIndex := None;
              customAdjustments := [] |}.

Definition removeScenario (index : nat) (s : UIState num) : UIState num :=
  if (index =? 0)%nat then s
  else
    {| scenarios := Array_filterIndex (fun i => negb (i =? index)%nat) 0 (scenarios s);
       showScenarioDialog := showScenarioDialog s;
       newScenarioName := newScenarioName s;
       newScenarioType := newScenarioType s;
       editingScenarioIndex := editingScenarioIndex s;
       customAdjustments := customAdjustments s |}.

Definition editScenario (index : nat) (s : UIState num) : Outcome (UIState num) :=
  if (index =? 0)%nat then Done s
  else
    match Array_get (scenarios s) index with
    | None => Threw
    | Some scenario =>
        Done {| scenarios := scenarios s;
                showScenarioDialog := true;
                newScenarioName := sc_name scenario;
                newScenarioType := newScenarioType s;
                editingScenarioIndex := Some index;
                customAdjustments := sc_variables scenario |}
    end.

Definition openScenarioDialog (inputs : PropertyInputs num) (type : option ScenarioType)
    (s : UIState num) : UIState num :=
  match type with
  | Some type =>
      {| scenarios := scenarios s;
         showScenarioDialog := true;
         newScenarioName :=
           match type with optimistic => "Optimistic" | _ => "Pessimistic" end;
         newScenarioType := type;
         editingScenarioIndex := None;
         customAdjustments := getPresetAdjustments inputs type |}
  | None =>
      {| scenarios := scenarios s;
         showScenarioDialog := true;
         newScenarioName := EmptyString;
         newScenarioType := custom;
         editingScenarioIndex := None;
         customAdjustments := [] |}
  end.

Definition handleCustomAdjustment (inputs : PropertyInputs num) (key : InputKey)
    (value : num) (s : UIState num) : UIState num :=
  if match newScenarioType s with custom => false | _ => true end
     && negb (isValidAdjustment inputs key value (newScenarioType s))
  then s
  else
    {| scenarios := scenarios s;
       showScenarioDialog := showScenarioDialog s;
       newScenarioName := newScenarioName s;
       newScenarioType := newScenarioType s;
       editingScenarioIndex := editingScenarioIndex s;
       customAdjustments := adjSet key value (customAdjustments s) |}.

Definition removeCustomAdjustment (key : InputKey) (s : UIState num) : UIState num :=
  {| scenarios := scenarios s;
     showScenarioDialog := showScenarioDialog s;
     newScenarioName := newScenarioName s;
     newScenarioType := newScenarioType s;
     editingScenarioIndex := editingScenarioIndex s;
     customAdjustments := adjDelete key (customAdjustments s) |}.

(** The inline handlers of the dialog: the close and Cancel buttons, the
    name field and the type select. *)
Definition closeScenarioDialog (s : UIState num) : UIState num :=
  {| scenarios := scenarios s;
     showScenarioDialog := false;
     newScenarioName := EmptyString;
     newScenarioType := newScenarioType s;
     editingScenarioIndex := None;
     customAdjustments := [] |}.

Definition changeScenarioName (value : string) (s : UIState num) : UIState num :=
  {| scenarios := scenarios s;
     showScenarioDialog := showScenarioDialog s;
     newScenarioName := value;
     newScenarioType := newScenarioType s;
     editingScenarioIndex := editingScenarioIndex s;
     customAdjustments := customAdjustments s |}.

Definition changeScenarioType (inputs : PropertyInputs num) (type : ScenarioType)
    (s : UIState num) : UIState num :=
  {| scenarios := scenarios s;
     showScenarioDialog := showScenarioDialog s;
     newScenarioName := newScenarioName s;
     newScenarioType := type;
     editingScenarioIndex := editingScenarioIndex s;
     customAdjustments :=
       match type with
       | custom => customAdjustments s
       | preset => getPresetAdjustments inputs preset
       end |}.

(** [scenarioProjections]: one projection per scenario; [None] is the
    [TypeError] of reading [variables] of an [undefined] element; holes are
    skipped and stay holes. *)
Fixpoint mapScenarios (h : Host) (inputs : PropertyInputs num) (projectionYears : nat)
    (l : list (Slot (Scenario num))) : option (list (Slot (ProjectionResults num))) :=
  match l with
  | [] => Some []
  | Hole :: rest =>
      option_map (cons Hole) (mapScenarios h inputs projectionYears rest)
  | Undefined :: _ => None
  | Elem scenario :: rest =>
      let scenarioInputs := applyAdjustments inputs (sc_variables scenario) in
      option_map (cons (Elem (calculateProjections h scenarioInputs projectionYears)))
        (mapScenarios h inputs projectionYears rest)
  end.

Definition scenarioProjections (h : Host) (sensitivityEnabled : bool)
    (inputs : PropertyInputs num) (scenarios : list (Slot (Scenario num)))
    (projectionYears : nat) : option (list (Slot (ProjectionResults num))) :=
  if negb sensitivityEnabled
  then Some [Elem (calculateProjections h inputs projectionYears)]
  else mapScenarios h inputs projectionYears scenarios.
End ScenarioHandlers.

(** The initial scenario state of the component. *)
Definition initialUIState {num : Type} : UIState num :=
  {| scenarios := [Elem {| sc_name := "Base"; sc_variables := []; sc_color := "#1e3a8a" |}];
     showScenarioDialog := false;
     newScenarioName := EmptyString;
     newScenarioType := custom;
     editingScenarioIndex := None;
     customAdjustments := [] |}.

(** [handleInputChange] for the two keys that are not numbers. *)
Definition setMaritalStatus {num : Type} (value : MaritalStatus)
    (i : PropertyInputs num) : PropertyInputs num :=
  {| purchasePrice := purchasePrice i;
     notaryAndLandRegistryFees := notaryAndLandRegistryFees i;
     realEstateTransferTax := realEstateTransferTax i;
     brokerCommission := brokerCommission i;
     renovationCosts := renovationCosts i;
     equity := equity i;
     interestRate := interestRate i;
     repaymentRate := repaymentRate i;
     monthlyRent := monthlyRent i;
     monthlyPropertyManagement := monthlyPropertyManagement i;
     monthlyMaintenance := monthlyMaintenance i;
     monthlyInsurance := monthlyInsurance i;
     monthlyOtherCosts := monthlyOtherCosts i;
     rentIncreaseRate := rentIncreaseRate i;
     propertyValueIncreaseRate := propertyValueIncreaseRate i;
     operatingCostsIncreaseRate := operatingCostsIncreaseRate i;
     annualIncome := annualIncome i;
     maritalStatus := value;
     marginalTaxRate := marginalTaxRate i;
     churchTaxLiability := churchTaxLiability i;
     vacancyRate := vacancyRate i;
     depreciationRate := depreciationRate i |}.

Definition setChurchTaxLiability {num : Type} (value : bool)
    (i : PropertyInputs num) : PropertyInputs num :=
  {| purchasePrice := purchasePrice i;
     notaryAndLandRegistryFees := notaryAndLandRegistryFees i;
     realEstateTransferTax := realEstateTransferTax i;
     brokerCommission := brokerCommission i;
     renovationCosts := renovationCosts i;
     equity := equity i;
     interestRate := interestRate i;
     repaymentRate := repaymentRate i;
     monthlyRent := monthlyRent i;
     monthlyPropertyManagement := monthlyPropertyManagement i;
     monthlyMaintenance := monthlyMaintenance i;
     monthlyInsurance := monthlyInsurance i;
     monthlyOtherCosts := monthlyOtherCosts i;
     rentIncreaseRate := rentIncreaseRate i;
     propertyValueIncreaseRate := propertyValueIncreaseRate i;
     operatingCostsIncreaseRate := operatingCostsIncreaseRate i;
     annualIncome := annualIncome i;
     maritalStatus := maritalStatus i;
     marginalTaxRate := marginalTaxRate i;
     churchTaxLiability := value;
     vacancyRate := vacancyRate i;
     depreciationRate := depreciationRate i |}.

(** ** Concrete inputs *)

(** The initial state of the component ([useState<PropertyInputs>]). *)
Definition defaultInputs {num : Type} `{JSNumber num} : PropertyInputs num := {|
  purchasePrice := int 300000;
  notaryAndLandRegistryFees := lit 15 1;
  realEstateTransferTax := lit 50 1;
  brokerCommission := lit 357 2;
  renovationCosts := int 10000;
  equity := int 60000;
  interestRate := lit 375 2;
  repaymentRate := lit 14 1;
  monthlyRent := int 1200;
  monthlyPropertyManagement := int 60;
  monthlyMaintenance := int 100;
  monthlyInsurance := int 30;
  monthlyOtherCosts := int 20;
  rentIncreaseRate := lit 30 1;
  propertyValueIncreaseRate := lit 30 1;
  operatingCostsIncreaseRate := lit 20 1;
  annualIncome := int 60000;
  maritalStatus := single;
  marginalTaxRate := int 42;
  churchTaxLiability := false;
  vacancyRate := int 0;
  depreciationRate := lit 20 1
|}.

(** * Definitions used by the statements *)

(** A browser in Berlin opened in November 2026, and the same a month later. *)
Definition hostNov2026 : Host :=
  {| today_getFullYear := 2026; today_getMonth := 10; aheadOfUTC := fun _ _ => true |}.

Definition hostDec2026 : Host :=
  {| today_getFullYear := 2026; today_getMonth := 11; aheadOfUTC := fun _ _ => true |}.

(** A cash-flow series on which Newton-Raphson from 10% never settles: in
    exact arithmetic the step at 10% lands on -10% and the step at -10%
    lands back on 10%. *)
Definition cyclingCashFlows {num : Type} `{JSNumber num} : list num :=
  [int 471300; int (-595870); int 232683].

(** The default inputs with a vacancy rate of 20%, as typed into the form. *)
Definition vacantInputs {num : Type} `{JSNumber num} : PropertyInputs num :=
  setInput k_vacancyRate (int 20) defaultInputs.

Section StatementDefinitions.
Context {num : Type} `{JSNumber num}.
Local Open Scope js_scope.

(** The records pushed by [n] passes starting at [year]. *)
Fixpoint recordsFrom (h : Host) (inputs : PropertyInputs num) (n year : nat)
    (cf ts : num) : list (YearlyProjection num) :=
  match n with
  | O => []
  | S n' =>
      let r := yearRecord h inputs year cf ts in
      r :: recordsFrom h inputs n' (S year) (cumulativeCashFlow r) (cumulativeTaxSavings r)
  end.

(** A record with its date string blanked. *)
Definition withoutDate (d : YearlyProjection num) : YearlyProjection num :=
  {| year := year d;
     date := EmptyString;
     propertyValue := propertyValue d;
     outstandingLoan := outstandingLoan d;
     annualLoanPayment := annualLoanPayment d;
     interestPaid := interestPaid d;
     principalRepaid := principalRepaid d;
     grossRent := grossRent d;
     effectiveRent := effectiveRent d;
     totalOperatingCosts := totalOperatingCosts d;
     depreciation := depreciation d;
     taxableIncome := taxableIncome d;
     taxSavings := taxSavings d;
     grossCashFlow := grossCashFlow d;
     netCashFlow := netCashFlow d;
     yp_equity := yp_equity d;
     netWorth := netWorth d;
     cumulativeCashFlow := cumulativeCashFlow d;
     cumulativeTaxSavings := cumulativeTaxSavings d |}.

(** The summary block of [calculateProjections] as a function of the
    records it reads. *)
Definition summarize (totalInvestment : num) (yearlyData : list (YearlyProjection num))
    : Summary num :=
  let cashFlows10 := map (@netCashFlow num) (firstn 10 yearlyData) in
  let cashFlows20 := map (@netCashFlow num) (firstn 20 yearlyData) in
  let cashFlows40 := map (@netCashFlow num) yearlyData in
  let len := Z.of_nat (List.length yearlyData) in
  {| totalInvestment := totalInvestment;
     irr10Year := irrAt 10 cashFlows10 (fieldOrZero (@yp_equity num) yearlyData 9) totalInvestment;
     irr20Year := irrAt 20 cashFlows20 (fieldOrZero (@yp_equity num) yearlyData 19) totalInvestment;
     irr40Year := irrAt 40 cashFlows40 (fieldOrZero (@yp_equity num) yearlyData 39) totalInvestment;
     totalCashFlow10Year := fieldOrZero (@cumulativeCashFlow num) yearlyData 9;
     totalCashFlow20Year := fieldOrZero (@cumulativeCashFlow num) yearlyData 19;
     totalCashFlow40Year := fieldOrZero (@cumulativeCashFlow num) yearlyData 39;
     netWorth10Year := fieldOrZero (@netWorth num) yearlyData 9;
     netWorth20Year := fieldOrZero (@netWorth num) yearlyData 19;
     netWorth40Year := fieldOrZero (@netWorth num) yearlyData 39;
     averageAnnualCashFlow :=
       fieldOrZero (@cumulativeCashFlow num) yearlyData (Z.min 39 (len - 1))
         / int (Z.min 40 len);
     roiAtYear10 := roiAt yearlyData 9 totalInvestment;
     roiAtYear20 := roiAt yearlyData 19 totalInvestment;
     roiAtYear40 := roiAt yearlyData 39 totalInvestment |}.

(** The estimate after [k] Newton-Raphson steps from [rate]. *)
Fixpoint newtonIter (flows : list num) (k : nat) (rate : num) : num :=
  match k with
  | O => rate
  | S k' => newtonIter flows k' (newtonStep flows rate)
  end.

(** The test [Math.abs(newRate - rate) < 0.0001] of the step taken at [rate]. *)
Definition stepSettles (flows : list num) (rate : num) : bool :=
  Math_abs (newtonStep flows rate - rate) <? lit 1 4.

(** No step among the first [n] from [rate] passes the test. *)
Fixpoint neverSettles (flows : list num) (n : nat) (rate : num) : bool :=
  match n with
  | O => true
  | S n' => negb (stepSettles flows rate)
            && neverSettles flows n' (newtonStep flows rate)
  end.

(** No number is followed by a larger one. *)
Fixpoint nonIncreasing (l : list num) : bool :=
  match l with
  | a :: (b :: _) as rest => negb (ltb a b) && nonIncreasing rest
  | _ => true
  end.

(** The documented sort key: [|minImpact - base| + |maxImpact - base|]. *)
Definition totalImpact (t : TornadoItem num) : num :=
  add (Math_abs (sub (minImpact t) (baseValue t)))
      (Math_abs (sub (maxImpact t) (baseValue t))).

(** No row is followed by one with a larger key. *)
Fixpoint descendingBy (key : TornadoItem num -> num) (l : list (TornadoItem num)) : bool :=
  match l with
  | a :: (b :: _) as rest => negb (ltb (key a) (key b)) && descendingBy key rest
  | _ => true
  end.
End StatementDefinitions.

(** The quartile fractions of the two axes, as the specification words them:
    test value [k] lies at fraction [k / 4] of [[min, max]]. *)
Definition quartileFraction {num : Type} `{JSNumber num} (k : nat) : num :=
  match k with
  | 0%nat => int 0
  | 1%nat => lit 25 2
  | 2%nat => lit 5 1
  | 3%nat => lit 75 2
  | _ => int 1
  end.

Definition quartile {num : Type} `{JSNumber num} (v : SensitivityVariable num) (k : nat) : num :=
  add (sv_min v) (mul (quartileFraction k) (sub (sv_max v) (sv_min v))).

(** The monthly rate the annuity formula compounds with, its growth factor
    and the annuity denominator [1 - (1 + monthlyRate)^-360], in exact
    arithmetic. *)
Definition monthlyRateOf (inputs : PropertyInputs Q) : Q :=
  ((interestRate inputs / inject_Z 100 + repaymentRate inputs / inject_Z 100) / inject_Z 12)%Q.

Definition growthOf (inputs : PropertyInputs Q) : Q :=
  (inject_Z 1 + monthlyRateOf inputs)%Q.

Definition annuityDenominator (inputs : PropertyInputs Q) : Q :=
  (inject_Z 1 - growthOf inputs ^ (- (30 * 12)))%Q.

Section MoreStatementDefinitions.
Context {num : Type} `{JSNumber num}.

(** The running total carried into pass [k]: [0] before the first pass,
    otherwise the total stored in the record before. *)
Definition carriedIn (field : YearlyProjection num -> num)
    (data : list (YearlyProjection num)) (k : nat) : num :=
  match k with
  | O => int 0
  | S k' => match nth_error data k' with
            | Some p => field p
            | None => int 0
            end
  end.

(** Two input sets that differ at most in [annualIncome] and
    [maritalStatus]. *)
Definition sameButIncomeAndStatus (a b : PropertyInputs num) : Prop :=
  (forall k, k <> k_annualIncome -> getInput k a = getInput k b)
  /\ churchTaxLiability a = churchTaxLiability b.
End MoreStatementDefinitions.

Section SweepStatementDefinitions.
Context {num : Type} `{JSNumber num}.

(** The mark (10, 20 or 40 years) whose summary scalar [getMetricValue]
    reads for a metric at a horizon. *)
Definition markOf (metric : Metric) (projectionYears : nat) : nat :=
  match metric with
  | irr10 => 10
  | irr20 => 20
  | irr40 => 40
  | cashflow | networth =>
      if (projectionYears =? 10)%nat then 10
      else if (projectionYears =? 20)%nat then 20
      else 40
  end.

(** A tornado row whose four numbers are [0]. *)
Definition zeroRow (variable : SensitivityVariable num) : TornadoItem num :=
  {| t_variable := sv_name variable;
     minImpact := int 0;
     maxImpact := int 0;
     baseValue := int 0;
     range := Math_abs (sub (int 0) (int 0)) |}.
End SweepStatementDefinitions.

(** ** The scenario dialog as the component wires it *)

Section ScenarioStatementDefinitions.
Context {num : Type} `{JSNumber num}.
Variable isBlank : string -> bool.

(** What the user can do to the scenario state: the three "Add ... Scenario"
    buttons, Edit and Remove of a listed scenario, and inside the dialog the
    close and Cancel buttons, the name field, the type select, the sliders
    and number fields, the Reset links and the Add/Update button. *)
Inductive Event : Type :=
| ClickAdd (type : option ScenarioType)
| ClickEdit (index : nat)
| ClickRemove (index : nat)
| ClickClose
| TypeName (value : string)
| SelectType (type : ScenarioType)
| MoveSlider (key : InputKey) (value : num)
| ClickReset (key : InputKey)
| ClickSubmit.

(** The handler each control is bound to. *)
Definition handle (inputs : PropertyInputs num) (e : Event) (s : UIState num)
    : Outcome (UIState num) :=
  match e with
  | ClickAdd type => Done (openScenarioDialog inputs type s)
  | ClickEdit index => editScenario index s
  | ClickRemove index => Done (removeScenario index s)
  | ClickClose => Done (closeScenarioDialog s)
  | TypeName value => Done (changeScenarioName value s)
  | SelectType type => Done (changeScenarioType inputs type s)
  | MoveSlider key value => Done (handleCustomAdjustment inputs key value s)
  | ClickReset key => Done (removeCustomAdjustment key s)
  | ClickSubmit => addScenario isBlank inputs s
  end.

(** Whether a control is on screen and can be reached: the dialog is a
    full-screen overlay over the page, its controls exist only while it is
    shown, and Edit and Remove are rendered for the listed scenarios after
    the first. *)
Definition offered (e : Event) (s : UIState num) : bool :=
  match e with
  | ClickAdd _ => negb (showScenarioDialog s)
  | ClickEdit index | ClickRemove index =>
      negb (showScenarioDialog s)
      && (0 <? index)%nat && (index <? List.length (scenarios s))%nat
  | _ => showScenarioDialog s
  end.

(** A session: each event comes with the inputs of the form at that moment;
    an event whose control is not offered changes nothing; an [alert] is
    dismissed. *)
Fixpoint run (session : list (PropertyInputs num * Event)) (s : UIState num)
    : Outcome (UIState num) :=
  match session with
  | [] => Done s
  | (inputs, e) :: rest =>
      if offered e s then
        match handle inputs e s with
        | Done s' => run rest s'
        | Alert _ s' => run rest s'
        | Threw => Threw
        end
      else run rest s
  end.

Definition baseScenario : Scenario num :=
  {| sc_name := "Base"; sc_variables := []; sc_color := "#1e3a8a" |}.

Definition isElem {A : Type} (s : Slot A) : bool :=
  match s with Elem _ => true | _ => false end.

(** The scenario list starts with the base scenario and has neither holes
    nor [undefined] entries; an index being edited points at a listed
    scenario other than the first, and the dialog is then open. *)
Definition wellFormed (s : UIState num) : Prop :=
  (exists rest, scenarios s = Elem baseScenario :: rest /\ forallb isElem rest = true)
  /\ match editingScenarioIndex s with
     | Some index =>
         (0 < index < List.length (scenarios s))%nat /\ showScenarioDialog s = true
     | None => True
     end.
End ScenarioStatementDefinitions.

Section MoreScenarioStatementDefinitions.
Context {num : Type} `{JSNumber num}.

(** An adjustment made inside the dialog: a slider or number field moved,
    or a Reset link clicked. *)
Definition isTweak (e : Event (num := num)) : bool :=
  match e with
  | MoveSlider _ _ | ClickReset _ => true
  | _ => false
  end.

(** The name the dialog of a preset starts with. *)
Definition presetName (type : ScenarioType) : string :=
  match type with optimistic => "Optimistic" | _ => "Pessimistic" end.

Definition isPreset (type : ScenarioType) : bool :=
  match type with custom => false | _ => true end.
End MoreScenarioStatementDefinitions.

(** The sum of a field over the records of a list, in exact arithmetic. *)
Definition sumOf (field : YearlyProjection Q -> Q) (data : list (YearlyProjection Q)) : Q :=
  fold_right Qplus 0%Q (map field data).

Section HorizonStatementDefinitions.
Context {num : Type} `{JSNumber num}.

(** The four summary scalars of the [n]-year mark as read off the record of
    year [n]: the IRR of the net cash flows up to that year, the last one
    increased by the equity of the record, on the outlay [totalInvestment];
    the cumulative cash flow and the net worth of the record (each through
    [|| 0]); and the ROI [(netWorth / totalInvestment - 1) * 100]. *)
Definition markComputed (totalInvestment : num) (yearlyData : list (YearlyProjection num))
    (cashFlows : list num) (n : nat) (irr totalCashFlow netWorthAt roi : num) : Prop :=
  exists d,
    nth_error yearlyData (n - 1) = Some d
    /\ irr = calculateIRR
               (removelast cashFlows ++ [add (netCashFlow d) (or_zero (yp_equity d))])
               totalInvestment
    /\ totalCashFlow = or_zero (cumulativeCashFlow d)
    /\ netWorthAt = or_zero (netWorth d)
    /\ roi = mul (sub (div (netWorth d) totalInvestment) (int 1)) (int 100).

(** The four summary scalars of a mark the records do not reach. *)
Definition markAbsent (irr totalCashFlow netWorthAt roi : num) : Prop :=
  irr = int 0 /\ totalCashFlow = int 0 /\ netWorthAt = int 0 /\ roi = int 0.
End HorizonStatementDefinitions.

(** Two loans with positive principal and positive rates on which binary64
    does not follow the exact formula: interest and repayment of 600% each
    on a purchase price of 250000, and rates of [1e-18] percent, for which
    [1 + monthlyRate] rounds to 1. *)
Definition steepLoanInputs : PropertyInputs float :=
  setInput k_repaymentRate (int 600)
    (setInput k_interestRate (int 600)
       (setInput k_purchasePrice (int 250000) defaultInputs)).

Definition tinyRateInputs : PropertyInputs float :=
  setInput k_repaymentRate (lit 1 18) (setInput k_interestRate (lit 1 18) defaultInputs).

(** ** Reasoning in exact arithmetic *)

(** Unfold the number interface at [Q]. *)
Ltac q_unfold :=
  unfold lit, int in *;
  cbn [of_Z add sub mul div opp ltb leb Math_pow Math_abs Math_max exact Q_JSNumber] in *.

(** Turn divisions by literals into multiplications by constants, the form
    [lra] and [nra] read. *)
Ltac q_consts :=
  unfold Qdiv in *;
  repeat match goal with
    | |- context [Qinv (inject_Z ?c)] =>
        let v := eval vm_compute in (Qinv (inject_Z c)) in
        change (Qinv (inject_Z c)) with v
    | H : context [Qinv (inject_Z ?c)] |- _ =>
        let v := eval vm_compute in (Qinv (inject_Z c)) in
        change (Qinv (inject_Z c)) with v in H
    end;
  unfold inject_Z in *.

(** Split on a comparison [a <= b] of the goal. *)
Ltac q_case :=
  match goal with
  | |- context [Qle_bool ?a ?b] =>
      let E := fresh "E" in
      destruct (Qle_bool a b) eqn:E;
      [ apply Qle_bool_iff in E
      | apply not_true_iff_false in E; rewrite Qle_bool_iff in E; apply Qnot_le_lt in E ]
  end.

(** Split on a comparison under a negation, [a > b]. *)
Ltac q_case_negb :=
  match goal with
  | |- context [negb (Qle_bool ?a ?b)] =>
      let E := fresh "E" in
      destruct (Qle_bool a b) eqn:E;
      [ apply Qle_bool_iff in E
      | apply not_true_iff_false in E; rewrite Qle_bool_iff in E; apply Qnot_le_lt in E ];
      cbn [negb]
  end.

(** Open [calculateGermanTax] at its four outputs. *)
Ltac tax_cases :=
  unfold calculateGermanTax; cbv zeta;
  cbn [incomeTax solidarityTax churchTax totalTax].

(** Split on the test of a conditional. *)
Ltac q_case_if :=
  match goal with
  | |- context [if Qle_bool ?a ?b then _ else _] =>
      let E := fresh "E" in
      destruct (Qle_bool a b) eqn:E;
      [ apply Qle_bool_iff in E
      | apply not_true_iff_false in E; rewrite Qle_bool_iff in E; apply Qnot_le_lt in E ]
  end.

(** * Properties *)

(** ** The number literals on binary64 *)

Example lit_922_98 : (lit 92298 2 : float) = 922.98%float.
Proof. vm_compute. reflexivity. Qed.

Example lit_0_0001 : (lit 1 4 : float) = 0.0001%float.
Proof. vm_compute. reflexivity. Qed.

Example exact_1_5 :
  match F64.exact 1.5%float with XFin q => Qred q | _ => 0 end = 3 # 2.
Proof. vm_compute. reflexivity. Qed.

(** ** The loop of [calculateProjections], unfolded *)

Section LoopFacts.
Context {num : Type} `{JSNumber num}.
Local Open Scope js_scope.

Lemma projectionLoop_records h inputs n :
  forall year cf ts acc,
    projectionLoop h inputs n year cf ts acc
    = acc ++ recordsFrom h inputs n year cf ts.
Proof.
  induction n as [|n IH]; intros year cf ts acc; simpl.
  - now rewrite app_nil_r.
  - rewrite IH, <- app_assoc. reflexivity.
Qed.

Lemma recordsFrom_length h inputs n :
  forall year cf ts, List.length (recordsFrom h inputs n year cf ts) = n.
Proof.
  induction n as [|n IH]; intros; simpl; [reflexivity|].
  now rewrite IH.
Qed.

Lemma yearlyData_records h inputs years :
  yearlyData (calculateProjections h inputs years)
  = recordsFrom h inputs years 0 (int 0) (int 0).
Proof.
  unfold calculateProjections; cbn [yearlyData].
  now rewrite projectionLoop_records.
Qed.

Lemma yearlyData_length h inputs years :
  List.length (yearlyData (calculateProjections h inputs years)) = years.
Proof. rewrite yearlyData_records. apply recordsFrom_length. Qed.

(** Every record is the loop body run at its own index. *)
Lemma recordsFrom_nth h inputs n :
  forall year cf ts k d,
    nth_error (recordsFrom h inputs n year cf ts) k = Some d ->
    exists cf' ts', d = yearRecord h inputs (year + k) cf' ts'.
Proof.
  induction n as [|n IH]; intros year cf ts k d Hk.
  - destruct k; discriminate.
  - destruct k as [|k]; simpl in Hk.
    + injection Hk as <-. exists cf, ts. now rewrite Nat.add_0_r.
    + apply IH in Hk. destruct Hk as (cf' & ts' & ->).
      exists cf', ts'. f_equal. lia.
Qed.

Lemma yearlyData_nth h inputs years k d :
  nth_error (yearlyData (calculateProjections h inputs years)) k = Some d ->
  exists cf ts, d = yearRecord h inputs k cf ts.
Proof.
  rewrite yearlyData_records. intros Hk.
  apply recordsFrom_nth in Hk. exact Hk.
Qed.

Lemma fieldOrZero_beyond (field : YearlyProjection num -> num) l i :
  (Z.of_nat (List.length l) <= i)%Z -> fieldOrZero field l i = int 0.
Proof.
  intros Hi. unfold fieldOrZero.
  destruct (i <? 0)%Z; [reflexivity|].
  replace (nth_error l (Z.to_nat i)) with (@None (YearlyProjection num)); [reflexivity|].
  symmetry. apply nth_error_None. lia.
Qed.

Lemma irrAt_beyond n (cashFlows : list num) fe ti :
  (List.length cashFlows < n)%nat -> irrAt n cashFlows fe ti = int 0.
Proof.
  intros Hn. unfold irrAt.
  destruct (Nat.leb_spec n (List.length cashFlows)); [lia|reflexivity].
Qed.

Lemma roiAt_beyond (l : list (YearlyProjection num)) i ti :
  (List.length l <= i)%nat -> roiAt l i ti = int 0.
Proof.
  intros Hi. unfold roiAt.
  replace (nth_error l i) with (@None (YearlyProjection num)); [reflexivity|].
  symmetry. now apply nth_error_None.
Qed.
End LoopFacts.

(** ** C1: the number of records is the horizon passed in *)

(** C1 at the failing input.  The 10-year display of the default inputs
    holds ten records, not forty, and its 40-year marks are [0]. *)
Lemma ten_year_horizon_has_ten_records :
  List.length (yearlyData (calculateProjections hostNov2026
                 (defaultInputs (num := float)) 10)) = 10%nat
  /\ List.length (yearlyData (calculateProjections hostNov2026
                 (defaultInputs (num := float)) 10)) <> 40%nat
  /\ irr40Year (summary (calculateProjections hostNov2026
                 (defaultInputs (num := float)) 10)) = 0%float
  /\ netWorth40Year (summary (calculateProjections hostNov2026
                 (defaultInputs (num := float)) 10)) = 0%float.
Proof.
  rewrite yearlyData_length.
  repeat split; try (intro; discriminate); vm_compute; reflexivity.
Qed.

Section MarksOfTheSummary.
Context {num : Type} `{JSNumber num}.

Lemma fieldOrZero_at (field : YearlyProjection num -> num) l (i : nat) d :
  nth_error l i = Some d -> fieldOrZero field l (Z.of_nat i) = or_zero (field d).
Proof.
  intros Hd. unfold fieldOrZero.
  destruct (Z.ltb_spec (Z.of_nat i) 0) as [Hneg|_]; [lia|].
  now rewrite Nat2Z.id, Hd.
Qed.

Lemma nth_map_at (A B : Type) (f : A -> B) (l : list A) (i : nat) (a : A) (b : B) :
  nth_error l i = Some a -> nth i (map f l) b = f a.
Proof.
  revert i. induction l as [|x l IH]; intros i Hi; destruct i as [|i]; try discriminate Hi.
  - injection Hi as ->. reflexivity.
  - cbn. now apply IH.
Qed.

Lemma mark_reached (totalInvestment : num) (data : list (YearlyProjection num))
    (flows : list num) (n : nat) (d : YearlyProjection num) :
  (0 < n)%nat ->
  nth_error data (n - 1) = Some d ->
  (n <= List.length flows)%nat ->
  nth (n - 1) flows (int 0) = netCashFlow d ->
  markComputed totalInvestment data flows n
    (irrAt n flows (fieldOrZero (@yp_equity num) data (Z.of_nat (n - 1))) totalInvestment)
    (fieldOrZero (@cumulativeCashFlow num) data (Z.of_nat (n - 1)))
    (fieldOrZero (@netWorth num) data (Z.of_nat (n - 1)))
    (roiAt data (n - 1) totalInvestment).
Proof.
  intros Hn Hd Hlen Hnth. exists d. split; [exact Hd|].
  rewrite !(fieldOrZero_at _ _ _ Hd).
  split; [|split; [reflexivity|split; [reflexivity|]]].
  - unfold irrAt. destruct (Nat.leb_spec n (List.length flows)) as [_|Hlt]; [|lia].
    now rewrite Hnth.
  - unfold roiAt. now rewrite Hd.
Qed.

Lemma mark_reached_in_records h (inputs : PropertyInputs num) (years n : nat) :
  (0 < n <= years)%nat ->
  let data := yearlyData (calculateProjections h inputs years) in
  exists d,
    nth_error data (n - 1) = Some d
    /\ nth (n - 1) (map (@netCashFlow num) (firstn n data)) (int 0) = netCashFlow d
    /\ nth (n - 1) (map (@netCashFlow num) data) (int 0) = netCashFlow d
    /\ List.length (map (@netCashFlow num) (firstn n data)) = n.
Proof.
  intros [Hn Hy] data.
  assert (Hlen : List.length data = years) by apply yearlyData_length.
  destruct (nth_error data (n - 1)) as [d|] eqn:Hd.
  2:{ apply nth_error_None in Hd. lia. }
  exists d. split; [reflexivity|].
  split; [|split].
  - apply nth_map_at.
    pose proof (nth_error_firstn n data (n - 1)) as E.
    destruct (Nat.ltb_spec (n - 1) n) as [_|Hge]; [|lia].
    now rewrite E.
  - now apply nth_map_at.
  - rewrite length_map, length_firstn. lia.
Qed.

(** C1, as the code has it.  [calculateProjections inputs years] returns
    exactly [years] yearly records, forty only when called with the default
    horizon; the component calls it with the displayed horizon.  The summary
    scalars of a mark the records reach (IRR, cumulative cash flow, net
    worth, ROI at 10, 20 or 40 years) are computed from the record of that
    year; those of a mark beyond the horizon are the constant [0]. *)
Theorem projection_has_horizon_many_records :
  forall (h : Host) (inputs : PropertyInputs num) (years : nat),
    let result := calculateProjections h inputs years in
    let s := summary result in
    let data := yearlyData result in
    let cashFlows n := map (@netCashFlow num) (firstn n data) in
    List.length data = years
    /\ ((years < 10)%nat ->
        markAbsent (irr10Year s) (totalCashFlow10Year s) (netWorth10Year s) (roiAtYear10 s))
    /\ ((10 <= years)%nat ->
        markComputed (equity inputs) data (cashFlows 10%nat) 10
          (irr10Year s) (totalCashFlow10Year s) (netWorth10Year s) (roiAtYear10 s))
    /\ ((years < 20)%nat ->
        markAbsent (irr20Year s) (totalCashFlow20Year s) (netWorth20Year s) (roiAtYear20 s))
    /\ ((20 <= years)%nat ->
        markComputed (equity inputs) data (cashFlows 20%nat) 20
          (irr20Year s) (totalCashFlow20Year s) (netWorth20Year s) (roiAtYear20 s))
    /\ ((years < 40)%nat ->
        markAbsent (irr40Year s) (totalCashFlow40Year s) (netWorth40Year s) (roiAtYear40 s))
    /\ ((40 <= years)%nat ->
        markComputed (equity inputs) data (map (@netCashFlow num) data) 40
          (irr40Year s) (totalCashFlow40Year s) (netWorth40Year s) (roiAtYear40 s)).
Proof.
  intros h inputs years result s data cashFlows.
  pose proof (yearlyData_length h inputs years) as Hlen. fold result data in Hlen.
  pose proof (fun n Hn => @mark_reached_in_records h inputs years n Hn) as Hrec.
  cbv zeta in Hrec. fold result data in Hrec.
  assert (Hs : s = summarize (equity inputs) data) by reflexivity.
  clearbody s data. subst s cashFlows. clear result.
  unfold summarize.
  cbn [irr10Year irr20Year irr40Year totalCashFlow10Year totalCashFlow20Year
       totalCashFlow40Year netWorth10Year netWorth20Year netWorth40Year
       roiAtYear10 roiAtYear20 roiAtYear40].
  set (ti := equity inputs). clearbody ti.
  assert (Habsent : forall (n m : nat) (z : Z) (flows : list num),
             (years < n)%nat -> m = (n - 1)%nat -> z = Z.of_nat m ->
             (List.length flows <= years)%nat ->
             markAbsent (irrAt n flows (fieldOrZero (@yp_equity num) data z) ti)
                        (fieldOrZero (@cumulativeCashFlow num) data z)
                        (fieldOrZero (@netWorth num) data z)
                        (roiAt data m ti)).
  { intros n m z flows Hn -> -> Hflows. unfold markAbsent.
    split; [apply irrAt_beyond; lia|].
    split; [apply fieldOrZero_beyond; lia|].
    split; [apply fieldOrZero_beyond; lia|apply roiAt_beyond; lia]. }
  assert (Hreached : forall (n m : nat) (z : Z) (flows : list num),
             (0 < n <= years)%nat -> m = (n - 1)%nat -> z = Z.of_nat m ->
             flows = map (@netCashFlow num) (firstn n data)
             \/ flows = map (@netCashFlow num) data ->
             markComputed ti data flows n
               (irrAt n flows (fieldOrZero (@yp_equity num) data z) ti)
               (fieldOrZero (@cumulativeCashFlow num) data z)
               (fieldOrZero (@netWorth num) data z)
               (roiAt data m ti)).
  { intros n m z flows Hn -> -> Hflows.
    destruct (Hrec n Hn) as (d & Hd & Hfirst & Hall & Hflen).
    apply (@mark_reached ti data flows n d); try assumption; try lia.
    - destruct Hflows as [-> | ->]; [lia|rewrite length_map; lia].
    - destruct Hflows as [-> | ->]; assumption. }
  assert (Hfirstn : forall n : nat,
             (List.length (map (@netCashFlow num) (firstn n data)) <= years)%nat).
  { intros n. rewrite length_map, length_firstn. lia. }
  assert (Hwhole : (List.length (map (@netCashFlow num) data) <= years)%nat).
  { rewrite length_map. lia. }
  split; [exact Hlen|].
  split; [intros Hy; apply (Habsent 10%nat 9%nat 9%Z); auto|].
  split; [intros Hy; apply (Hreached 10%nat 9%nat 9%Z); auto; lia|].
  split; [intros Hy; apply (Habsent 20%nat 19%nat 19%Z); auto|].
  split; [intros Hy; apply (Hreached 20%nat 19%nat 19%Z); auto; lia|].
  split; [intros Hy; apply (Habsent 40%nat 39%nat 39%Z); auto|].
  intros Hy. apply (Hreached 40%nat 39%nat 39%Z); auto. lia.
Qed.
End MarksOfTheSummary.

Lemma projection_has_horizon_many_records_at_10 :
  let result := calculateProjections hostNov2026 (defaultInputs (num := float)) 10 in
  let s := summary result in
  let data := yearlyData result in
  List.length data = 10%nat
  /\ markComputed (equity defaultInputs) data (map (@netCashFlow float) (firstn 10 data)) 10
       (irr10Year s) (totalCashFlow10Year s) (netWorth10Year s) (roiAtYear10 s)
  /\ markAbsent (irr20Year s) (totalCashFlow20Year s) (netWorth20Year s) (roiAtYear20 s)
  /\ markAbsent (irr40Year s) (totalCashFlow40Year s) (netWorth40Year s) (roiAtYear40 s).
Proof.
  intros result s data.
  destruct (@projection_has_horizon_many_records float _ hostNov2026 defaultInputs 10)
    as (Hlen & _ & H10 & H20 & _ & H40 & _).
  split; [exact Hlen|].
  split; [apply H10; lia|].
  split; [apply H20; lia|apply H40; lia].
Defined.

(** ** C8: what the clock changes, and what it does not *)

Section ClockIndependence.
Context {num : Type} `{JSNumber num}.
Local Open Scope js_scope.

Lemma summary_summarize h inputs years :
  summary (calculateProjections h inputs years)
  = summarize (equity inputs) (yearlyData (calculateProjections h inputs years)).
Proof. reflexivity. Qed.

Lemma fieldOrZero_withoutDate (field : YearlyProjection num -> num) l i :
  (forall d, field (withoutDate d) = field d) ->
  fieldOrZero field (map withoutDate l) i = fieldOrZero field l i.
Proof.
  intros Hf. unfold fieldOrZero.
  destruct (i <? 0)%Z; [reflexivity|].
  rewrite nth_error_map.
  destruct (nth_error l (Z.to_nat i)); simpl; [now rewrite Hf|reflexivity].
Qed.

Lemma roiAt_withoutDate l i ti :
  roiAt (map withoutDate l) i ti = roiAt l i ti.
Proof.
  unfold roiAt. rewrite nth_error_map.
  destruct (nth_error l i); reflexivity.
Qed.

Lemma cashFlows_withoutDate n l :
  map (@netCashFlow num) (firstn n (map withoutDate l))
  = map (@netCashFlow num) (firstn n l).
Proof.
  rewrite firstn_map, map_map. reflexivity.
Qed.

Lemma summarize_withoutDate ti l :
  summarize ti (map withoutDate l) = summarize ti l.
Proof.
  unfold summarize.
  rewrite !cashFlows_withoutDate, !roiAt_withoutDate, length_map, map_map.
  rewrite !fieldOrZero_withoutDate by reflexivity.
  reflexivity.
Qed.

Lemma recordsFrom_withoutDate h1 h2 inputs n :
  forall year cf ts,
    map withoutDate (recordsFrom h1 inputs n year cf ts)
    = map withoutDate (recordsFrom h2 inputs n year cf ts).
Proof.
  induction n as [|n IH]; intros year cf ts; simpl; [reflexivity|].
  f_equal. apply IH.
Qed.

Lemma recordsFrom_dates h inputs n :
  forall year cf ts,
    map (@date num) (recordsFrom h inputs n year cf ts)
    = map (fun k =>
             Calendar.isoDateOfFirst h
               (fst (Calendar.firstOfMonth (today_getFullYear h) (today_getMonth h + 1))
                + Z.of_nat k)
               (snd (Calendar.firstOfMonth (today_getFullYear h) (today_getMonth h + 1))))
          (seq year n).
Proof.
  induction n as [|n IH]; intros year cf ts; simpl; [reflexivity|].
  f_equal. apply IH.
Qed.
End ClockIndependence.

(** The same inputs projected at two clock readings, a month apart: the
    date strings of the records differ, so the results do. *)
Lemma projection_depends_on_clock :
  calculateProjections hostNov2026 (defaultInputs (num := float)) 10
  <> calculateProjections hostDec2026 (defaultInputs (num := float)) 10
  /\ map (@date float) (yearlyData (calculateProjections hostNov2026 defaultInputs 10))
     <> map (@date float) (yearlyData (calculateProjections hostDec2026 defaultInputs 10)).
Proof.
  assert (Hdates :
    map (@date float) (yearlyData (calculateProjections hostNov2026 defaultInputs 10))
    <> map (@date float) (yearlyData (calculateProjections hostDec2026 defaultInputs 10))).
  { rewrite !yearlyData_records, !recordsFrom_dates.
    vm_compute. discriminate. }
  split; [|exact Hdates].
  intros Heq. apply Hdates. now rewrite Heq.
Qed.

(** C8, as the code has it.  [calculateProjections] reads the clock, from
    which the date strings of the records are derived.  Nothing else depends
    on it: for any two clock readings the summary and every field of every
    record other than the date string are identical. *)
Theorem projection_reads_clock_for_dates_only :
  forall (num : Type) (N : JSNumber num) (h1 h2 : Host)
         (inputs : PropertyInputs num) (years : nat),
    summary (calculateProjections h1 inputs years)
    = summary (calculateProjections h2 inputs years)
    /\ map withoutDate (yearlyData (calculateProjections h1 inputs years))
       = map withoutDate (yearlyData (calculateProjections h2 inputs years)).
Proof.
  intros num N h1 h2 inputs years.
  pose proof (recordsFrom_withoutDate h1 h2 inputs years 0 (int 0) (int 0)) as Hwd.
  rewrite <- !yearlyData_records in Hwd.
  split.
  - rewrite !summary_summarize.
    rewrite <- (summarize_withoutDate _ (yearlyData (calculateProjections h1 inputs years))).
    rewrite <- (summarize_withoutDate _ (yearlyData (calculateProjections h2 inputs years))).
    now rewrite Hwd.
  - exact Hwd.
Qed.

(** ** C2: what [calculateIRR] returns when the iteration does not settle *)

Section IRRSolver.
Context {num : Type} `{JSNumber num}.
Local Open Scope js_scope.

Lemma irrLoop_exhausted flows n :
  forall rate,
    neverSettles flows n rate = true ->
    irrLoop flows n rate = Exhausted (newtonIter flows n rate).
Proof.
  induction n as [|n IH]; intros rate Hn; simpl in *; [reflexivity|].
  apply andb_true_iff in Hn. destruct Hn as [Hstep Hrest].
  unfold stepSettles in Hstep.
  destruct (Math_abs (newtonStep flows rate - rate) <? lit 1 4); [discriminate|].
  now apply IH.
Qed.
End IRRSolver.

Lemma cyclingCashFlows_two_cycle :
  newtonStep (- (105000 : Q) :: cyclingCashFlows) (1 # 10) == - (1 # 10)
  /\ newtonStep (- (105000 : Q) :: cyclingCashFlows) (- (1 # 10)) == 1 # 10.
Proof. split; vm_compute; reflexivity. Qed.

(** On binary64 the run on this series uses up its 100 iterations and
    [calculateIRR] hands back an ordinary finite number, about 10 (percent),
    although the net present value at that rate is above 5000. *)
Lemma irr_exhausted_returns_plain_number :
  exists rate : float,
    irrRun cyclingCashFlows (int 105000) = Exhausted rate
    /\ calculateIRR cyclingCashFlows (int 105000) = (rate * 100)%float
    /\ (9.99 <? rate * 100)%float = true
    /\ (rate * 100 <? 10.01)%float = true
    /\ (5000 <? fst (npvLoop rate (- (int 105000) :: cyclingCashFlows)%js 0 0 0))%float = true.
Proof.
  eexists. split; [vm_compute; reflexivity|].
  repeat split; vm_compute; reflexivity.
Qed.

(** C2, as the code has it.  When none of the 100 Newton-Raphson steps from 0.1 is
    shorter than 0.0001, [calculateIRR] falls out of its loop and returns the
    last estimate times 100: a plain number, through the same return type as
    a converged rate, with no flag, sentinel or exception. *)
Theorem irr_without_convergence_returns_last_estimate :
  forall (num : Type) (N : JSNumber num) (cashFlows : list num) (initialInvestment : num),
    neverSettles (opp initialInvestment :: cashFlows) 100 (lit 1 1) = true ->
    irrRun cashFlows initialInvestment
    = Exhausted (newtonIter (opp initialInvestment :: cashFlows) 100 (lit 1 1))
    /\ calculateIRR cashFlows initialInvestment
       = mul (newtonIter (opp initialInvestment :: cashFlows) 100 (lit 1 1)) (int 100).
Proof.
  intros num N cashFlows initialInvestment Hnever.
  unfold calculateIRR, irrRun.
  rewrite (irrLoop_exhausted _ _ _ Hnever).
  split; reflexivity.
Qed.

Lemma irr_without_convergence_on_cycle :
  irrRun (num := float) cyclingCashFlows (int 105000)
  = Exhausted (newtonIter (opp (int 105000) :: cyclingCashFlows) 100 (lit 1 1))
  /\ calculateIRR (num := float) cyclingCashFlows (int 105000)
     = mul (newtonIter (opp (int 105000) :: cyclingCashFlows) 100 (lit 1 1)) (int 100).
Proof.
  apply (@irr_without_convergence_returns_last_estimate float _
           cyclingCashFlows (int 105000)).
  vm_compute. reflexivity.
Defined.

(** ** C6: the zone boundaries of the tax formula *)

(** At 17005 the two polynomials differ by 0.00066 and at 66760 the
    polynomial and the linear zone differ by 0.05: far more than rounding. *)
Lemma tax_zones_do_not_meet_to_float_precision :
  (Math_abs (taxZoneA 17005 - taxZoneB 17005) <=? 0.000000001)%float = false
  /\ (0.0006 <? taxZoneA 17005 - taxZoneB 17005)%float = true
  /\ (Math_abs (taxZoneB 66760 - taxZoneC 66760) <=? 0.000000001)%float = false
  /\ (0.05 <? taxZoneB 66760 - taxZoneC 66760)%float = true
  /\ ~ (taxZoneA (17005 : Q) == taxZoneB 17005)
  /\ ~ (taxZoneB (66760 : Q) == taxZoneC 66760).
Proof.
  repeat split; try (vm_compute; reflexivity); vm_compute; discriminate.
Qed.

(** C6, as the code has it.  [tax(11604) = 0] exactly.  At 17005 the zone-A
    polynomial exceeds the zone-B polynomial by exactly 0.0006590698 (below
    0.001), and at 66760 the zone-B polynomial exceeds the linear zone by
    exactly 0.0507092975 (below 0.06): the formula is continuous only up to
    these sub-cent and five-cent steps, on binary64 as in exact arithmetic. *)
Theorem tax_zone_boundaries :
  incomeTaxFormula (int 11604 : float) = int 0
  /\ incomeTaxFormula (int 11604 : Q) = int 0
  /\ taxZoneA (17005 : Q) - taxZoneB 17005 == 6590698 # 10000000000
  /\ taxZoneB (66760 : Q) - taxZoneC 66760 == 507092975 # 10000000000
  /\ (0.0006 <? taxZoneA 17005 - taxZoneB 17005)%float = true
  /\ (taxZoneA 17005 - taxZoneB 17005 <? 0.001)%float = true
  /\ (0.05 <? taxZoneB 66760 - taxZoneC 66760)%float = true
  /\ (taxZoneB 66760 - taxZoneC 66760 <? 0.06)%float = true
  /\ incomeTaxFormula (int 17005 : float) = taxZoneA (int 17005)
  /\ incomeTaxFormula (int 66760 : float) = taxZoneB (int 66760).
Proof.
  repeat split; vm_compute; reflexivity.
Qed.

(** ** C7: the tax outputs are never negative *)

Open Scope Q_scope.

Lemma incomeTaxFormula_nonneg (x : Q) : 0 <= incomeTaxFormula x.
Proof.
  unfold incomeTaxFormula, taxZoneA, taxZoneB, taxZoneC, taxZoneTop.
  q_unfold. repeat q_case; q_consts; cbn zeta; try lra; nra.
Qed.

(** C7.  For every taxable income, negative ones included, either marital
    status and either church-tax flag, [incomeTax], [solidarityTax],
    [churchTax] and [totalTax] are all at least 0 (exact arithmetic). *)
Theorem tax_outputs_nonneg :
  forall (taxableIncome : Q) (status : MaritalStatus) (church : bool),
    let r := calculateGermanTax taxableIncome status church in
    0 <= incomeTax r /\ 0 <= solidarityTax r /\ 0 <= churchTax r /\ 0 <= totalTax r.
Proof.
  intros taxableIncome status church.
  unfold calculateGermanTax. cbv zeta.
  cbn [incomeTax solidarityTax churchTax totalTax].
  destruct status;
    match goal with
    | |- context [incomeTaxFormula ?x] =>
        pose proof (incomeTaxFormula_nonneg x) as Hf;
        set (f := incomeTaxFormula x) in *; clearbody f
    end;
    destruct church; q_unfold; repeat q_case; q_consts; cbn [negb];
    repeat split; lra.
Qed.

(** ** C5 and C10: the loan figures of a year, in exact arithmetic and on binary64 *)

Section LoanAmortizer.
Variable inputs : PropertyInputs Q.

Hypothesis loan_pos : 0 < loanAmountOf inputs.
Hypothesis interest_pos : 0 < interestRate inputs.
Hypothesis repayment_pos : 0 < repaymentRate inputs.

Lemma monthlyRateOf_pos : 0 < monthlyRateOf inputs.
Proof. unfold monthlyRateOf. q_consts. lra. Qed.

Lemma growthOf_gt_1 : 1 < growthOf inputs.
Proof. pose proof monthlyRateOf_pos. unfold growthOf, inject_Z. lra. Qed.

Lemma annuityDenominator_bounds : 0 < annuityDenominator inputs /\ annuityDenominator inputs < 1.
Proof.
  pose proof growthOf_gt_1 as Hu.
  assert (H360 : 1 < growthOf inputs ^ (30 * 12)) by (apply Qpower_1_lt; [exact Hu|reflexivity]).
  assert (Hinv : 0 < growthOf inputs ^ (- (30 * 12)) /\ growthOf inputs ^ (- (30 * 12)) < 1).
  { rewrite Qpower_opp. split.
    - apply Qinv_lt_0_compat. lra.
    - apply Qlt_shift_inv_r; lra. }
  unfold annuityDenominator, inject_Z. lra.
Qed.

(** The balance formula with the payment's [monthlyRate] cancelled. *)
Lemma rawOutstandingLoan_formula (y : nat) :
  (1 <= y < 30)%nat ->
  rawOutstandingLoan inputs y
  == loanAmountOf inputs * growthOf inputs ^ (Z.of_nat y * 12)
     - loanAmountOf inputs / annuityDenominator inputs * (growthOf inputs ^ (Z.of_nat y * 12) - 1).
Proof.
  intros Hy. destruct y as [|y]; [lia|].
  unfold rawOutstandingLoan.
  destruct (Z.ltb_spec (Z.of_nat (S y) * 12) (30 * 12)) as [_|Hge]; [|lia].
  q_unfold. fold (monthlyRateOf inputs). fold (growthOf inputs). fold (annuityDenominator inputs).
  pose proof monthlyRateOf_pos. pose proof annuityDenominator_bounds as [? ?].
  unfold inject_Z at 1. 
  field. split; intro E; rewrite E in *; lra.
Qed.

Lemma loan_le_quotient :
  loanAmountOf inputs < loanAmountOf inputs / annuityDenominator inputs.
Proof.
  pose proof annuityDenominator_bounds as [HD0 HD1].
  apply Qlt_shift_div_l; [exact HD0|]. nra.
Qed.

Lemma growth_power_lt (y1 y2 : nat) :
  (y1 < y2)%nat ->
  growthOf inputs ^ (Z.of_nat y1 * 12) < growthOf inputs ^ (Z.of_nat y2 * 12).
Proof.
  intros Hy. apply Qpower_lt_compat_l; [lia|apply growthOf_gt_1].
Qed.

Lemma growth_power_ge_1 (y : nat) : 1 <= growthOf inputs ^ (Z.of_nat y * 12).
Proof.
  apply Qpower_1_le; [|lia]. pose proof growthOf_gt_1. lra.
Qed.

(** Below 30 years the raw balance is positive ... *)
Lemma rawOutstandingLoan_pos (y : nat) :
  (y < 30)%nat -> 0 < rawOutstandingLoan inputs y.
Proof.
  intros Hy. destruct (Nat.eq_dec y 0) as [->|Hy0]; [exact loan_pos|].
  rewrite rawOutstandingLoan_formula by lia.
  pose proof annuityDenominator_bounds as [HD0 HD1].
  pose proof loan_le_quotient as Hq.
  set (P := growthOf inputs ^ (Z.of_nat y * 12)).
  assert (HPv : P * (1 - annuityDenominator inputs) < 1).
  { unfold annuityDenominator, P.
    setoid_replace (1 - (inject_Z 1 - growthOf inputs ^ (- (30 * 12))))
      with (growthOf inputs ^ (- (30 * 12))) by (unfold inject_Z; ring).
    rewrite <- Qpower_plus
      by (intro E; pose proof growthOf_gt_1 as Hu; rewrite E in Hu; discriminate Hu).
    replace (Z.of_nat y * 12 + - (30 * 12))%Z with (- (360 - Z.of_nat y * 12))%Z by lia.
    rewrite Qpower_opp.
    apply Qlt_shift_inv_r.
    - apply Qpower_0_lt. pose proof growthOf_gt_1. lra.
    - rewrite Qmult_1_l. apply Qpower_1_lt; [apply growthOf_gt_1|lia]. }
  setoid_replace (loanAmountOf inputs * P - loanAmountOf inputs / annuityDenominator inputs * (P - 1))
    with (loanAmountOf inputs / annuityDenominator inputs * (1 - P * (1 - annuityDenominator inputs)))
    by (field; intro E; rewrite E in HD0; discriminate HD0).
  apply Qmult_lt_0_compat; [|lra].
  pose proof loan_pos. lra.
Qed.

(** ... and strictly decreasing. *)
Lemma rawOutstandingLoan_decreasing (y1 y2 : nat) :
  (y1 < y2 < 30)%nat ->
  rawOutstandingLoan inputs y2 < rawOutstandingLoan inputs y1.
Proof.
  intros Hy.
  pose proof loan_le_quotient as Hq.
  set (q := loanAmountOf inputs / annuityDenominator inputs) in *.
  rewrite (rawOutstandingLoan_formula (y := y2)) by lia. fold q.
  pose proof (growth_power_ge_1 y2) as HP2.
  destruct (Nat.eq_dec y1 0) as [->|Hy0].
  - change (rawOutstandingLoan inputs 0) with (loanAmountOf inputs).
    pose proof (growth_power_lt (y1 := 0) (y2 := y2) ltac:(lia)) as HP.
    change (growthOf inputs ^ (Z.of_nat 0 * 12)) with 1 in HP.
    nra.
  - rewrite (rawOutstandingLoan_formula (y := y1)) by lia. fold q.
    pose proof (growth_power_lt (y1 := y1) (y2 := y2) ltac:(lia)) as HP.
    nra.
Qed.

Lemma outstandingLoanAt_raw (y : nat) :
  (y < 30)%nat -> outstandingLoanAt inputs y = rawOutstandingLoan inputs y.
Proof.
  intros Hy. pose proof (rawOutstandingLoan_pos Hy) as Hpos.
  unfold outstandingLoanAt. q_unfold.
  destruct (Qle_bool (inject_Z 0) (rawOutstandingLoan inputs y)) eqn:E; [reflexivity|].
  apply not_true_iff_false in E. rewrite Qle_bool_iff in E.
  exfalso. apply E. unfold inject_Z. lra.
Qed.

Lemma outstandingLoanAt_paid_off (y : nat) :
  (30 <= y)%nat -> outstandingLoanAt inputs y = 0.
Proof.
  intros Hy. unfold outstandingLoanAt, rawOutstandingLoan.
  destruct y as [|y]; [lia|].
  destruct (Z.ltb_spec (Z.of_nat (S y) * 12) (30 * 12)) as [Hlt|_]; [lia|].
  reflexivity.
Qed.

Lemma outstandingLoanAt_nonincreasing (y1 y2 : nat) :
  (y1 <= y2)%nat -> outstandingLoanAt inputs y2 <= outstandingLoanAt inputs y1.
Proof.
  intros Hy.
  destruct (Nat.eq_dec y1 y2) as [->|Hne]; [apply Qle_refl|].
  destruct (Nat.lt_ge_cases y2 30) as [H2|H2].
  - rewrite !outstandingLoanAt_raw by lia.
    apply Qlt_le_weak, rawOutstandingLoan_decreasing. lia.
  - rewrite (outstandingLoanAt_paid_off H2).
    destruct (Nat.lt_ge_cases y1 30) as [H1|H1].
    + rewrite outstandingLoanAt_raw by lia.
      apply Qlt_le_weak, rawOutstandingLoan_pos. lia.
    + rewrite (outstandingLoanAt_paid_off H1). apply Qle_refl.
Qed.
End LoanAmortizer.

(** The loan fields of a record are those of the loop body at its index. *)
Lemma yearRecord_loan_fields {num : Type} `{JSNumber num} h (inputs : PropertyInputs num)
    (k : nat) (cf ts : num) :
  let d := yearRecord h inputs k cf ts in
  let annualRate := div (interestRate inputs) (int 100) in
  let annualPaymentRate := add annualRate (div (repaymentRate inputs) (int 100)) in
  outstandingLoan d = outstandingLoanAt inputs k
  /\ annualLoanPayment d
     = (if ltb (int 0) (outstandingLoan d)
        then mul (outstandingLoan d) annualPaymentRate else int 0)
  /\ interestPaid d = mul (outstandingLoan d) annualRate
  /\ principalRepaid d = sub (annualLoanPayment d) (interestPaid d).
Proof. repeat split. Qed.

(** In exact arithmetic: the balance of a valid loan never increases, is 0
    from year 30 on, and a zero balance gives zero payment, interest and
    principal. *)
Lemma loan_balance_exact :
  forall (h : Host) (inputs : PropertyInputs Q) (years : nat),
    0 < loanAmountOf inputs ->
    0 < interestRate inputs ->
    0 < repaymentRate inputs ->
    let data := yearlyData (calculateProjections h inputs years) in
    (forall y1 y2 d1 d2,
        (y1 <= y2)%nat ->
        nth_error data y1 = Some d1 ->
        nth_error data y2 = Some d2 ->
        outstandingLoan d2 <= outstandingLoan d1)
    /\ (forall y d,
           (30 <= y)%nat -> nth_error data y = Some d -> outstandingLoan d = 0)
    /\ (forall y d,
           nth_error data y = Some d ->
           outstandingLoan d == 0 ->
           annualLoanPayment d == 0 /\ interestPaid d == 0 /\ principalRepaid d == 0).
Proof.
  intros h inputs years HL Hi Hp data.
  split; [|split].
  - intros y1 y2 d1 d2 Hy H1 H2.
    apply yearlyData_nth in H1. destruct H1 as (cf1 & ts1 & ->).
    apply yearlyData_nth in H2. destruct H2 as (cf2 & ts2 & ->).
    change (outstandingLoanAt inputs y2 <= outstandingLoanAt inputs y1).
    now apply outstandingLoanAt_nonincreasing.
  - intros y d Hy Hd.
    apply yearlyData_nth in Hd. destruct Hd as (cf & ts & ->).
    change (outstandingLoanAt inputs y = 0).
    now apply outstandingLoanAt_paid_off.
  - intros y d Hd H0.
    apply yearlyData_nth in Hd. destruct Hd as (cf & ts & ->).
    destruct (yearRecord_loan_fields h inputs y cf ts) as (HB & Hpay & Hint & Hprin).
    rewrite Hprin, Hint, Hpay.
    set (B := outstandingLoan (yearRecord h inputs y cf ts)) in *.
    clearbody B. q_unfold.
    destruct (Qle_bool B (inject_Z 0)) eqn:E.
    + cbn [negb]. q_consts. rewrite H0. repeat split; ring.
    + apply not_true_iff_false in E. rewrite Qle_bool_iff in E.
      exfalso. apply E. rewrite H0. apply Qle_refl.
Qed.

(** In exact arithmetic: the loan split of a year with positive balance, and
    the fall of the reported payment. *)
Lemma reported_payment_exact :
  forall (h : Host) (inputs : PropertyInputs Q) (years : nat),
    let data := yearlyData (calculateProjections h inputs years) in
    (forall y d,
        nth_error data y = Some d ->
        0 < outstandingLoan d ->
        annualLoanPayment d
        == outstandingLoan d * (interestRate inputs + repaymentRate inputs) / 100
        /\ interestPaid d == outstandingLoan d * interestRate inputs / 100
        /\ principalRepaid d == outstandingLoan d * repaymentRate inputs / 100)
    /\ (0 < loanAmountOf inputs ->
        0 < interestRate inputs ->
        0 < repaymentRate inputs ->
        forall y d d',
          (y < 30)%nat ->
          nth_error data y = Some d ->
          nth_error data (S y) = Some d' ->
          annualLoanPayment d' < annualLoanPayment d).
Proof.
  intros h inputs years data. split.
  - intros y d Hd HB.
    apply yearlyData_nth in Hd. destruct Hd as (cf & ts & ->).
    destruct (yearRecord_loan_fields h inputs y cf ts) as (_ & Hpay & Hint & Hprin).
    rewrite Hprin, Hint, Hpay.
    set (B := outstandingLoan (yearRecord h inputs y cf ts)) in *.
    clearbody B. q_unfold.
    destruct (Qle_bool B (inject_Z 0)) eqn:E.
    + apply Qle_bool_iff in E. unfold inject_Z in E. lra.
    + cbn [negb]. unfold inject_Z. repeat split; field.
  - intros HL Hi Hp y d d' Hy Hd Hd'.
    apply yearlyData_nth in Hd. destruct Hd as (cf & ts & ->).
    apply yearlyData_nth in Hd'. destruct Hd' as (cf' & ts' & ->).
    destruct (yearRecord_loan_fields h inputs y cf ts) as (HB & Hpay & _).
    destruct (yearRecord_loan_fields h inputs (S y) cf' ts') as (HB' & Hpay' & _).
    rewrite Hpay, Hpay', HB, HB'.
    pose proof (rawOutstandingLoan_pos HL Hi Hp Hy) as Hpos.
    rewrite (outstandingLoanAt_raw HL Hi Hp Hy).
    assert (Hnext : 0 <= outstandingLoanAt inputs (S y)
                    /\ outstandingLoanAt inputs (S y) < rawOutstandingLoan inputs y).
    { destruct (Nat.lt_ge_cases (S y) 30) as [Hlt|Hge].
      - rewrite (outstandingLoanAt_raw HL Hi Hp Hlt). split.
        + apply Qlt_le_weak. now apply rawOutstandingLoan_pos.
        + apply rawOutstandingLoan_decreasing; try assumption. lia.
      - rewrite (outstandingLoanAt_paid_off inputs Hge). split; [apply Qle_refl|exact Hpos]. }
    destruct Hnext as [Hn0 Hnlt].
    set (B := rawOutstandingLoan inputs y) in *.
    set (B' := outstandingLoanAt inputs (S y)) in *.
    clearbody B B'. q_unfold.
    assert (Hrate : 0 < interestRate inputs / inject_Z 100
                        + repaymentRate inputs / inject_Z 100)
      by (q_consts; lra).
    set (a := interestRate inputs / inject_Z 100 + repaymentRate inputs / inject_Z 100) in *.
    clearbody a.
    destruct (Qle_bool B (inject_Z 0)) eqn:E.
    { apply Qle_bool_iff in E. unfold inject_Z in E. lra. }
    destruct (Qle_bool B' (inject_Z 0)) eqn:E'; cbn [negb]; unfold inject_Z; nra.
Qed.

(** [0 * a] is [+0] for a positive finite [a]. *)
Lemma float_zero_times_positive (a : float) :
  PrimFloat.ltb 0%float a = true ->
  PrimFloat.ltb a infinity = true ->
  PrimFloat.mul 0%float a = 0%float.
Proof.
  intros Hpos Hfin. apply Prim2SF_inj.
  rewrite mul_spec. rewrite ltb_spec in Hpos, Hfin. unfold SF64mul.
  change (Prim2SF 0%float) with (S754_zero false) in *.
  change (Prim2SF infinity) with (S754_infinity false) in *.
  destruct (Prim2SF a) as [s|s| |s m e].
  - discriminate Hpos.
  - destruct s; [discriminate Hpos|discriminate Hfin].
  - discriminate Hpos.
  - destruct s; [discriminate Hpos|reflexivity].
Qed.

(** On binary64: the balance is [+0] from year 30 on, and a zero balance
    gives a zero payment and, at a positive finite annual rate, zero
    interest and principal. *)
Lemma yearRecord_zero_balance_on_binary64 h (inputs : PropertyInputs float)
    (k : nat) (cf ts : float) :
  let d := yearRecord h inputs k cf ts in
  let annualRate : float := div (interestRate inputs) (int 100) in
  ((30 <= k)%nat -> outstandingLoan d = 0%float)
  /\ (outstandingLoan d = 0%float ->
      annualLoanPayment d = 0%float
      /\ (ltb (int 0) annualRate = true ->
          ltb annualRate infinity = true ->
          interestPaid d = 0%float /\ principalRepaid d = 0%float)).
Proof.
  intros d annualRate.
  destruct (yearRecord_loan_fields h inputs k cf ts) as (HB & Hpay & Hint & Hprin).
  fold d in HB, Hpay, Hint, Hprin.
  split.
  - intros Hk. rewrite HB. unfold outstandingLoanAt, rawOutstandingLoan.
    destruct k as [|k]; [lia|].
    destruct (Z.ltb_spec (Z.of_nat (S k) * 12) (30 * 12)) as [Hlt|_]; [lia|].
    reflexivity.
  - intros H0.
    assert (Hp0 : annualLoanPayment d = 0%float) by (rewrite Hpay, H0; reflexivity).
    split; [exact Hp0|].
    intros Hpos Hfin.
    assert (Hi0 : interestPaid d = 0%float).
    { rewrite Hint, H0. fold annualRate. now apply float_zero_times_positive. }
    split; [exact Hi0|].
    rewrite Hprin, Hp0, Hi0. reflexivity.
Qed.

(** On binary64 the balance of a valid loan can rise: at 600% interest and
    repayment the balance of year 3 exceeds that of year 2 by one, through
    rounding of [loanAmount * (2^36 - 1)]; and at rates of [1e-18] percent
    the balance of year 1 is NaN ([1 - 1^-360 = 0] divides). *)
Lemma loan_balance_rises_on_binary64 :
  ltb (int 0) (loanAmountOf steepLoanInputs) = true
  /\ ltb (int 0) (interestRate steepLoanInputs) = true
  /\ ltb (int 0) (repaymentRate steepLoanInputs) = true
  /\ map (@outstandingLoan float)
       (yearlyData (calculateProjections hostNov2026 steepLoanInputs 4))
     = [225175; 225175; 225175; 225176]%float
  /\ ltb (outstandingLoanAt steepLoanInputs 2) (outstandingLoanAt steepLoanInputs 3) = true
  /\ ltb (int 0) (loanAmountOf tinyRateInputs) = true
  /\ ltb (int 0) (interestRate tinyRateInputs) = true
  /\ ltb (int 0) (repaymentRate tinyRateInputs) = true
  /\ outstandingLoanAt tinyRateInputs 1 = nan.
Proof. repeat split; vm_compute; reflexivity. Qed.

(** C5, as the code has it.  In exact arithmetic, for a valid loan (positive
    principal, positive interest and repayment rates) the outstanding
    balance never increases from one year to a later one, is exactly 0 from
    elapsed year 30 (month 360) on, and in any year whose balance is 0 the
    annual payment, the interest and the principal are all 0.  On binary64,
    for every input, the balance is exactly 0 from year 30 on, a zero
    balance gives a zero annual payment, and at a positive finite annual
    rate zero interest and principal as well; that the balance never
    increases is not claimed there. *)
Theorem loan_balance_runs_down_to_zero :
  (forall (h : Host) (inputs : PropertyInputs Q) (years : nat),
      0 < loanAmountOf inputs ->
      0 < interestRate inputs ->
      0 < repaymentRate inputs ->
      let data := yearlyData (calculateProjections h inputs years) in
      (forall y1 y2 d1 d2,
          (y1 <= y2)%nat ->
          nth_error data y1 = Some d1 ->
          nth_error data y2 = Some d2 ->
          outstandingLoan d2 <= outstandingLoan d1)
      /\ (forall y d,
             (30 <= y)%nat -> nth_error data y = Some d -> outstandingLoan d = 0)
      /\ (forall y d,
             nth_error data y = Some d ->
             outstandingLoan d == 0 ->
             annualLoanPayment d == 0 /\ interestPaid d == 0 /\ principalRepaid d == 0))
  /\ (forall (h : Host) (inputs : PropertyInputs float) (years y : nat)
             (d : YearlyProjection float),
         nth_error (yearlyData (calculateProjections h inputs years)) y = Some d ->
         let annualRate : float := div (interestRate inputs) (int 100) in
         ((30 <= y)%nat -> outstandingLoan d = 0%float)
         /\ (outstandingLoan d = 0%float ->
             annualLoanPayment d = 0%float
             /\ (ltb (int 0) annualRate = true ->
                 ltb annualRate infinity = true ->
                 interestPaid d = 0%float /\ principalRepaid d = 0%float))).
Proof.
  split.
  - exact loan_balance_exact.
  - intros h inputs years y d Hd.
    apply yearlyData_nth in Hd. destruct Hd as (cf & ts & ->).
    apply yearRecord_zero_balance_on_binary64.
Qed.

Lemma loan_balance_runs_down_to_zero_default :
  (let data := yearlyData (calculateProjections hostNov2026 (defaultInputs (num := Q)) 40) in
   (forall y1 y2 d1 d2,
       (y1 <= y2)%nat ->
       nth_error data y1 = Some d1 ->
       nth_error data y2 = Some d2 ->
       outstandingLoan d2 <= outstandingLoan d1)
   /\ (forall y d,
          (30 <= y)%nat -> nth_error data y = Some d -> outstandingLoan d = 0)
   /\ (forall y d,
          nth_error data y = Some d ->
          outstandingLoan d == 0 ->
          annualLoanPayment d == 0 /\ interestPaid d == 0 /\ principalRepaid d == 0))
  /\ (let data := yearlyData (calculateProjections hostNov2026
                               (defaultInputs (num := float)) 40) in
      let d := nth 35 data (yearRecord hostNov2026 defaultInputs 0 (int 0) (int 0)) in
      outstandingLoan d = 0%float
      /\ annualLoanPayment d = 0%float
      /\ interestPaid d = 0%float
      /\ principalRepaid d = 0%float).
Proof.
  split.
  - apply (proj1 loan_balance_runs_down_to_zero hostNov2026 defaultInputs 40%nat);
      vm_compute; reflexivity.
  - intros data d.
    destruct (proj2 loan_balance_runs_down_to_zero hostNov2026 defaultInputs 40%nat 35%nat d)
      as [Hpaid Hzero].
    + vm_compute. reflexivity.
    + assert (H0 : outstandingLoan d = 0%float) by (apply Hpaid; lia).
      destruct (Hzero H0) as [Hpay Hrest].
      destruct Hrest as [Hint Hprin]; [vm_compute; reflexivity|vm_compute; reflexivity|].
      repeat split; assumption.
Defined.

(** On binary64 the default inputs give a first-year payment of
    14430.814999999999 where [B * (interestRate + repaymentRate) / 100] is
    14430.815000000001, and a principal of 3922.9399999999987 where
    [B * repaymentRate / 100] is 3922.94: the identities of exact
    arithmetic hold up to rounding only. *)
Lemma reported_payment_rounds_on_binary64 :
  let d := yearRecord hostNov2026 (defaultInputs (num := float)) 0 (int 0) (int 0) in
  let B := outstandingLoan d in
  nth_error (yearlyData (calculateProjections hostNov2026 defaultInputs 1)) 0 = Some d
  /\ B = 280210%float
  /\ annualLoanPayment d = 14430.814999999999%float
  /\ div (mul B (add (interestRate defaultInputs) (repaymentRate defaultInputs))) (int 100)
     = 14430.815000000001%float
  /\ principalRepaid d = 3922.9399999999987%float
  /\ div (mul B (repaymentRate defaultInputs)) (int 100) = 3922.94%float
  /\ PrimFloat.eqb (annualLoanPayment d)
       (div (mul B (add (interestRate defaultInputs) (repaymentRate defaultInputs)))
            (int 100)) = false
  /\ PrimFloat.eqb (principalRepaid d)
       (div (mul B (repaymentRate defaultInputs)) (int 100)) = false.
Proof. repeat split; vm_compute; reflexivity. Qed.

(** C10, as the code has it.  In every projected year whose start-of-year
    balance [B] is positive the record holds, on every number
    implementation and so bit for bit on binary64, the payment
    [B * (interestRate / 100 + repaymentRate / 100)], the interest
    [B * (interestRate / 100)] and the principal [payment - interest].  In
    exact arithmetic these are [B * (interestRate + repaymentRate) / 100],
    [B * interestRate / 100] and [B * repaymentRate / 100], and for a valid
    loan the reported payment falls from each year to the next until the
    loan is paid off, instead of staying at the annuity payment. *)
Theorem reported_payment_is_rate_times_balance :
  (forall (num : Type) (N : JSNumber num) (h : Host) (inputs : PropertyInputs num)
          (years y : nat) (d : YearlyProjection num),
      nth_error (yearlyData (calculateProjections h inputs years)) y = Some d ->
      ltb (int 0) (outstandingLoan d) = true ->
      annualLoanPayment d
      = mul (outstandingLoan d)
          (add (div (interestRate inputs) (int 100)) (div (repaymentRate inputs) (int 100)))
      /\ interestPaid d = mul (outstandingLoan d) (div (interestRate inputs) (int 100))
      /\ principalRepaid d = sub (annualLoanPayment d) (interestPaid d))
  /\ (forall (h : Host) (inputs : PropertyInputs Q) (years : nat),
         let data := yearlyData (calculateProjections h inputs years) in
         (forall y d,
             nth_error data y = Some d ->
             0 < outstandingLoan d ->
             annualLoanPayment d
             == outstandingLoan d * (interestRate inputs + repaymentRate inputs) / 100
             /\ interestPaid d == outstandingLoan d * interestRate inputs / 100
             /\ principalRepaid d == outstandingLoan d * repaymentRate inputs / 100)
         /\ (0 < loanAmountOf inputs ->
             0 < interestRate inputs ->
             0 < repaymentRate inputs ->
             forall y d d',
               (y < 30)%nat ->
               nth_error data y = Some d ->
               nth_error data (S y) = Some d' ->
               annualLoanPayment d' < annualLoanPayment d)).
Proof.
  split.
  - intros num N h inputs years y d Hd HB.
    apply yearlyData_nth in Hd. destruct Hd as (cf & ts & ->).
    destruct (yearRecord_loan_fields h inputs y cf ts) as (_ & Hpay & Hint & Hprin).
    rewrite HB in Hpay.
    split; [exact Hpay|]. split; [exact Hint|exact Hprin].
  - exact reported_payment_exact.
Qed.

Lemma reported_payment_is_rate_times_balance_first_years :
  (let d := yearRecord hostNov2026 (defaultInputs (num := float)) 0 (int 0) (int 0) in
   annualLoanPayment d
   = mul (outstandingLoan d)
       (add (div (interestRate defaultInputs) (int 100))
            (div (repaymentRate defaultInputs) (int 100)))
   /\ interestPaid d = mul (outstandingLoan d) (div (interestRate defaultInputs) (int 100))
   /\ principalRepaid d = sub (annualLoanPayment d) (interestPaid d))
  /\ (let d := yearRecord hostNov2026 (defaultInputs (num := Q)) 0 0 0 in
      let d' := yearRecord hostNov2026 (defaultInputs (num := Q)) 1
                  (cumulativeCashFlow d) (cumulativeTaxSavings d) in
      (annualLoanPayment d
       == outstandingLoan d * (interestRate defaultInputs + repaymentRate defaultInputs) / 100
       /\ interestPaid d == outstandingLoan d * interestRate defaultInputs / 100
       /\ principalRepaid d == outstandingLoan d * repaymentRate defaultInputs / 100)
      /\ annualLoanPayment d' < annualLoanPayment d).
Proof.
  split.
  - intros d.
    apply (proj1 reported_payment_is_rate_times_balance float _ hostNov2026
             defaultInputs 1%nat 0%nat d); [reflexivity|vm_compute; reflexivity].
  - intros d d'.
    destruct (proj2 reported_payment_is_rate_times_balance hostNov2026 defaultInputs 2%nat)
      as [Hsplit Hfalls].
    split.
    + apply (Hsplit 0%nat); [reflexivity|vm_compute; reflexivity].
    + apply (Hfalls ltac:(vm_compute; reflexivity) ltac:(vm_compute; reflexivity)
               ltac:(vm_compute; reflexivity) 0%nat d d');
        [lia|reflexivity|reflexivity].
Defined.

(** The run of the default inputs on binary64 shows the same shape: the 40
    balances never increase, the last ten are [0], and so are the payment,
    interest and principal of those years. *)
Example default_loan_on_binary64 :
  let data := yearlyData (calculateProjections hostNov2026 (defaultInputs (num := float)) 40) in
  nonIncreasing (map (@outstandingLoan float) data) = true
  /\ nonIncreasing (map (@annualLoanPayment float) data) = true
  /\ forallb (fun d => PrimFloat.eqb (outstandingLoan d) 0
                       && PrimFloat.eqb (annualLoanPayment d) 0
                       && PrimFloat.eqb (interestPaid d) 0
                       && PrimFloat.eqb (principalRepaid d) 0)
        (skipn 30 data) = true
  /\ forallb (fun d => PrimFloat.ltb 0 (outstandingLoan d)) (firstn 30 data) = true.
Proof. repeat split; vm_compute; reflexivity. Qed.

(** ** C9: [getColor] when every cell carries the same value *)

Close Scope Q_scope.

Lemma SFsub_diag (s : spec_float) :
  SFsub prec emax s s = S754_zero false \/ SFsub prec emax s s = S754_nan.
Proof.
  destruct s as [b|b| |b m e].
  - left. destruct b; reflexivity.
  - right. destruct b; reflexivity.
  - right. reflexivity.
  - left. unfold SFsub.
    rewrite Z.min_id. unfold shl_align. rewrite Z.sub_diag.
    cbn [fst]. reflexivity.
Qed.

(** [v - v] is [+0] for a finite [v] and NaN otherwise. *)
Lemma float_sub_diag (v : float) :
  (v - v)%float = 0%float \/ (v - v)%float = nan.
Proof.
  destruct (SFsub_diag (Prim2SF v)) as [Hz|Hn]; [left|right];
    apply Prim2SF_inj; rewrite sub_spec; unfold SF64sub.
  - rewrite Hz. reflexivity.
  - rewrite Hn. reflexivity.
Qed.

Lemma normalized_degenerate (v : float) : normalized v v v = nan.
Proof.
  unfold normalized. cbn [sub div float_JSNumber].
  destruct (float_sub_diag v) as [-> | ->]; reflexivity.
Qed.

(** With [value = min = max = 5] the colour is not the midpoint colour
    (that of [normalized = 0.5], as [getColor 5 0 10] gives it): the quotient
    [0 / 0] is evaluated and its NaN is printed. *)
Lemma getColor_divides_zero_by_zero :
  getColor 5%float 5%float 5%float = "rgb(NaN, 255, 100)"%string
  /\ getColor 5%float 0%float 10%float = "rgb(255, 255, 100)"%string
  /\ getColor 5%float 5%float 5%float <> getColor 5%float 0%float 10%float
  /\ (5 - 5)%float = 0%float
  /\ exact (normalized 5%float 5%float 5%float) = XNaN.
Proof.
  repeat split; try (vm_compute; reflexivity).
  vm_compute. discriminate.
Qed.

(** C9, as the code has it.  [getColor] has no guard for [max == min]: it always
    evaluates [(value - min) / (max - min)].  When every cell carries the same
    value [v] the quotient is [0 / 0], i.e. NaN, the test [normalized < 0.5]
    fails and the colour is the string [rgb(NaN, 255, 100)], for every [v]. *)
Theorem getColor_degenerate_range_is_NaN :
  forall v : float,
    normalized v v v = nan
    /\ getColor v v v = "rgb(NaN, 255, 100)"%string.
Proof.
  intros v. split; [apply normalized_degenerate|].
  unfold getColor. rewrite normalized_degenerate.
  vm_compute. reflexivity.
Qed.

(** ** C4: the grid of the heatmap *)

Lemma setInput_getInput {num : Type} (k k' : InputKey) (v : num) (i : PropertyInputs num) :
  getInput k' (setInput k v i) = if InputKey_eqb k k' then v else getInput k' i.
Proof. destruct k, k'; reflexivity. Qed.

Lemma InputKey_eqb_eq (a b : InputKey) : InputKey_eqb a b = true <-> a = b.
Proof. destruct a, b; split; intro E; try reflexivity; discriminate E. Qed.

Lemma InputKey_eqb_neq (a b : InputKey) : a <> b -> InputKey_eqb a b = false.
Proof.
  intros Hne. destruct (InputKey_eqb a b) eqn:E; [|reflexivity].
  apply InputKey_eqb_eq in E. contradiction.
Qed.

Section HeatmapGrid.
Context {num : Type} `{JSNumber num}.

Lemma sensitivityVariables_find (inputs : PropertyInputs num) v :
  In v (sensitivityVariables inputs) ->
  find (fun w => InputKey_eqb (sv_key w) (sv_key v)) (sensitivityVariables inputs) = Some v.
Proof.
  intros Hin. unfold sensitivityVariables in *.
  repeat (destruct Hin as [<- | Hin]; [reflexivity|]).
  destruct Hin.
Qed.

(** Cell [5 * i + j] of the returned array is the one pushed in pass [(i, j)]. *)
Lemma grid_nth (A : Type) (cell : nat -> nat -> A) (i j : nat) :
  (i < 5)%nat -> (j < 5)%nat ->
  nth_error (flat_map (fun i => map (fun j => cell i j) (seq 0 5)) (seq 0 5)) (5 * i + j)
  = Some (cell i j).
Proof.
  intros Hi Hj.
  do 5 (destruct i as [|i]; [do 5 (destruct j as [|j]; [reflexivity|]); lia|]).
  lia.
Qed.

Lemma heatmapData_cells h (inputs : PropertyInputs num) vx vy metric years :
  In vx (sensitivityVariables inputs) ->
  In vy (sensitivityVariables inputs) ->
  heatmapData h true (sv_key vx) (sv_key vy) metric inputs years
  = flat_map (fun i =>
      map (fun j => heatmapCell h vx vy (sv_key vx) (sv_key vy) metric inputs years i j)
        (seq 0 5))
      (seq 0 5).
Proof.
  intros Hx Hy. unfold heatmapData. cbn [negb].
  rewrite (sensitivityVariables_find Hx), (sensitivityVariables_find Hy).
  reflexivity.
Qed.
End HeatmapGrid.





(** In exact arithmetic the test values are the quartiles for any variable,
    not only those of the catalog. *)
Lemma testValue_is_quartile_exact (v : SensitivityVariable Q) (k : nat) :
  (k < 5)%nat -> (testValue v k == quartile v k)%Q.
Proof.
  intros Hk. unfold testValue, quartile, quartileFraction.
  do 5 (destruct k as [|k]; [q_unfold; q_consts; cbn [Z.of_nat Pos.of_succ_nat Pos.succ]; ring|]).
  lia.
Qed.

(** ** C3: the order of the tornado rows *)

(** C3 at the failing input.  With a vacancy rate of 20% (above the catalog
    maximum of 10), the 10-year cash-flow tornado is in descending order of
    [range = |maxImpact - minImpact|], which puts "Vacancy Rate" fifth; its
    total absolute impact (28723.9) exceeds that of the two rows above it
    (20160 and 14136.1), so the list is not in descending order of
    [|minImpact - base| + |maxImpact - base|]. *)
Lemma tornado_sorted_by_range_not_total_impact :
  let data := tornadoData hostNov2026 true cashflow (vacantInputs (num := float)) 10 in
  map (@t_variable float) data
  = ["Interest Rate"; "Repayment Rate"; "Depreciation Rate"; "Rent Increase";
     "Vacancy Rate"; "Marginal Tax Rate"; "Operating Costs Increase";
     "Property Value Increase"]%string
  /\ descendingBy (@range float) data = true
  /\ descendingBy totalImpact data = false
  /\ exists rent vacancy,
       nth_error data 3 = Some rent
       /\ nth_error data 4 = Some vacancy
       /\ (totalImpact rent <? 14137)%float = true
       /\ (28723 <? totalImpact vacancy)%float = true
       /\ (range vacancy <? range rent)%float = true.
Proof.
  intros data.
  split; [vm_compute; reflexivity|].
  split; [vm_compute; reflexivity|].
  split; [vm_compute; reflexivity|].
  eexists. eexists.
  split; [vm_compute; reflexivity|].
  split; [vm_compute; reflexivity|].
  repeat split; vm_compute; reflexivity.
Qed.

(** What the sort does establish, in exact arithmetic: the rows are a
    rearrangement of the catalog's rows in descending order of [range]. *)
Section SortByRange.
Variable A : Type.
Variable key : A -> Q.

Let byKey (a b : A) : Q := (key b - key a)%Q.

Lemma sortInsert_permutation (a : A) (l : list A) :
  Permutation (sortInsert byKey a l) (a :: l).
Proof.
  induction l as [|b l IH]; simpl; [apply Permutation_refl|].
  match goal with |- context [if ?c then _ else _] => destruct c end.
  - apply Permutation_trans with (b :: a :: l).
    + apply perm_skip. exact IH.
    + apply perm_swap.
  - apply Permutation_refl.
Qed.

Lemma Array_sort_permutation (l : list A) :
  Permutation (Array_sort byKey l) l.
Proof.
  induction l as [|a l IH]; simpl; [constructor|].
  apply Permutation_trans with (a :: Array_sort byKey l).
  - apply sortInsert_permutation.
  - apply perm_skip. exact IH.
Qed.

Lemma sortInsert_sorted (a : A) (l : list A) :
  Sorted (fun x y => (key y <= key x)%Q) l ->
  Sorted (fun x y => (key y <= key x)%Q) (sortInsert byKey a l).
Proof.
  induction l as [|b l IH]; intros Hs; simpl.
  - repeat constructor.
  - unfold byKey at 1. q_unfold.
    destruct (Qle_bool (key b - key a) (inject_Z 0)) eqn:E; cbn [negb].
    + apply Qle_bool_iff in E. unfold inject_Z in E.
      constructor; [exact Hs|]. constructor. lra.
    + apply not_true_iff_false in E. rewrite Qle_bool_iff in E.
      apply Qnot_le_lt in E. unfold inject_Z in E.
      inversion Hs as [|? ? Hl Hhd]; subst.
      constructor; [now apply IH|].
      destruct l as [|c l]; simpl.
      * constructor. lra.
      * match goal with |- context [if ?c then _ else _] => destruct c end;
          constructor.
        -- now inversion Hhd.
        -- lra.
Qed.

Lemma Array_sort_sorted (l : list A) :
  Sorted (fun x y => (key y <= key x)%Q) (Array_sort byKey l).
Proof.
  induction l as [|a l IH]; simpl; [constructor|].
  now apply sortInsert_sorted.
Qed.
End SortByRange.

Lemma tornado_rows_descend_by_range (catalog : list (SensitivityVariable Q))
    (h : Host) (metric : Metric) (inputs : PropertyInputs Q) (years : nat) :
  let rows := tornadoOf catalog h true metric inputs years in
  Sorted (fun a b => (range b <= range a)%Q) rows
  /\ Permutation rows
       (map (tornadoItem h metric inputs years
               (getMetricValue metric years (calculateProjections h inputs years)))
            catalog).
Proof.
  unfold tornadoOf. cbn [negb]. split.
  - apply (Array_sort_sorted (@range Q)).
  - apply (Array_sort_permutation (@range Q)).
Qed.

(** * Further properties of the code *)

(** ** The loop of [calculateProjections]: running totals and the ledger of a year *)

Section RunningTotals.
Context {num : Type} `{JSNumber num}.

Lemma recordsFrom_nth_carried h inputs n :
  forall year cf ts k d,
    nth_error (recordsFrom h inputs n year cf ts) k = Some d ->
    d = yearRecord h inputs (year + k)
          (match k with
           | O => cf
           | S k' => match nth_error (recordsFrom h inputs n year cf ts) k' with
                     | Some p => cumulativeCashFlow p
                     | None => int 0
                     end
           end)
          (match k with
           | O => ts
           | S k' => match nth_error (recordsFrom h inputs n year cf ts) k' with
                     | Some p => cumulativeTaxSavings p
                     | None => int 0
                     end
           end).
Proof.
  induction n as [|n IH]; intros year cf ts k d Hk.
  - destruct k; discriminate.
  - destruct k as [|k]; simpl in Hk.
    + injection Hk as <-. now rewrite Nat.add_0_r.
    + pose proof (IH _ _ _ _ _ Hk) as Hd.
      replace (year + S k)%nat with (S year + k)%nat by lia.
      destruct k as [|k]; exact Hd.
Qed.

(** X1.  Record [k] (0-based) of a projection is numbered [k + 1]; its
    cumulative cash flow and cumulative tax savings are those of the record
    before it (0 for the first) plus this year's net cash flow and tax
    savings; and its ledger adds up: net = gross + tax savings, gross = rent
    - costs - loan payment, taxable income = rent - costs - interest -
    depreciation, equity = value - loan, net worth = equity + cumulative
    cash flow.  This holds for every number implementation. *)
Theorem records_keep_running_totals :
  forall (h : Host) (inputs : PropertyInputs num) (years k : nat) (d : YearlyProjection num),
    let data := yearlyData (calculateProjections h inputs years) in
    nth_error data k = Some d ->
    year d = (Z.of_nat k + 1)%Z
    /\ cumulativeCashFlow d
       = add (carriedIn (@cumulativeCashFlow num) data k) (netCashFlow d)
    /\ cumulativeTaxSavings d
       = add (carriedIn (@cumulativeTaxSavings num) data k) (taxSavings d)
    /\ netCashFlow d = add (grossCashFlow d) (taxSavings d)
    /\ grossCashFlow d
       = sub (sub (effectiveRent d) (totalOperatingCosts d)) (annualLoanPayment d)
    /\ taxableIncome d
       = sub (sub (sub (effectiveRent d) (totalOperatingCosts d)) (interestPaid d))
             (depreciation d)
    /\ yp_equity d = sub (propertyValue d) (outstandingLoan d)
    /\ netWorth d = add (yp_equity d) (cumulativeCashFlow d).
Proof.
  intros h inputs years k d data Hk.
  unfold data in *. rewrite yearlyData_records in *.
  pose proof (recordsFrom_nth_carried _ _ _ _ _ _ _ Hk) as Hd.
  unfold carriedIn.
  set (cf := match k with O => int 0 | S k' => _ end) in *.
  set (ts := match k with O => int 0 | S k' => _ end) in Hd.
  rewrite Hd.
  repeat split.
Qed.
End RunningTotals.

Lemma records_keep_running_totals_second_year :
  let data := yearlyData (calculateProjections hostNov2026 (defaultInputs (num := float)) 2) in
  let d0 := yearRecord hostNov2026 (defaultInputs (num := float)) 0 (int 0) (int 0) in
  let d := yearRecord hostNov2026 (defaultInputs (num := float)) 1
             (cumulativeCashFlow d0) (cumulativeTaxSavings d0) in
  year d = 2%Z
  /\ cumulativeCashFlow d = add (cumulativeCashFlow d0) (netCashFlow d)
  /\ netWorth d = add (yp_equity d) (cumulativeCashFlow d).
Proof.
  intros data d0 d.
  destruct (@records_keep_running_totals float _ hostNov2026 defaultInputs 2 1 d)
    as (Hy & Hcf & _ & _ & _ & _ & _ & Hnw).
  - reflexivity.
  - split; [exact Hy|]. split; [exact Hcf|exact Hnw].
Defined.

(** ** What a projection does not depend on *)

Section Independence.
Context {num : Type} `{JSNumber num}.

Lemma yearRecord_ignores_income_and_status h (a b : PropertyInputs num) year cf ts :
  sameButIncomeAndStatus a b ->
  yearRecord h a year cf ts = yearRecord h b year cf ts.
Proof.
  intros [Hk Hc].
  pose proof (Hk k_purchasePrice ltac:(discriminate)) as H1.
  pose proof (Hk k_notaryAndLandRegistryFees ltac:(discriminate)) as H2.
  pose proof (Hk k_realEstateTransferTax ltac:(discriminate)) as H3.
  pose proof (Hk k_brokerCommission ltac:(discriminate)) as H4.
  pose proof (Hk k_renovationCosts ltac:(discriminate)) as H5.
  pose proof (Hk k_equity ltac:(discriminate)) as H6.
  pose proof (Hk k_interestRate ltac:(discriminate)) as H7.
  pose proof (Hk k_repaymentRate ltac:(discriminate)) as H8.
  pose proof (Hk k_monthlyRent ltac:(discriminate)) as H9.
  pose proof (Hk k_monthlyPropertyManagement ltac:(discriminate)) as H10.
  pose proof (Hk k_monthlyMaintenance ltac:(discriminate)) as H11.
  pose proof (Hk k_monthlyInsurance ltac:(discriminate)) as H12.
  pose proof (Hk k_monthlyOtherCosts ltac:(discriminate)) as H13.
  pose proof (Hk k_rentIncreaseRate ltac:(discriminate)) as H14.
  pose proof (Hk k_propertyValueIncreaseRate ltac:(discriminate)) as H15.
  pose proof (Hk k_operatingCostsIncreaseRate ltac:(discriminate)) as H16.
  pose proof (Hk k_marginalTaxRate ltac:(discriminate)) as H17.
  pose proof (Hk k_vacancyRate ltac:(discriminate)) as H18.
  pose proof (Hk k_depreciationRate ltac:(discriminate)) as H19.
  clear Hk. destruct a, b. cbn in *. subst. reflexivity.
Qed.

Lemma recordsFrom_ignores_income_and_status h (a b : PropertyInputs num) n :
  sameButIncomeAndStatus a b ->
  forall year cf ts, recordsFrom h a n year cf ts = recordsFrom h b n year cf ts.
Proof.
  intros Hab. induction n as [|n IH]; intros year cf ts; cbn [recordsFrom]; [reflexivity|].
  cbv zeta.
  rewrite (yearRecord_ignores_income_and_status h year cf ts Hab).
  f_equal. apply IH.
Qed.

(** X2.  A projection does not read [annualIncome] or [maritalStatus]: two
    input sets that agree on every other field give the same
    [ProjectionResults], records and summary alike (so the tax calculator
    [calculateGermanTax], which nothing calls, has no part in it). *)
Theorem projection_ignores_income_and_status :
  forall (h : Host) (a b : PropertyInputs num) (years : nat),
    sameButIncomeAndStatus a b ->
    calculateProjections h a years = calculateProjections h b years.
Proof.
  intros h a b years Hab.
  assert (Hd : yearlyData (calculateProjections h a years)
               = yearlyData (calculateProjections h b years)).
  { rewrite !yearlyData_records. now apply recordsFrom_ignores_income_and_status. }
  assert (He : equity a = equity b) by (apply (proj1 Hab k_equity); discriminate).
  assert (Hs : summary (calculateProjections h a years)
               = summary (calculateProjections h b years)).
  { rewrite !summary_summarize. now rewrite Hd, He. }
  destruct (calculateProjections h a years), (calculateProjections h b years).
  cbn in Hd, Hs. now subst.
Qed.
End Independence.

Lemma projection_ignores_income_and_status_married :
  calculateProjections hostNov2026 (defaultInputs (num := float)) 40
  = calculateProjections hostNov2026
      (setMaritalStatus married (setInput k_annualIncome (int 250000) defaultInputs)) 40.
Proof.
  apply (@projection_ignores_income_and_status float _).
  split.
  - intros k Hk. destruct k; try reflexivity. contradiction.
  - reflexivity.
Defined.


(** ** [calculateIRR]: which estimate is returned *)

Section IRRResult.
Context {num : Type} `{JSNumber num}.

Lemma irrLoop_characterised flows n :
  forall rate,
    match irrLoop flows n rate with
    | Converged r =>
        exists k, (k < n)%nat
                  /\ neverSettles flows k rate = true
                  /\ stepSettles flows (newtonIter flows k rate) = true
                  /\ r = newtonIter flows (S k) rate
    | Exhausted r =>
        neverSettles flows n rate = true /\ r = newtonIter flows n rate
    end.
Proof.
  induction n as [|n IH]; intros rate; cbn [irrLoop].
  - split; reflexivity.
  - cbv zeta.
    destruct (ltb (Math_abs (sub (newtonStep flows rate) rate)) (lit 1 4)) eqn:E.
    + exists 0%nat. repeat split; [lia|exact E].
    + specialize (IH (newtonStep flows rate)).
      destruct (irrLoop flows n (newtonStep flows rate)) as [r|r].
      * destruct IH as (k & Hk & Hnever & Hstep & Hr).
        exists (S k). repeat split; try assumption; [lia|].
        cbn [neverSettles]. unfold stepSettles at 1. rewrite E. exact Hnever.
      * destruct IH as (Hnever & Hr). split; [|exact Hr].
        cbn [neverSettles]. unfold stepSettles at 1. rewrite E. exact Hnever.
Qed.

(** X3.  [calculateIRR] returns 100 times the Newton-Raphson estimate reached
    after the first step that moves the rate by less than 0.0001, if one of
    the first 100 steps from 10% does; otherwise 100 times the estimate after
    all 100 steps.  The flows are [-initialInvestment] followed by the cash
    flows. *)
Theorem irr_returns_first_settled_estimate :
  forall (cashFlows : list num) (initialInvestment : num),
    let flows := opp initialInvestment :: cashFlows in
    let start := lit 1 1 in
    (exists k, (k < 100)%nat
               /\ neverSettles flows k start = true
               /\ stepSettles flows (newtonIter flows k start) = true
               /\ calculateIRR cashFlows initialInvestment
                  = mul (newtonIter flows (S k) start) (int 100))
    \/ (neverSettles flows 100 start = true
        /\ calculateIRR cashFlows initialInvestment
           = mul (newtonIter flows 100 start) (int 100)).
Proof.
  intros cashFlows initialInvestment flows start.
  unfold calculateIRR, irrRun. fold flows. fold start.
  pose proof (irrLoop_characterised flows 100 start) as Hc.
  destruct (irrLoop flows 100 start) as [r|r].
  - left. destruct Hc as (k & Hk & Hnever & Hstep & ->).
    exists k. repeat split; assumption.
  - right. destruct Hc as (Hnever & ->). split; [assumption|reflexivity].
Qed.
End IRRResult.

(** ** Horizons *)

Section HorizonPrefix.
Context {num : Type} `{JSNumber num}.

Lemma recordsFrom_firstn h inputs m :
  forall n year cf ts,
    (m <= n)%nat ->
    firstn m (recordsFrom h inputs n year cf ts) = recordsFrom h inputs m year cf ts.
Proof.
  induction m as [|m IH]; intros n year cf ts Hmn; [reflexivity|].
  destruct n as [|n]; [lia|].
  cbn [recordsFrom firstn]. cbv zeta. f_equal. apply IH. lia.
Qed.

Lemma firstn_nth_error_same (A : Type) (l1 l2 : list A) (n k : nat) :
  firstn n l1 = firstn n l2 -> (k < n)%nat -> nth_error l1 k = nth_error l2 k.
Proof.
  intros Hf Hk.
  pose proof (nth_error_firstn n l1 k) as E1.
  pose proof (nth_error_firstn n l2 k) as E2.
  apply Nat.ltb_lt in Hk. rewrite Hk in E1, E2.
  now rewrite <- E1, <- E2, Hf.
Qed.

Lemma mark_agrees (l1 l2 : list (YearlyProjection num)) (n : nat) (ti : num) :
  firstn (S n) l1 = firstn (S n) l2 ->
  (forall field, fieldOrZero field l1 (Z.of_nat n) = fieldOrZero field l2 (Z.of_nat n))
  /\ roiAt l1 n ti = roiAt l2 n ti.
Proof.
  intros Hf.
  pose proof (@firstn_nth_error_same _ l1 l2 (S n) n Hf ltac:(lia)) as Hn.
  split.
  - intros field. unfold fieldOrZero.
    destruct (Z.ltb_spec (Z.of_nat n) 0); [reflexivity|].
    now rewrite Nat2Z.id, Hn.
  - unfold roiAt. now rewrite Hn.
Qed.

(** X4.  A shorter horizon is a prefix of a longer one: the records of
    [calculateProjections inputs y1] are the first [y1] records of
    [calculateProjections inputs y2] when [y1 <= y2], and the summary
    scalars of the 10-year mark (and of the 20-year mark) are the same for
    every horizon that reaches the mark. *)
Theorem shorter_horizon_is_prefix :
  forall (h : Host) (inputs : PropertyInputs num) (y1 y2 : nat),
    (y1 <= y2)%nat ->
    let r1 := calculateProjections h inputs y1 in
    let r2 := calculateProjections h inputs y2 in
    yearlyData r1 = firstn y1 (yearlyData r2)
    /\ ((10 <= y1)%nat ->
        irr10Year (summary r1) = irr10Year (summary r2)
        /\ totalCashFlow10Year (summary r1) = totalCashFlow10Year (summary r2)
        /\ netWorth10Year (summary r1) = netWorth10Year (summary r2)
        /\ roiAtYear10 (summary r1) = roiAtYear10 (summary r2))
    /\ ((20 <= y1)%nat ->
        irr20Year (summary r1) = irr20Year (summary r2)
        /\ totalCashFlow20Year (summary r1) = totalCashFlow20Year (summary r2)
        /\ netWorth20Year (summary r1) = netWorth20Year (summary r2)
        /\ roiAtYear20 (summary r1) = roiAtYear20 (summary r2)).
Proof.
  intros h inputs y1 y2 Hy r1 r2. unfold r1, r2.
  rewrite !summary_summarize, !yearlyData_records.
  set (l1 := recordsFrom h inputs y1 0 (int 0) (int 0)).
  set (l2 := recordsFrom h inputs y2 0 (int 0) (int 0)).
  assert (Hpre : forall m, (m <= y1)%nat -> firstn m l1 = firstn m l2).
  { intros m Hm. unfold l1, l2. rewrite !recordsFrom_firstn by lia. reflexivity. }
  split; [unfold l1, l2; now rewrite recordsFrom_firstn by lia|].
  split; intros Hmark.
  - pose proof (Hpre 10%nat Hmark) as H10.
    destruct (@mark_agrees l1 l2 9 (equity inputs) H10) as [Hf Hr].
    unfold summarize; cbn [irr10Year totalCashFlow10Year netWorth10Year roiAtYear10].
    change 9%Z with (Z.of_nat 9). rewrite !Hf, Hr, H10. repeat split.
  - pose proof (Hpre 20%nat Hmark) as H20.
    destruct (@mark_agrees l1 l2 19 (equity inputs) H20) as [Hf Hr].
    unfold summarize; cbn [irr20Year totalCashFlow20Year netWorth20Year roiAtYear20].
    change 19%Z with (Z.of_nat 19). rewrite !Hf, Hr, H20. repeat split.
Qed.
End HorizonPrefix.

Lemma shorter_horizon_is_prefix_10_of_40 :
  let r1 := calculateProjections hostNov2026 (defaultInputs (num := float)) 10 in
  let r2 := calculateProjections hostNov2026 (defaultInputs (num := float)) 40 in
  yearlyData r1 = firstn 10 (yearlyData r2)
  /\ irr10Year (summary r1) = irr10Year (summary r2).
Proof.
  intros r1 r2.
  destruct (@shorter_horizon_is_prefix float _ hostNov2026 defaultInputs 10 40)
    as (Hd & H10 & _).
  - lia.
  - split; [exact Hd|]. apply H10. lia.
Defined.

(** ** Tax savings, cash purchases and yearly growth in exact arithmetic *)

Open Scope Q_scope.

Lemma yearRecord_tax_fields {num : Type} `{JSNumber num} h (inputs : PropertyInputs num)
    (k : nat) (cf ts : num) :
  let d := yearRecord h inputs k cf ts in
  let rate := div (marginalTaxRate inputs) (int 100) in
  taxSavings d
  = if ltb (taxableIncome d) (int 0)
    then (if churchTaxLiability inputs
          then mul (mul (Math_abs (taxableIncome d)) rate) (lit 108 2)
          else mul (Math_abs (taxableIncome d)) rate)
    else (if churchTaxLiability inputs
          then mul (mul (opp (taxableIncome d)) rate) (lit 108 2)
          else mul (opp (taxableIncome d)) rate).
Proof. reflexivity. Qed.

(** X5.  In both branches of the loop the year's tax savings are the
    negated taxable rental income times [marginalTaxRate / 100], times 1.08
    under church tax liability: a rental loss gives a positive saving, a
    rental profit a negative one (a tax cost), for a positive marginal rate
    (exact arithmetic). *)
Theorem tax_savings_mirror_taxable_income :
  forall (h : Host) (inputs : PropertyInputs Q) (years k : nat) (d : YearlyProjection Q),
    nth_error (yearlyData (calculateProjections h inputs years)) k = Some d ->
    taxSavings d
    == - taxableIncome d * (marginalTaxRate inputs / 100)
       * (if churchTaxLiability inputs then 108 # 100 else 1)
    /\ (0 < marginalTaxRate inputs -> taxableIncome d < 0 -> 0 < taxSavings d)
    /\ (0 <= marginalTaxRate inputs -> 0 <= taxableIncome d -> taxSavings d <= 0).
Proof.
  intros h inputs years k d Hd.
  apply yearlyData_nth in Hd. destruct Hd as (cf & ts & ->).
  rewrite (yearRecord_tax_fields h inputs k cf ts).
  set (t := taxableIncome (yearRecord h inputs k cf ts)). clearbody t.
  set (m := marginalTaxRate inputs). clearbody m.
  q_unfold.
  assert (Habs : t <= 0 -> Qabs t == - t) by apply Qabs_neg.
  destruct (Qle_bool (inject_Z 0) t) eqn:E; cbn [negb].
  - apply Qle_bool_iff in E. unfold inject_Z in E.
    destruct (churchTaxLiability inputs); cbv iota; q_consts;
      (split; [field|split; intros; [lra|nra]]).
  - apply not_true_iff_false in E. rewrite Qle_bool_iff in E.
    apply Qnot_le_lt in E. unfold inject_Z in E.
    destruct (churchTaxLiability inputs); cbv iota; rewrite Habs by lra; q_consts;
      (split; [field|split; intros; [nra|lra]]).
Qed.

Lemma tax_savings_mirror_taxable_income_first_year :
  let d := yearRecord hostNov2026 (defaultInputs (num := Q)) 0 0 0 in
  taxSavings d == - taxableIncome d * (marginalTaxRate defaultInputs / 100) * 1
  /\ 0 < taxSavings d.
Proof.
  intros d.
  destruct (@tax_savings_mirror_taxable_income hostNov2026 defaultInputs 1 0 d)
    as (Heq & Hloss & _).
  - reflexivity.
  - split; [exact Heq|]. apply Hloss; vm_compute; reflexivity.
Defined.


Lemma rawOutstandingLoan_factored (inputs : PropertyInputs Q) (y : nat) :
  0 < interestRate inputs ->
  0 < repaymentRate inputs ->
  (1 <= y < 30)%nat ->
  exists c, 0 < c
            /\ rawOutstandingLoan inputs y
               == loanAmountOf inputs / annuityDenominator inputs * c.
Proof.
  intros Hi Hr Hy.
  pose proof (annuityDenominator_bounds inputs Hi Hr) as [HD0 HD1].
  pose proof (growthOf_gt_1 inputs Hi Hr) as Hu.
  set (P := growthOf inputs ^ (Z.of_nat y * 12)).
  assert (HPv : P * (1 - annuityDenominator inputs) < 1).
  { unfold annuityDenominator, P.
    setoid_replace (1 - (inject_Z 1 - growthOf inputs ^ (- (30 * 12))))
      with (growthOf inputs ^ (- (30 * 12))) by (unfold inject_Z; ring).
    rewrite <- Qpower_plus by (intro E; rewrite E in Hu; discriminate Hu).
    replace (Z.of_nat y * 12 + - (30 * 12))%Z with (- (360 - Z.of_nat y * 12))%Z by lia.
    rewrite Qpower_opp.
    apply Qlt_shift_inv_r.
    - apply Qpower_0_lt. lra.
    - rewrite Qmult_1_l. apply Qpower_1_lt; [exact Hu|lia]. }
  exists (1 - P * (1 - annuityDenominator inputs)). split; [lra|].
  rewrite (rawOutstandingLoan_formula inputs Hi Hr Hy). fold P.
  field. intro E. rewrite E in HD0. discriminate HD0.
Qed.

Lemma outstandingLoanAt_no_loan (inputs : PropertyInputs Q) (y : nat) :
  loanAmountOf inputs <= 0 ->
  0 < interestRate inputs ->
  0 < repaymentRate inputs ->
  outstandingLoanAt inputs y == 0.
Proof.
  intros HL Hi Hr.
  assert (Hraw : rawOutstandingLoan inputs y <= 0).
  { destruct (Nat.eq_dec y 0) as [->|Hy0]; [exact HL|].
    destruct (Nat.lt_ge_cases y 30) as [Hy|Hy].
    - destruct (@rawOutstandingLoan_factored inputs y Hi Hr ltac:(lia)) as (c & Hc & ->).
      pose proof (annuityDenominator_bounds inputs Hi Hr) as [HD0 HD1].
      assert (Hq : loanAmountOf inputs / annuityDenominator inputs <= 0).
      { apply Qle_shift_div_r; [exact HD0|]. lra. }
      nra.
    - unfold rawOutstandingLoan. destruct y as [|y]; [lia|].
      destruct (Z.ltb_spec (Z.of_nat (S y) * 12) (30 * 12)) as [Hlt|_]; [lia|].
      apply Qle_refl. }
  unfold outstandingLoanAt. q_unfold.
  destruct (Qle_bool (inject_Z 0) (rawOutstandingLoan inputs y)) eqn:E.
  - apply Qle_bool_iff in E. unfold inject_Z in E. lra.
  - reflexivity.
Qed.

Lemma yearRecord_ledger_fields {num : Type} `{JSNumber num} h (inputs : PropertyInputs num)
    (k : nat) (cf ts : num) :
  let d := yearRecord h inputs k cf ts in
  grossCashFlow d
  = sub (sub (effectiveRent d) (totalOperatingCosts d)) (annualLoanPayment d)
  /\ yp_equity d = sub (propertyValue d) (outstandingLoan d).
Proof. repeat split. Qed.

(** X6.  When the equity covers the acquisition costs (loan amount at most
    0) and both loan rates are positive, every record shows no loan: balance,
    annual payment, interest and principal are 0, the equity is the property
    value and the gross cash flow is rent less operating costs (exact
    arithmetic). *)
Theorem no_loan_when_equity_covers_costs :
  forall (h : Host) (inputs : PropertyInputs Q) (years k : nat) (d : YearlyProjection Q),
    loanAmountOf inputs <= 0 ->
    0 < interestRate inputs ->
    0 < repaymentRate inputs ->
    nth_error (yearlyData (calculateProjections h inputs years)) k = Some d ->
    outstandingLoan d == 0
    /\ annualLoanPayment d == 0
    /\ interestPaid d == 0
    /\ principalRepaid d == 0
    /\ yp_equity d == propertyValue d
    /\ grossCashFlow d == effectiveRent d - totalOperatingCosts d.
Proof.
  intros h inputs years k d HL Hi Hr Hd.
  apply yearlyData_nth in Hd. destruct Hd as (cf & ts & ->).
  destruct (yearRecord_loan_fields h inputs k cf ts) as (Hol & Hpay & Hint & Hpr).
  destruct (yearRecord_ledger_fields h inputs k cf ts) as (Hg & He).
  pose proof (outstandingLoanAt_no_loan k HL Hi Hr) as H0.
  rewrite <- Hol in H0.
  set (d := yearRecord h inputs k cf ts) in *.
  assert (Hpay0 : annualLoanPayment d == 0).
  { rewrite Hpay. q_unfold.
    destruct (Qle_bool (outstandingLoan d) (inject_Z 0)) eqn:E; cbn [negb]; [reflexivity|].
    apply not_true_iff_false in E. rewrite Qle_bool_iff in E.
    exfalso. apply E. unfold inject_Z. rewrite H0. apply Qle_refl. }
  assert (Hint0 : interestPaid d == 0).
  { rewrite Hint. q_unfold. rewrite H0. ring. }
  repeat split.
  - exact H0.
  - exact Hpay0.
  - exact Hint0.
  - rewrite Hpr. q_unfold. rewrite Hpay0, Hint0. ring.
  - rewrite He. q_unfold. rewrite H0. ring.
  - rewrite Hg. q_unfold. rewrite Hpay0. ring.
Qed.

Lemma no_loan_when_equity_covers_costs_cash_purchase :
  let inputs := setInput k_equity (int 400000) (defaultInputs (num := Q)) in
  let d := yearRecord hostNov2026 inputs 0 0 0 in
  outstandingLoan d == 0 /\ annualLoanPayment d == 0 /\ yp_equity d == propertyValue d.
Proof.
  intros inputs d.
  destruct (@no_loan_when_equity_covers_costs hostNov2026 inputs 1 0 d)
    as (Hl & Hp & _ & _ & He & _).
  - vm_compute. discriminate.
  - vm_compute. reflexivity.
  - vm_compute. reflexivity.
  - reflexivity.
  - split; [exact Hl|]. split; [exact Hp|exact He].
Defined.


Lemma yearRecord_growth_fields {num : Type} `{JSNumber num} h (inputs : PropertyInputs num)
    (k : nat) (cf ts : num) :
  let d := yearRecord h inputs k cf ts in
  propertyValue d
  = mul (purchasePrice inputs)
      (Math_pow (add (int 1) (div (propertyValueIncreaseRate inputs) (int 100))) (Z.of_nat k))
  /\ grossRent d
     = mul (mul (monthlyRent inputs) (int 12))
         (Math_pow (add (int 1) (div (rentIncreaseRate inputs) (int 100))) (Z.of_nat k))
  /\ effectiveRent d
     = mul (grossRent d) (sub (int 1) (div (vacancyRate inputs) (int 100)))
  /\ totalOperatingCosts d
     = mul (mul (add (add (add (monthlyPropertyManagement inputs) (monthlyMaintenance inputs))
                        (monthlyInsurance inputs)) (monthlyOtherCosts inputs)) (int 12))
         (Math_pow (add (int 1) (div (operatingCostsIncreaseRate inputs) (int 100)))
                   (Z.of_nat k))
  /\ depreciation d
     = mul (mul (purchasePrice inputs) (lit 8 1)) (div (depreciationRate inputs) (int 100)).
Proof. repeat split. Qed.

Lemma Qpower_succ (a : Q) (k : nat) : a ^ Z.of_nat (S k) == a ^ Z.of_nat k * a.
Proof.
  rewrite Nat2Z.inj_succ. unfold Z.succ.
  rewrite Qpower_plus' by lia. reflexivity.
Qed.

(** X7.  From each record to the next the property value grows by
    [propertyValueIncreaseRate] percent, the gross and the effective rent by
    [rentIncreaseRate] percent and the operating costs by
    [operatingCostsIncreaseRate] percent, while the depreciation stays the
    same (exact arithmetic). *)
Theorem values_compound_yearly :
  forall (h : Host) (inputs : PropertyInputs Q) (years k : nat)
         (d d' : YearlyProjection Q),
    let data := yearlyData (calculateProjections h inputs years) in
    nth_error data k = Some d ->
    nth_error data (S k) = Some d' ->
    propertyValue d' == propertyValue d * (1 + propertyValueIncreaseRate inputs / 100)
    /\ grossRent d' == grossRent d * (1 + rentIncreaseRate inputs / 100)
    /\ effectiveRent d' == effectiveRent d * (1 + rentIncreaseRate inputs / 100)
    /\ totalOperatingCosts d'
       == totalOperatingCosts d * (1 + operatingCostsIncreaseRate inputs / 100)
    /\ depreciation d' = depreciation d.
Proof.
  intros h inputs years k d d' data Hd Hd'. unfold data in *.
  apply yearlyData_nth in Hd. destruct Hd as (cf & ts & ->).
  apply yearlyData_nth in Hd'. destruct Hd' as (cf' & ts' & ->).
  destruct (yearRecord_growth_fields h inputs k cf ts) as (Hv & Hg & He & Hc & Hdp).
  destruct (yearRecord_growth_fields h inputs (S k) cf' ts') as (Hv' & Hg' & He' & Hc' & Hdp').
  assert (Hrent : grossRent (yearRecord h inputs (S k) cf' ts')
                  == grossRent (yearRecord h inputs k cf ts)
                     * (1 + rentIncreaseRate inputs / 100)).
  { rewrite Hg', Hg. q_unfold. rewrite Qpower_succ. unfold inject_Z. field. }
  repeat split.
  - rewrite Hv', Hv. q_unfold. rewrite Qpower_succ. unfold inject_Z. field.
  - exact Hrent.
  - rewrite He', He. q_unfold. rewrite Hrent. unfold inject_Z. field.
  - rewrite Hc', Hc. q_unfold. rewrite Qpower_succ. unfold inject_Z. field.
Qed.

Lemma values_compound_yearly_default :
  let d := yearRecord hostNov2026 (defaultInputs (num := Q)) 0 0 0 in
  let d' := yearRecord hostNov2026 (defaultInputs (num := Q)) 1
              (cumulativeCashFlow d) (cumulativeTaxSavings d) in
  propertyValue d' == propertyValue d * (1 + propertyValueIncreaseRate defaultInputs / 100)
  /\ grossRent d' == grossRent d * (1 + rentIncreaseRate defaultInputs / 100).
Proof.
  intros d d'.
  destruct (@values_compound_yearly hostNov2026 defaultInputs 2 0 d d')
    as (Hv & Hg & _).
  - reflexivity.
  - reflexivity.
  - split; [exact Hv|exact Hg].
Defined.


Close Scope Q_scope.

(** ** The tax calculator in exact arithmetic *)

Open Scope Q_scope.

Lemma incomeTaxFormula_allowance (x : Q) :
  (x <= 11604 -> incomeTaxFormula x == 0)
  /\ (11604 < x -> 0 < incomeTaxFormula x).
Proof.
  unfold incomeTaxFormula, taxZoneA, taxZoneB, taxZoneC, taxZoneTop.
  q_unfold. repeat q_case; q_consts; cbn zeta; split; intros; try lra; nra.
Qed.

Lemma incomeTaxFormula_le_top_rate (x : Q) :
  0 <= x -> incomeTaxFormula x <= (45 # 100) * x.
Proof.
  unfold incomeTaxFormula, taxZoneA, taxZoneB, taxZoneC, taxZoneTop.
  q_unfold. repeat q_case; q_consts; cbn zeta; intros; try lra; nra.
Qed.

Lemma incomeTaxFormula_splitting (x : Q) :
  2 * incomeTaxFormula (x / 2) <= incomeTaxFormula x.
Proof.
  unfold incomeTaxFormula, taxZoneA, taxZoneB, taxZoneC, taxZoneTop.
  q_unfold. repeat q_case; q_consts; change (/ 2) with (1 # 2) in *; cbn zeta; try lra; nra.
Qed.

(** X8.  Up to the basic allowance (11604 for a single filer, 23208 for a
    married couple) all four outputs of [calculateGermanTax] are 0; above it
    the income tax and the total are positive (exact arithmetic). *)
Theorem tax_free_up_to_allowance :
  forall (taxableIncome : Q) (status : MaritalStatus) (church : bool),
    let allowance := match status with single => 11604 | married => 23208 end in
    let r := calculateGermanTax taxableIncome status church in
    (taxableIncome <= allowance ->
     incomeTax r == 0 /\ solidarityTax r == 0 /\ churchTax r == 0 /\ totalTax r == 0)
    /\ (allowance < taxableIncome -> 0 < incomeTax r /\ 0 < totalTax r).
Proof.
  intros x status church allowance r. unfold allowance, r. tax_cases.
  destruct status;
    match goal with
    | |- context [incomeTaxFormula ?y] =>
        destruct (incomeTaxFormula_allowance y) as [Hfree Htaxed];
        set (f := incomeTaxFormula y) in *; clearbody f
    end;
    destruct church; q_unfold; repeat q_case_negb; repeat q_case; q_consts; cbn [negb]; cbv iota;
    split; intros Hx;
    try (assert (Hf : f == 0) by (apply Hfree; lra));
    try (assert (Hf : 0 < f) by (apply Htaxed; lra));
    repeat split; lra.
Qed.

Lemma tax_free_up_to_allowance_couple :
  let r := calculateGermanTax (23208 : Q) married true in
  incomeTax r == 0 /\ solidarityTax r == 0 /\ churchTax r == 0 /\ totalTax r == 0.
Proof.
  apply (tax_free_up_to_allowance 23208 married true). vm_compute. discriminate.
Defined.

(** X9.  For a non-negative taxable income the total is the sum of the three
    taxes; the income tax is at most 45% of the income, the solidarity
    surcharge at most 6.6% of the income tax, the church tax 8% of the income
    tax when liable and 0 otherwise, and the total at most 51.57% of the
    income (exact arithmetic). *)
Theorem tax_total_within_top_rate :
  forall (taxableIncome : Q) (status : MaritalStatus) (church : bool),
    0 <= taxableIncome ->
    let r := calculateGermanTax taxableIncome status church in
    totalTax r == incomeTax r + solidarityTax r + churchTax r
    /\ incomeTax r <= (45 # 100) * taxableIncome
    /\ solidarityTax r <= (66 # 1000) * incomeTax r
    /\ churchTax r == (if church then (8 # 100) * incomeTax r else 0)
    /\ totalTax r <= (5157 # 10000) * taxableIncome.
Proof.
  intros x status church Hx r. unfold r. tax_cases.
  destruct status;
    match goal with
    | |- context [incomeTaxFormula ?y] =>
        pose proof (incomeTaxFormula_nonneg y) as Hf0;
        pose proof (@incomeTaxFormula_le_top_rate y) as Hf1;
        set (f := incomeTaxFormula y) in *; clearbody f
    end;
    destruct church; q_unfold; repeat q_case_negb; repeat q_case; q_consts; cbn [negb];
    repeat split; lra.
Qed.

Lemma tax_total_within_top_rate_60000 :
  let r := calculateGermanTax (60000 : Q) single true in
  totalTax r == incomeTax r + solidarityTax r + churchTax r
  /\ incomeTax r <= (45 # 100) * 60000
  /\ totalTax r <= (5157 # 10000) * 60000.
Proof.
  intros r.
  destruct (@tax_total_within_top_rate 60000 single true) as (Hsum & Hinc & _ & _ & Htot).
  - vm_compute. discriminate.
  - split; [exact Hsum|]. split; [exact Hinc|exact Htot].
Defined.

(** X10.  Splitting: a married couple's income tax and church tax are twice
    those of a single filer with half the income; the solidarity surcharge
    is at least twice that filer's and at most 0.264 more (the married
    threshold 32734 is 4 below twice 16369); and on the same income the
    couple never pays more income tax, surcharge, church tax or total than
    a single filer (exact arithmetic). *)
Theorem splitting_taxes_half_the_income_twice :
  forall (taxableIncome : Q) (church : bool),
    let couple := calculateGermanTax taxableIncome married church in
    let half := calculateGermanTax (taxableIncome / 2) single church in
    let alone := calculateGermanTax taxableIncome single church in
    incomeTax couple == 2 * incomeTax half
    /\ churchTax couple == 2 * churchTax half
    /\ 2 * solidarityTax half <= solidarityTax couple
    /\ solidarityTax couple <= 2 * solidarityTax half + (264 # 1000)
    /\ incomeTax couple <= incomeTax alone
    /\ solidarityTax couple <= solidarityTax alone
    /\ churchTax couple <= churchTax alone
    /\ totalTax couple <= totalTax alone.
Proof.
  intros x church couple half alone. unfold couple, half, alone. tax_cases.
  change (x / int 2)%js with (x / 2).
  pose proof (incomeTaxFormula_nonneg (x / 2)) as Hh0.
  pose proof (incomeTaxFormula_nonneg x) as Hx0.
  pose proof (incomeTaxFormula_splitting x) as Hsplit.
  set (fh := incomeTaxFormula (x / 2)) in *. clearbody fh.
  set (fx := incomeTaxFormula x) in *. clearbody fx.
  destruct church; q_unfold; repeat q_case_negb; q_consts;
    repeat (q_case; try (exfalso; lra));
    repeat split; lra.
Qed.

Close Scope Q_scope.

(** ** Heatmap colours on a proper range *)

Open Scope Q_scope.

(** [getColor] as a function of the normalised value. *)
Lemma getColor_by_normalized (value min max : Q) :
  getColor value min max
  = if Qle_bool (5 # 10) (normalized value min max)
    then rgb (RInt (Qfloor (255 * (1 - (normalized value min max - (5 # 10)) * 2) + (1 # 2))))
             (RInt 255)
    else rgb (RInt 255)
             (RInt (Qfloor (255 * normalized value min max * 2 + (1 # 2)))).
Proof.
  unfold getColor. cbv zeta. q_unfold. unfold Math_round. q_unfold.
  change (inject_Z 5 / inject_Z (10 ^ Z.of_nat 1)) with (5 # 10).
  destruct (Qle_bool (5 # 10) (normalized value min max)); reflexivity.
Qed.

Lemma normalized_bounds (value min max : Q) :
  min < max ->
  normalized min min max == 0
  /\ normalized max min max == 1
  /\ (min <= value <= max -> 0 <= normalized value min max <= 1).
Proof.
  intros Hmm. unfold normalized. q_unfold.
  assert (Hd : 0 < max - min) by lra.
  repeat split.
  - field. lra.
  - field. lra.
  - apply Qle_shift_div_l; [exact Hd|]. lra.
  - apply Qle_shift_div_r; [exact Hd|]. lra.
Qed.

(** X11.  On a range with [min < max], [getColor] paints the minimum
    "rgb(255, 0, 100)" and the maximum "rgb(0, 255, 100)", and every value
    in between gets integer red and green channels within 0..255, one of
    which is 255 (exact arithmetic). *)
Theorem getColor_runs_from_red_to_green :
  forall (min max : Q),
    min < max ->
    getColor min min max = "rgb(255, 0, 100)"%string
    /\ getColor max min max = "rgb(0, 255, 100)"%string
    /\ forall value,
         min <= value <= max ->
         exists red green,
           getColor value min max = rgb (RInt red) (RInt green)
           /\ (0 <= red <= 255)%Z /\ (0 <= green <= 255)%Z
           /\ (red = 255 \/ green = 255)%Z.
Proof.
  intros min max Hmm.
  destruct (normalized_bounds min Hmm) as (Hlo & Hhi & _).
  repeat split.
  - rewrite getColor_by_normalized.
    destruct (Qle_bool (5 # 10) (normalized min min max)) eqn:E.
    + apply Qle_bool_iff in E. rewrite Hlo in E. lra.
    + rewrite Hlo. reflexivity.
  - rewrite getColor_by_normalized.
    destruct (Qle_bool (5 # 10) (normalized max min max)) eqn:E.
    + rewrite Hhi. reflexivity.
    + apply not_true_iff_false in E. rewrite Qle_bool_iff in E.
      exfalso. apply E. rewrite Hhi. lra.
  - intros value Hv.
    destruct (normalized_bounds value Hmm) as (_ & _ & Hn). specialize (Hn Hv).
    rewrite getColor_by_normalized.
    set (n := normalized value min max) in *. clearbody n.
    destruct (Qle_bool (5 # 10) n) eqn:E.
    + apply Qle_bool_iff in E.
      exists (Qfloor (255 * (1 - (n - (5 # 10)) * 2) + (1 # 2))), 255%Z.
      split; [reflexivity|]. split; [|split; [lia|right; reflexivity]].
      split.
      * apply (Qfloor_resp_le 0). lra.
      * apply (fun x H => @Qfloor_resp_le x (255 + (1 # 2)) H). lra.
    + apply not_true_iff_false in E. rewrite Qle_bool_iff in E. apply Qnot_le_lt in E.
      exists 255%Z, (Qfloor (255 * n * 2 + (1 # 2))).
      split; [reflexivity|]. split; [lia|split; [|left; reflexivity]].
      split.
      * apply (Qfloor_resp_le 0). lra.
      * apply (fun x H => @Qfloor_resp_le x (255 + (1 # 2)) H). lra.
Qed.

Lemma getColor_runs_from_red_to_green_0_10 :
  getColor (0 : Q) 0 10 = "rgb(255, 0, 100)"%string
  /\ getColor (10 : Q) 0 10 = "rgb(0, 255, 100)"%string.
Proof.
  destruct (@getColor_runs_from_red_to_green 0 10) as (Hlo & Hhi & _).
  - reflexivity.
  - split; [exact Hlo|exact Hhi].
Defined.

Close Scope Q_scope.

(** ** The sweeps at a metric beyond the horizon *)

Section BeyondTheHorizon.
Context {num : Type} `{JSNumber num}.

Lemma getMetricValue_beyond h (inputs : PropertyInputs num) metric years :
  (years < markOf metric years)%nat ->
  getMetricValue metric years (calculateProjections h inputs years) = int 0.
Proof.
  intros Hy.
  unfold getMetricValue, calculateProjections. cbv zeta.
  cbn [summary irr10Year irr20Year irr40Year totalCashFlow10Year totalCashFlow20Year
       totalCashFlow40Year netWorth10Year netWorth20Year netWorth40Year].
  pose proof (projectionLoop_records h inputs years 0 (int 0) (int 0) []) as Hrec.
  assert (Hlen : List.length (projectionLoop h inputs years 0 (int 0) (int 0) []) = years).
  { rewrite Hrec. cbn [app]. apply recordsFrom_length. }
  set (data := projectionLoop h inputs years 0 (int 0) (int 0) []) in *. clearbody data.
  unfold markOf in Hy.
  destruct metric;
    repeat match goal with
           | |- context [(years =? ?c)%nat] => destruct (Nat.eqb_spec years c)
           | H : context [(years =? ?c)%nat] |- _ => destruct (Nat.eqb_spec years c)
           end;
    first [ apply irrAt_beyond; rewrite length_map; try rewrite length_firstn; lia
          | apply fieldOrZero_beyond; lia ].
Qed.

Lemma tornadoItem_beyond h (inputs : PropertyInputs num) metric years v :
  (years < markOf metric years)%nat ->
  tornadoItem h metric inputs years
    (getMetricValue metric years (calculateProjections h inputs years)) v
  = zeroRow v.
Proof.
  intros Hy. unfold tornadoItem, zeroRow. cbv zeta.
  now rewrite !getMetricValue_beyond by exact Hy.
Qed.

Lemma heatmapCell_beyond h (inputs : PropertyInputs num) vx vy kx ky metric years i j :
  (years < markOf metric years)%nat ->
  c_value (heatmapCell h vx vy kx ky metric inputs years i j) = int 0.
Proof.
  intros Hy. unfold heatmapCell. cbv zeta. cbn [c_value].
  now apply getMetricValue_beyond.
Qed.
End BeyondTheHorizon.

(** X13.  When the chosen metric is read at a mark beyond the horizon (the
    default metric [irr20] at a 10-year horizon, say), every tornado row is
    [0] at both ends with base [0], the rows stay in catalog order, and each
    of the eight bars gets the widths [0 / 0 * 100 = NaN] (binary64). *)
Theorem tornado_beyond_horizon_is_flat :
  forall (h : Host) (metric : Metric) (inputs : PropertyInputs float) (years : nat),
    (years < markOf metric years)%nat ->
    let rows := tornadoData h true metric inputs years in
    rows = map zeroRow (sensitivityVariables inputs)
    /\ Forall (fun bar => minWidthPercent bar = nan
                          /\ maxWidthPercent bar = nan
                          /\ shouldSwapColors bar = false)
              (tornadoBars rows)
    /\ List.length (tornadoBars rows) = 8%nat.
Proof.
  intros h metric inputs years Hy rows.
  assert (Hrows : rows = map zeroRow (sensitivityVariables inputs)).
  { unfold rows, tornadoData, tornadoOf. cbn [negb]. cbv zeta.
    rewrite (map_ext _ zeroRow) by (intros v; now apply tornadoItem_beyond).
    vm_compute. reflexivity. }
  split; [exact Hrows|]. rewrite Hrows.
  split; [|reflexivity].
  repeat constructor.
Qed.

Lemma tornado_beyond_horizon_is_flat_default_metric :
  let rows := tornadoData hostNov2026 true irr20 (defaultInputs (num := float)) 10 in
  rows = map zeroRow (sensitivityVariables defaultInputs)
  /\ Forall (fun bar => minWidthPercent bar = nan
                        /\ maxWidthPercent bar = nan
                        /\ shouldSwapColors bar = false)
            (tornadoBars rows)
  /\ List.length (tornadoBars rows) = 8%nat.
Proof.
  apply (@tornado_beyond_horizon_is_flat hostNov2026 irr20 defaultInputs 10).
  vm_compute. lia.
Defined.

Lemma spread_of_zeros (n : nat) :
  Math_min_spread (int 0 : float) (repeat (int 0) n) = int 0
  /\ Math_max_spread (int 0 : float) (repeat (int 0) n) = int 0.
Proof.
  unfold Math_min_spread, Math_max_spread.
  induction n as [|n [IHmin IHmax]]; [split; reflexivity|].
  cbn [repeat fold_left].
  change (Math_min (int 0 : float) (int 0)) with (int 0 : float).
  change (Math_max (int 0 : float) (int 0)) with (int 0 : float).
  split; assumption.
Qed.

Lemma all_zero_repeat (l : list float) :
  (forall v, In v l -> v = int 0) -> l = repeat (int 0) (List.length l).
Proof.
  induction l as [|a l IH]; intros Hall; [reflexivity|].
  cbn [List.length repeat]. f_equal.
  - apply Hall. now left.
  - apply IH. intros v Hv. apply Hall. now right.
Qed.

Lemma heatmapCellColor_flat (cells : list (HeatmapCell float)) (x y : Z) :
  (forall d, In d cells -> c_value d = int 0) ->
  (exists d, In d cells /\ c_x d = x /\ c_y d = y) ->
  heatmapCellColor cells x y = Some "rgb(NaN, 255, 100)"%string.
Proof.
  intros Hzero (d & Hin & Hx & Hy).
  unfold heatmapCellColor.
  destruct (find (fun d => (c_x d =? x)%Z && (c_y d =? y)%Z) cells) as [cell|] eqn:Hfind.
  - apply find_some in Hfind. destruct Hfind as [Hcell _].
    assert (Hvals : map (@c_value float) cells
                    = repeat (int 0) (List.length (map (@c_value float) cells))).
    { apply all_zero_repeat. intros v Hv. apply in_map_iff in Hv.
      destruct Hv as (c & <- & Hc). now apply Hzero. }
    rewrite Hvals.
    destruct (List.length (map (@c_value float) cells)) as [|n] eqn:Hlen.
    + destruct cells; [destruct Hin|discriminate Hlen].
    + cbn [repeat]. cbv zeta.
      destruct (spread_of_zeros n) as [-> ->].
      rewrite (Hzero cell Hcell). reflexivity.
  - pose proof (find_none _ _ Hfind d Hin) as Hd. cbn beta in Hd.
    rewrite Hx, Hy, !Z.eqb_refl in Hd. discriminate Hd.
Qed.

(** X14.  In the same situation all 25 heatmap cells carry [0], so every
    table cell is painted [getColor 0 0 0], the string "rgb(NaN, 255, 100)"
    (binary64). *)
Theorem heatmap_beyond_horizon_has_no_colour :
  forall (h : Host) (metric : Metric) (inputs : PropertyInputs float) (years : nat)
         (varX varY : SensitivityVariable float) (i j : nat),
    (years < markOf metric years)%nat ->
    In varX (sensitivityVariables inputs) ->
    In varY (sensitivityVariables inputs) ->
    (i < 5)%nat -> (j < 5)%nat ->
    let cells := heatmapData h true (sv_key varX) (sv_key varY) metric inputs years in
    (forall d, In d cells -> c_value d = 0%float)
    /\ heatmapCellColor cells (Z.of_nat j) (Z.of_nat i) = Some "rgb(NaN, 255, 100)"%string.
Proof.
  intros h metric inputs years varX varY i j Hy HX HY Hi Hj cells.
  assert (Hzero : forall d, In d cells -> c_value d = int 0).
  { intros d Hd. unfold cells in Hd. rewrite (heatmapData_cells h metric years HX HY) in Hd.
    apply in_flat_map in Hd. destruct Hd as (i' & _ & Hd).
    apply in_map_iff in Hd. destruct Hd as (j' & <- & _).
    now apply heatmapCell_beyond. }
  split; [exact Hzero|].
  apply heatmapCellColor_flat; [exact Hzero|].
  exists (heatmapCell h varX varY (sv_key varX) (sv_key varY) metric inputs years i j).
  split; [|split; reflexivity].
  unfold cells. rewrite (heatmapData_cells h metric years HX HY).
  apply in_flat_map. exists i. split; [apply in_seq; lia|].
  apply in_map_iff. exists j. split; [reflexivity|apply in_seq; lia].
Qed.

Lemma heatmap_beyond_horizon_has_no_colour_default_metric :
  heatmapCellColor
    (heatmapData hostNov2026 true k_interestRate k_rentIncreaseRate irr20
       (defaultInputs (num := float)) 10) 0 4
  = Some "rgb(NaN, 255, 100)"%string.
Proof.
  pose (blank := {| sv_name := EmptyString; sv_key := k_interestRate;
                    sv_min := int 0; sv_max := int 0; sv_step := int 0;
                    sv_unit := EmptyString; sv_currentValue := (int 0 : float) |}).
  apply (@heatmap_beyond_horizon_has_no_colour hostNov2026 irr20 defaultInputs 10
           (nth 0 (sensitivityVariables defaultInputs) blank)
           (nth 1 (sensitivityVariables defaultInputs) blank) 4 0).
  - vm_compute. lia.
  - left. reflexivity.
  - right. left. reflexivity.
  - lia.
  - lia.
Defined.

(** ** A heatmap with the same variable on both axes *)

Lemma setInput_overwrite {num : Type} (k : InputKey) (v w : num) (i : PropertyInputs num) :
  setInput k w (setInput k v i) = setInput k w i.
Proof. destruct k; reflexivity. Qed.

Section SameAxisTwice.
Context {num : Type} `{JSNumber num}.

(** X15.  When the same catalog variable is chosen for both axes, the second
    override wins: the cell of pass [(i, j)] carries the metric of the
    projection with that variable at the [i]-th test value, whatever [j]
    is, so each row of the table is constant. *)
Theorem heatmap_of_one_variable_has_constant_rows :
  forall (h : Host) (metric : Metric) (inputs : PropertyInputs num) (years : nat)
         (variable : SensitivityVariable num) (i j : nat),
    In variable (sensitivityVariables inputs) ->
    (i < 5)%nat -> (j < 5)%nat ->
    exists cell,
      nth_error (heatmapData h true (sv_key variable) (sv_key variable) metric inputs years)
                (5 * i + j) = Some cell
      /\ c_value cell
         = getMetricValue metric years
             (calculateProjections h
                (setInput (sv_key variable) (testValue variable i) inputs) years).
Proof.
  intros h metric inputs years variable i j Hv Hi Hj.
  rewrite (heatmapData_cells h metric years Hv Hv).
  rewrite (grid_nth _ Hi Hj). eexists. split; [reflexivity|].
  unfold heatmapCell. cbv zeta. cbn [c_value].
  now rewrite setInput_overwrite.
Qed.
End SameAxisTwice.

Lemma heatmap_of_one_variable_has_constant_rows_interest :
  let blank := {| sv_name := EmptyString; sv_key := k_interestRate;
                  sv_min := int 0; sv_max := int 0; sv_step := int 0;
                  sv_unit := EmptyString; sv_currentValue := (int 0 : float) |} in
  let variable := nth 0 (sensitivityVariables (defaultInputs (num := float))) blank in
  exists cell,
    nth_error (heatmapData hostNov2026 true (sv_key variable) (sv_key variable) cashflow
                 defaultInputs 10) (5 * 1 + 2) = Some cell
    /\ c_value cell
       = getMetricValue cashflow 10
           (calculateProjections hostNov2026
              (setInput (sv_key variable) (testValue variable 1) defaultInputs) 10).
Proof.
  intros blank variable.
  apply (@heatmap_of_one_variable_has_constant_rows float _ hostNov2026 cashflow
           defaultInputs 10 variable 1 2).
  - left. reflexivity.
  - lia.
  - lia.
Defined.

(** ** Order of the tornado rows and width of the bars *)

Open Scope Q_scope.

(** X12.  The tornado chart has one row per catalog variable (eight), each
    with the base metric as [baseValue] and [range = |maxImpact -
    minImpact|]; the rows are a rearrangement of the catalog's rows in
    descending order of [range] (exact arithmetic). *)
Theorem tornado_rows_fall_by_range :
  forall (h : Host) (metric : Metric) (inputs : PropertyInputs Q) (years : nat),
    let rows := tornadoData h true metric inputs years in
    let base := getMetricValue metric years (calculateProjections h inputs years) in
    Sorted (fun a b => range b <= range a) rows
    /\ Permutation rows
         (map (tornadoItem h metric inputs years base) (sensitivityVariables inputs))
    /\ List.length rows = 8%nat
    /\ (forall row, In row rows ->
          baseValue row = base
          /\ range row = Qabs (maxImpact row - minImpact row)).
Proof.
  intros h metric inputs years rows base.
  destruct (tornado_rows_descend_by_range (sensitivityVariables inputs) h metric inputs years)
    as [Hsorted Hperm].
  fold (tornadoData h true metric inputs years) in Hsorted, Hperm.
  fold rows in Hsorted, Hperm. fold base in Hperm.
  split; [exact Hsorted|]. split; [exact Hperm|]. split.
  - rewrite (Permutation_length Hperm), length_map. reflexivity.
  - intros row Hrow.
    apply (Permutation_in _ Hperm) in Hrow.
    apply in_map_iff in Hrow. destruct Hrow as (v & <- & _).
    split; reflexivity.
Qed.

Lemma Math_max_spread_upper (xs : list Q) :
  forall x, x <= Math_max_spread x xs
            /\ (forall y, In y xs -> y <= Math_max_spread x xs)
            /\ In (Math_max_spread x xs) (x :: xs).
Proof.
  unfold Math_max_spread.
  induction xs as [|a xs IH]; intros x; cbn [fold_left].
  - split; [apply Qle_refl|]. split; [intros y []|now left].
  - destruct (IH (Math_max x a)) as (Hm & Hall & Hin).
    assert (Hxa : x <= Math_max x a /\ a <= Math_max x a
                  /\ (Math_max x a = x \/ Math_max x a = a)).
    { q_unfold. destruct (Qle_bool x a) eqn:E.
      - apply Qle_bool_iff in E. split; [exact E|]. split; [apply Qle_refl|now right].
      - apply not_true_iff_false in E. rewrite Qle_bool_iff in E. apply Qnot_le_lt in E.
        split; [apply Qle_refl|]. split; [lra|now left]. }
    destruct Hxa as (Hx & Ha & Hor).
    split; [lra|]. split.
    + intros y [<-|Hy]; [lra|now apply Hall].
    + destruct Hin as [Hin|Hin].
      * rewrite <- Hin. destruct Hor as [->| ->]; [now left|right; now left].
      * right. now right.
Qed.

(** X16.  When some row differs from the base, every bar width of the tornado
    chart lies between 0 and 100 percent and some bar is exactly 100 percent
    wide (exact arithmetic). *)
Theorem tornado_bars_fill_at_most_the_track :
  forall (rows : list (TornadoItem Q)),
    (exists d, In d rows /\ 0 < absDelta d) ->
    Forall (fun bar => 0 <= minWidthPercent bar <= 100
                       /\ 0 <= maxWidthPercent bar <= 100)
           (tornadoBars rows)
    /\ Exists (fun bar => minWidthPercent bar == 100 \/ maxWidthPercent bar == 100)
              (tornadoBars rows)
    /\ List.length (tornadoBars rows) = List.length rows.
Proof.
  intros rows (d0 & Hd0 & Hpos).
  unfold tornadoBars.
  destruct (map (@absDelta Q _) rows) as [|x xs] eqn:Hmap.
  { destruct rows; [destruct Hd0|discriminate Hmap]. }
  destruct (Math_max_spread_upper xs x) as (Hx & Hall & Hin).
  set (M := Math_max_spread x xs) in *.
  assert (Hup : forall d, In d rows -> absDelta d <= M).
  { intros d Hd. apply (in_map (@absDelta Q _)) in Hd. rewrite Hmap in Hd.
    destruct Hd as [<-|Hd]; [exact Hx|now apply Hall]. }
  assert (HM : 0 < M) by (pose proof (Hup d0 Hd0); lra).
  assert (Hparts : forall d,
             0 <= Qabs (minImpact d - baseValue d) <= absDelta d
             /\ 0 <= Qabs (maxImpact d - baseValue d) <= absDelta d
             /\ (absDelta d = Qabs (minImpact d - baseValue d)
                 \/ absDelta d = Qabs (maxImpact d - baseValue d))).
  { intros d. unfold absDelta. q_unfold.
    pose proof (Qabs_nonneg (minImpact d - baseValue d)).
    pose proof (Qabs_nonneg (maxImpact d - baseValue d)).
    destruct (Qle_bool (Qabs (minImpact d - baseValue d))
                       (Qabs (maxImpact d - baseValue d))) eqn:E.
    - apply Qle_bool_iff in E. repeat split; try lra. now right.
    - apply not_true_iff_false in E. rewrite Qle_bool_iff in E. apply Qnot_le_lt in E.
      repeat split; try lra. now left. }
  assert (Hwidth : forall a, 0 <= a <= M -> 0 <= a / M * 100 <= 100).
  { intros a [Ha0 HaM].
    assert (0 <= a / M) by (apply Qle_shift_div_l; lra).
    assert (a / M <= 1) by (apply Qle_shift_div_r; lra).
    lra. }
  split; [|split].
  - apply Forall_forall. intros bar Hbar.
    apply in_map_iff in Hbar. destruct Hbar as (d & <- & Hd).
    cbv zeta. cbn [minWidthPercent maxWidthPercent]. q_unfold.
    destruct (Hparts d) as ((? & ?) & (? & ?) & _). pose proof (Hup d Hd).
    split; apply Hwidth; lra.
  - assert (Hattained : exists d, In d rows /\ absDelta d = M).
    { rewrite <- Hmap in Hin. apply in_map_iff in Hin.
      destruct Hin as (d & Hd & Hdin). now exists d. }
    destruct Hattained as (d & Hd & HdM).
    apply Exists_exists.
    eexists. split; [apply in_map; exact Hd|].
    cbv zeta. cbn [minWidthPercent maxWidthPercent]. q_unfold. fold M.
    destruct (Hparts d) as (_ & _ & [Hmin|Hmax]).
    + left. rewrite <- Hmin, HdM. unfold inject_Z. field. lra.
    + right. rewrite <- Hmax, HdM. unfold inject_Z. field. lra.
  - apply length_map.
Qed.

Lemma tornado_bars_fill_at_most_the_track_two_rows :
  let rows := [ {| t_variable := "Interest Rate"; minImpact := 12; maxImpact := 4;
                   baseValue := 9; range := 8 |};
                {| t_variable := "Vacancy Rate"; minImpact := 9; maxImpact := 7;
                   baseValue := 9; range := 2 |} ]%string in
  Forall (fun bar => 0 <= minWidthPercent bar <= 100 /\ 0 <= maxWidthPercent bar <= 100)
         (tornadoBars rows)
  /\ Exists (fun bar => minWidthPercent bar == 100 \/ maxWidthPercent bar == 100)
            (tornadoBars rows)
  /\ List.length (tornadoBars rows) = 2%nat.
Proof.
  intros rows.
  apply (@tornado_bars_fill_at_most_the_track rows).
  eexists. split; [left; reflexivity|]. vm_compute. reflexivity.
Defined.

Close Scope Q_scope.

(** ** Sessions with the scenario dialog *)

Section ScenarioSessions.
Context {num : Type} `{JSNumber num}.
Variable isBlank : string -> bool.

Lemma Array_spread_dense (A : Type) (l : list (Slot A)) :
  forallb isElem l = true -> Array_spread l = l.
Proof.
  induction l as [|s l IH]; intros Hl; [reflexivity|].
  cbn in Hl. apply andb_prop in Hl. destruct Hl as [Hs Hl].
  unfold Array_spread in *. cbn [map]. rewrite IH by exact Hl.
  destruct s; [discriminate Hs|discriminate Hs|reflexivity].
Qed.

Lemma Array_assign_dense (A : Type) (x : A) (l : list (Slot A)) :
  forall i, (i < List.length l)%nat ->
            forallb isElem l = true ->
            forallb isElem (Array_assign l i x) = true
            /\ List.length (Array_assign l i x) = List.length l.
Proof.
  induction l as [|s l IH]; intros i Hi Hl; [cbn in Hi; lia|].
  cbn in Hl. apply andb_prop in Hl. destruct Hl as [Hs Hl].
  destruct i as [|i]; cbn.
  - now rewrite Hl.
  - destruct (IH i ltac:(cbn in Hi; lia) Hl) as [Hd Hn].
    now rewrite Hs, Hd, Hn.
Qed.

Lemma Array_filterIndex_dense (A : Type) (keep : nat -> bool) (l : list (Slot A)) :
  forall i, forallb isElem l = true ->
            forallb isElem (Array_filterIndex keep i l) = true.
Proof.
  induction l as [|s l IH]; intros i Hl; [reflexivity|].
  cbn in Hl. apply andb_prop in Hl. destruct Hl as [Hs Hl].
  destruct s; try discriminate Hs. cbn.
  destruct (keep i); cbn; now rewrite ?IH.
Qed.

Lemma Array_get_dense (A : Type) (l : list (Slot A)) (i : nat) :
  forallb isElem l = true -> (i < List.length l)%nat ->
  exists a, Array_get l i = Some a.
Proof.
  revert i. induction l as [|s l IH]; intros i Hl Hi; [cbn in Hi; lia|].
  cbn in Hl. apply andb_prop in Hl. destruct Hl as [Hs Hl].
  destruct i as [|i].
  - destruct s; try discriminate Hs. now eexists.
  - apply (IH i Hl). cbn in Hi. lia.
Qed.

Lemma handle_keeps_wellFormed inputs e (s : UIState num) :
  wellFormed s ->
  offered e s = true ->
  exists s', wellFormed s'
             /\ (handle isBlank inputs e s = Done s'
                 \/ exists message, handle isBlank inputs e s = Alert message s').
Proof.
  intros [(rest & Hsc & Hrest) Hedit] Hoff.
  assert (Hdense : forallb isElem (scenarios s) = true) by (rewrite Hsc; exact Hrest).
  destruct e as [type|index|index| |value|type|key value|key|]; cbn [handle offered] in *.
  - (* ClickAdd *)
    eexists. split; [|left; reflexivity].
    destruct type as [type|]; (split; [exists rest; now split|exact I]).
  - (* ClickEdit *)
    apply andb_prop in Hoff. destruct Hoff as [Hoff Hlt].
    apply andb_prop in Hoff. destruct Hoff as [Hclosed Hpos].
    apply Nat.ltb_lt in Hlt, Hpos.
    unfold editScenario.
    destruct (Nat.eqb_spec index 0) as [->|_]; [lia|].
    destruct (Array_get_dense (scenarios s) Hdense Hlt) as (scenario & ->).
    eexists. split; [|left; reflexivity].
    split; [exists rest; now split|]. cbn. split; [lia|reflexivity].
  - (* ClickRemove *)
    apply andb_prop in Hoff. destruct Hoff as [Hoff Hlt].
    apply andb_prop in Hoff. destruct Hoff as [Hclosed Hpos].
    apply Nat.ltb_lt in Hpos. apply negb_true_iff in Hclosed.
    eexists. split; [|left; reflexivity].
    unfold removeScenario.
    destruct (Nat.eqb_spec index 0) as [->|Hne]; [lia|].
    split; cbn [scenarios editingScenarioIndex showScenarioDialog].
    + rewrite Hsc. cbn [Array_filterIndex].
      destruct index as [|index]; [lia|]. cbn [Nat.eqb negb].
      eexists. split; [reflexivity|]. now apply Array_filterIndex_dense.
    + destruct (editingScenarioIndex s) as [j|]; [|exact I].
      destruct Hedit as [_ Hopen]. rewrite Hopen in Hclosed. discriminate Hclosed.
  - (* ClickClose *)
    eexists. split; [|left; reflexivity].
    split; [exists rest; now split|exact I].
  - (* TypeName *)
    eexists. split; [|left; reflexivity].
    split; [exists rest; now split|exact Hedit].
  - (* SelectType *)
    eexists. split; [|left; reflexivity].
    split; [exists rest; now split|exact Hedit].
  - (* MoveSlider *)
    eexists. split; [|left; reflexivity].
    unfold handleCustomAdjustment.
    match goal with |- context [if ?c then _ else _] => destruct c end;
      (split; [exists rest; now split|exact Hedit]).
  - (* ClickReset *)
    eexists. split; [|left; reflexivity].
    split; [exists rest; now split|exact Hedit].
  - (* ClickSubmit *)
    unfold addScenario.
    destruct (isBlank (newScenarioName s)).
    { exists s. split; [|right; eexists; reflexivity].
      split; [exists rest; now split|exact Hedit]. }
    match goal with |- context [if ?c then _ else _] => destruct c end.
    { exists s. split; [|right; eexists; reflexivity].
      split; [exists rest; now split|exact Hedit]. }
    eexists. split; [|left; reflexivity].
    split; [|exact I]. cbn [scenarios].
    rewrite (Array_spread_dense _ Hdense).
    destruct (editingScenarioIndex s) as [index|].
    + destruct Hedit as [[Hpos Hlt] _].
      rewrite Hsc in *. destruct index as [|index]; [lia|].
      cbn [Array_assign]. eexists. split; [reflexivity|].
      apply Array_assign_dense; [cbn in Hlt; lia|exact Hrest].
    + rewrite Hsc. cbn [app]. eexists. split; [reflexivity|].
      rewrite forallb_app, Hrest. reflexivity.
Qed.

Lemma run_keeps_wellFormed session :
  forall s : UIState num,
    wellFormed s -> exists s', run isBlank session s = Done s' /\ wellFormed s'.
Proof.
  induction session as [|[inputs e] session IH]; intros s Hs; cbn [run].
  - now exists s.
  - destruct (offered e s) eqn:Hoff; [|now apply IH].
    destruct (handle_keeps_wellFormed inputs e Hs Hoff) as (s' & Hs' & [-> | (m & ->)]);
      now apply IH.
Qed.

Lemma mapScenarios_dense h (inputs : PropertyInputs num) years
    (l : list (Slot (Scenario num))) :
  forallb isElem l = true ->
  exists ps, mapScenarios h inputs years l = Some ps
             /\ forallb isElem ps = true
             /\ List.length ps = List.length l.
Proof.
  induction l as [|s l IH]; intros Hl; [now exists []|].
  cbn in Hl. apply andb_prop in Hl. destruct Hl as [Hs Hl].
  destruct s as [| |scenario]; try discriminate Hs.
  destruct (IH Hl) as (ps & Hps & Hd & Hn).
  cbn [mapScenarios]. cbv zeta. rewrite Hps. cbn [option_map].
  eexists. split; [reflexivity|]. cbn. now rewrite Hd, Hn.
Qed.

(** X17.  In every session that starts from the initial state and in which
    the Add, Edit and Remove buttons of the page are used only while the
    dialog, which overlays the page, is closed ([offered]), no handler
    throws; the scenario list keeps the base scenario in front, unchanged,
    and never gets a hole or an [undefined] entry; an edit index always
    points at a listed scenario other than the base; and
    [scenarioProjections] returns one projection per scenario, the first
    being the base projection. *)
Theorem scenario_sessions_never_break_the_list :
  forall (session : list (PropertyInputs num * Event)),
  exists s,
    run isBlank session initialUIState = Done s
    /\ wellFormed s
    /\ forall (h : Host) (inputs : PropertyInputs num) (years : nat),
       exists ps,
         scenarioProjections h true inputs (scenarios s) years
         = Some (Elem (calculateProjections h inputs years) :: ps)
         /\ forallb isElem ps = true
         /\ S (List.length ps) = List.length (scenarios s).
Proof.
  intros session.
  assert (Hinit : wellFormed (initialUIState (num := num))).
  { split; [exists []; now split|exact I]. }
  destruct (run_keeps_wellFormed session Hinit) as (s & Hrun & Hs).
  exists s. split; [exact Hrun|]. split; [exact Hs|].
  intros h inputs years.
  destruct Hs as [(rest & Hsc & Hrest) _].
  destruct (mapScenarios_dense h inputs years rest Hrest) as (ps & Hps & Hd & Hn).
  exists ps. unfold scenarioProjections. cbn [negb].
  rewrite Hsc. cbn [mapScenarios]. cbv zeta. rewrite Hps.
  cbn [option_map baseScenario sc_variables applyAdjustments fold_left List.length].
  split; [reflexivity|]. split; [exact Hd|]. now rewrite Hn.
Qed.
End ScenarioSessions.

(** ** Preset dialogs, and Edit followed by Update *)

Section PresetDialogs.
Context {num : Type} `{JSNumber num}.
Variable isBlank : string -> bool.

Lemma tweaks_keep_the_dialog (tweaks : list (PropertyInputs num * Event)) :
  forallb (fun ie => isTweak (snd ie)) tweaks = true ->
  forall (s : UIState num) rest,
    showScenarioDialog s = true ->
    exists s',
      run isBlank (tweaks ++ rest) s = run isBlank rest s'
      /\ scenarios s' = scenarios s
      /\ showScenarioDialog s' = true
      /\ newScenarioName s' = newScenarioName s
      /\ newScenarioType s' = newScenarioType s
      /\ editingScenarioIndex s' = editingScenarioIndex s.
Proof.
  induction tweaks as [|[inputs e] tweaks IH]; intros Htw s rest Hopen.
  - exists s. repeat split; assumption.
  - cbn [forallb snd] in Htw. apply andb_prop in Htw. destruct Htw as [He Htw].
    cbn [app run].
    destruct e; try discriminate He; cbn [offered handle]; rewrite Hopen.
    + unfold handleCustomAdjustment.
      match goal with |- context [if ?c then _ else _] => destruct c end.
      * apply (IH Htw s rest Hopen).
      * match goal with |- context [run _ _ ?s1] =>
          destruct (IH Htw s1 rest Hopen) as (s' & Hrun & ? & ? & ? & ? & ?)
        end.
        exists s'. repeat split; assumption.
    + match goal with |- context [run _ _ ?s1] =>
        destruct (IH Htw s1 rest Hopen) as (s' & Hrun & ? & ? & ? & ? & ?)
      end.
      exists s'. repeat split; assumption.
Qed.

(** X18.  A preset dialog saves the preset, not what the user adjusted in
    it: after "Add Optimistic Scenario" (or Pessimistic), any number of
    slider moves and resets, and "Add Scenario", the list has one more
    scenario, named after the preset, whose variables are
    [getPresetAdjustments] of the inputs at that moment and whose colour is
    that of its index; the dialog is closed and emptied. *)
Theorem preset_scenario_ignores_dialog_adjustments :
  forall (s : UIState num) (type : ScenarioType)
         (opened submitted : PropertyInputs num)
         (tweaks : list (PropertyInputs num * Event)),
    wellFormed s ->
    showScenarioDialog s = false ->
    isPreset type = true ->
    isBlank (presetName type) = false ->
    forallb (fun ie => isTweak (snd ie)) tweaks = true ->
    exists s',
      run isBlank ((opened, ClickAdd (Some type)) :: tweaks ++ [(submitted, ClickSubmit)]) s
      = Done s'
      /\ scenarios s'
         = scenarios s
           ++ [Elem {| sc_name := presetName type;
                       sc_variables := getPresetAdjustments submitted type;
                       sc_color := getScenarioColor (List.length (scenarios s)) |}]
      /\ showScenarioDialog s' = false
      /\ customAdjustments s' = [].
Proof.
  intros s type opened submitted tweaks [(rest & Hsc & Hrest) _] Hclosed Htype Hname Htw.
  cbn [run offered handle]. rewrite Hclosed. cbn [negb].
  set (s1 := openScenarioDialog opened (Some type) s).
  destruct (tweaks_keep_the_dialog tweaks Htw s1 [(submitted, ClickSubmit)] eq_refl)
    as (s2 & -> & Hsc2 & Hopen2 & Hname2 & Htype2 & Hedit2).
  cbn [run offered handle]. rewrite Hopen2.
  unfold addScenario. rewrite Hname2, Htype2, Hedit2, Hsc2.
  cbn [s1 openScenarioDialog newScenarioName newScenarioType editingScenarioIndex scenarios].
  fold (presetName type). rewrite Hname.
  assert (Hdense : forallb isElem (scenarios s) = true) by (rewrite Hsc; exact Hrest).
  rewrite (Array_spread_dense _ Hdense).
  destruct type; [| |discriminate Htype]; cbn [andb Nat.eqb List.length getPresetAdjustments];
    eexists; (split; [reflexivity|]); repeat split.
Qed.
End PresetDialogs.

Lemma preset_scenario_ignores_dialog_adjustments_optimistic :
  let isBlank := fun name => match name with EmptyString => true | _ => false end in
  exists s',
    run isBlank
      ((defaultInputs (num := float), ClickAdd (Some optimistic))
         :: [(defaultInputs, MoveSlider k_interestRate (int 3));
             (defaultInputs, ClickReset k_vacancyRate)]
         ++ [(defaultInputs, ClickSubmit)]) initialUIState
    = Done s'
    /\ scenarios s'
       = scenarios initialUIState
         ++ [Elem {| sc_name := presetName optimistic;
                     sc_variables := getPresetAdjustments defaultInputs optimistic;
                     sc_color := getScenarioColor (List.length (scenarios (initialUIState (num := float)))) |}]
    /\ showScenarioDialog s' = false
    /\ customAdjustments s' = [].
Proof.
  intros isBlank.
  apply (@preset_scenario_ignores_dialog_adjustments float _ isBlank initialUIState optimistic).
  - split; [exists []; split; reflexivity|exact I].
  - reflexivity.
  - reflexivity.
  - reflexivity.
  - reflexivity.
Defined.

Section EditAndUpdate.
Context {num : Type} `{JSNumber num}.
Variable isBlank : string -> bool.

Lemma Array_get_nth_error (A : Type) (l : list (Slot A)) (i : nat) (a : A) :
  Array_get l i = Some a -> nth_error l i = Some (Elem a).
Proof.
  unfold Array_get. destruct (nth_error l i) as [[| |b]|]; try discriminate.
  now intros [= ->].
Qed.

Lemma update_after_edit (s : UIState num) (index : nat) (scenario : Scenario num)
    (opened submitted : PropertyInputs num) (rest : list (PropertyInputs num * Event)) :
  wellFormed s ->
  showScenarioDialog s = false ->
  (0 < index)%nat ->
  Array_get (scenarios s) index = Some scenario ->
  isBlank (sc_name scenario) = false ->
  (newScenarioType s = custom -> sc_variables scenario <> []) ->
  exists s',
    run isBlank ((opened, ClickEdit index) :: (submitted, ClickSubmit) :: rest) s
    = run isBlank rest s'
    /\ scenarios s'
       = Array_assign (scenarios s) index
           {| sc_name := sc_name scenario;
              sc_variables :=
                match newScenarioType s with
                | custom => sc_variables scenario
                | preset => getPresetAdjustments submitted preset
                end;
              sc_color := getScenarioColor (List.length (scenarios s)) |}
    /\ showScenarioDialog s' = false
    /\ newScenarioType s' = custom
    /\ editingScenarioIndex s' = None.
Proof.
  intros [(others & Hsc & Hothers) _] Hclosed Hpos Hget Hname Hvars.
  assert (Hdense : forallb isElem (scenarios s) = true) by (rewrite Hsc; exact Hothers).
  assert (Hlt : (index < List.length (scenarios s))%nat).
  { apply Array_get_nth_error in Hget. apply nth_error_Some. now rewrite Hget. }
  cbn [run offered handle]. rewrite Hclosed. cbn [negb andb].
  apply Nat.ltb_lt in Hpos as Hpos'. apply Nat.ltb_lt in Hlt as Hlt'.
  rewrite Hpos', Hlt'. cbn [andb].
  unfold editScenario. destruct (Nat.eqb_spec index 0) as [->|_]; [lia|].
  rewrite Hget. cbn [run offered handle showScenarioDialog].
  unfold addScenario.
  cbn [newScenarioName newScenarioType customAdjustments editingScenarioIndex scenarios].
  rewrite Hname, (Array_spread_dense _ Hdense).
  destruct (newScenarioType s) eqn:Htype.
  - cbn [andb Nat.eqb List.length getPresetAdjustments].
    eexists. split; [reflexivity|]. repeat split.
  - cbn [andb Nat.eqb List.length getPresetAdjustments].
    eexists. split; [reflexivity|]. repeat split.
  - destruct (sc_variables scenario) as [|kv kvs] eqn:Hv; [now destruct (Hvars eq_refl)|].
    cbn [andb Nat.eqb List.length].
    eexists. split; [reflexivity|]. repeat split.
Qed.

(** X19.  Edit followed by Update rewrites the scenario in place with its
    name, the colour of index [scenarios.length] (not its own), and the
    variables the dialog type calls for: its own for type custom, the
    preset's for a preset type.  [editScenario] does not set the type and
    closing the dialog does not reset it, so after a cancelled preset dialog
    Edit and Update replace the variables of the edited scenario by the
    preset. *)
Theorem update_saves_what_the_dialog_type_says :
  forall (s : UIState num) (index : nat) (scenario : Scenario num) (type : ScenarioType)
         (i1 i2 i3 i4 : PropertyInputs num),
    wellFormed s ->
    showScenarioDialog s = false ->
    (0 < index)%nat ->
    Array_get (scenarios s) index = Some scenario ->
    isBlank (sc_name scenario) = false ->
    (newScenarioType s = custom -> sc_variables scenario <> []) ->
    isPreset type = true ->
    (exists s',
        run isBlank [(i3, ClickEdit index); (i4, ClickSubmit)] s = Done s'
        /\ scenarios s'
           = Array_assign (scenarios s) index
               {| sc_name := sc_name scenario;
                  sc_variables :=
                    match newScenarioType s with
                    | custom => sc_variables scenario
                    | preset => getPresetAdjustments i4 preset
                    end;
                  sc_color := getScenarioColor (List.length (scenarios s)) |})
    /\ (exists s',
           run isBlank [(i1, ClickAdd (Some type)); (i2, ClickClose);
                        (i3, ClickEdit index); (i4, ClickSubmit)] s = Done s'
           /\ scenarios s'
              = Array_assign (scenarios s) index
                  {| sc_name := sc_name scenario;
                     sc_variables := getPresetAdjustments i4 type;
                     sc_color := getScenarioColor (List.length (scenarios s)) |}).
Proof.
  intros s index scenario type i1 i2 i3 i4 Hs Hclosed Hpos Hget Hname Hvars Htype.
  split.
  - destruct (update_after_edit i3 i4 [] Hs Hclosed Hpos Hget Hname Hvars)
      as (s' & Hrun & Hsc & _).
    exists s'. split; [exact Hrun|exact Hsc].
  - cbn [run offered handle]. rewrite Hclosed. cbn [negb showScenarioDialog openScenarioDialog].
    set (s2 := closeScenarioDialog (openScenarioDialog i1 (Some type) s)).
    assert (Hs2 : wellFormed s2).
    { destruct Hs as [(others & Hsc & Hothers) _].
      split; [exists others; now split|exact I]. }
    assert (Htype2 : newScenarioType s2 = type) by reflexivity.
    destruct (@update_after_edit s2 index scenario i3 i4 [] Hs2 eq_refl Hpos Hget Hname)
      as (s' & Hrun & Hsc & _).
    { rewrite Htype2. intros ->. discriminate Htype. }
    exists s'. split; [exact Hrun|].
    rewrite Hsc, Htype2. cbn [s2 closeScenarioDialog openScenarioDialog scenarios].
    destruct type; [reflexivity|reflexivity|discriminate Htype].
Qed.
End EditAndUpdate.

Lemma update_saves_what_the_dialog_type_says_high_interest :
  let isBlank := fun name => match name with EmptyString => true | _ => false end in
  let scenario := {| sc_name := "High Interest";
                     sc_variables := [(k_interestRate, (int 5 : float))];
                     sc_color := "#10b981" |} in
  let s := {| scenarios := [Elem baseScenario; Elem scenario];
              showScenarioDialog := false;
              newScenarioName := EmptyString;
              newScenarioType := custom;
              editingScenarioIndex := None;
              customAdjustments := [] |} in
  (exists s',
      run isBlank [(defaultInputs, ClickEdit 1); (defaultInputs, ClickSubmit)] s = Done s'
      /\ scenarios s'
         = Array_assign (scenarios s) 1
             {| sc_name := "High Interest";
                sc_variables := [(k_interestRate, int 5)];
                sc_color := getScenarioColor 2 |})
  /\ (exists s',
         run isBlank [(defaultInputs, ClickAdd (Some optimistic)); (defaultInputs, ClickClose);
                      (defaultInputs, ClickEdit 1); (defaultInputs, ClickSubmit)] s = Done s'
         /\ scenarios s'
            = Array_assign (scenarios s) 1
                {| sc_name := "High Interest";
                   sc_variables := getPresetAdjustments defaultInputs optimistic;
                   sc_color := getScenarioColor 2 |}).
Proof.
  intros isBlank scenario s.
  apply (@update_saves_what_the_dialog_type_says float _ isBlank s 1 scenario optimistic
           defaultInputs defaultInputs defaultInputs defaultInputs).
  - split; [exists [Elem scenario]; split; reflexivity|exact I].
  - reflexivity.
  - lia.
  - reflexivity.
  - reflexivity.
  - intros _. discriminate.
  - reflexivity.
Defined.

(** ** Adjustment objects and the inputs of a scenario *)

Section AdjustmentLaws.
Context {num : Type}.

Lemma adjSet_keys_in (k : InputKey) (v : num) (a : Adjustments num) (k' : InputKey) :
  In k' (map fst (adjSet k v a)) -> k' = k \/ In k' (map fst a).
Proof.
  induction a as [|[k0 v0] a IH]; cbn [adjSet map fst In].
  - intros [<-|[]]. now left.
  - destruct (InputKey_eqb k0 k) eqn:E; cbn [map fst In].
    + intros [<-|Hin]; right; [now left|now right].
    + intros [<-|Hin]; [right; now left|].
      destruct (IH Hin) as [->|Hin']; [now left|right; now right].
Qed.

Lemma adjDelete_keys_in (k : InputKey) (a : Adjustments num) (k' : InputKey) :
  In k' (map fst (adjDelete k a)) -> In k' (map fst a) /\ k' <> k.
Proof.
  induction a as [|[k0 v0] a IH]; cbn [adjDelete map fst In]; [intros []|].
  destruct (InputKey_eqb k0 k) eqn:E; cbn [map fst In].
  - intros Hin. destruct (IH Hin) as [Hin' Hne]. split; [now right|exact Hne].
  - intros [<-|Hin].
    + split; [now left|]. intros ->. rewrite (proj2 (InputKey_eqb_eq k k) eq_refl) in E.
      discriminate E.
    + destruct (IH Hin) as [Hin' Hne]. split; [now right|exact Hne].
Qed.

(** X20.  The adjustments object behaves as a finite map: after
    [{ ...a, [k]: v }] the key [k] reads [v], after [delete a[k]] it is
    absent, every other key reads as before, and keys stay distinct. *)
Theorem adjustments_behave_as_a_map :
  forall (k k' : InputKey) (v : num) (a : Adjustments num),
    adjLookup k (adjSet k v a) = Some v
    /\ adjLookup k (adjDelete k a) = None
    /\ (k' <> k ->
        adjLookup k' (adjSet k v a) = adjLookup k' a
        /\ adjLookup k' (adjDelete k a) = adjLookup k' a)
    /\ (NoDup (map fst a) ->
        NoDup (map fst (adjSet k v a)) /\ NoDup (map fst (adjDelete k a))).
Proof.
  intros k k' v a.
  assert (Hrefl : forall x, InputKey_eqb x x = true)
    by (intros x; now apply InputKey_eqb_eq).
  split; [|split; [|split]].
  - induction a as [|[k0 v0] a IH]; cbn [adjSet adjLookup].
    + now rewrite Hrefl.
    + destruct (InputKey_eqb k0 k) eqn:E; cbn [adjLookup]; now rewrite E.
  - induction a as [|[k0 v0] a IH]; cbn [adjDelete adjLookup]; [reflexivity|].
    destruct (InputKey_eqb k0 k) eqn:E; cbn [adjLookup]; [exact IH|now rewrite E].
  - intros Hne. split.
    + induction a as [|[k0 v0] a IH]; cbn [adjSet adjLookup].
      * rewrite InputKey_eqb_neq; [reflexivity|]. intros ->. now apply Hne.
      * destruct (InputKey_eqb k0 k) eqn:E; cbn [adjLookup].
        -- apply InputKey_eqb_eq in E. subst k0.
           rewrite InputKey_eqb_neq; [reflexivity|]. intros ->. now apply Hne.
        -- now rewrite IH.
    + induction a as [|[k0 v0] a IH]; cbn [adjDelete adjLookup]; [reflexivity|].
      destruct (InputKey_eqb k0 k) eqn:E; cbn [adjLookup].
      * apply InputKey_eqb_eq in E. subst k0.
        rewrite InputKey_eqb_neq; [exact IH|]. intros ->. now apply Hne.
      * now rewrite IH.
  - intros Hnd. split.
    + induction a as [|[k0 v0] a IH]; cbn [adjSet map fst].
      * constructor; [intros []|constructor].
      * cbn [map fst] in Hnd. inversion Hnd as [|? ? Hnotin Hnd']; subst.
        destruct (InputKey_eqb k0 k) eqn:E; cbn [map fst].
        -- constructor; assumption.
        -- constructor; [|now apply IH].
           intros Hin. apply adjSet_keys_in in Hin. destruct Hin as [->|Hin].
           ++ rewrite Hrefl in E. discriminate E.
           ++ now apply Hnotin.
    + induction a as [|[k0 v0] a IH]; cbn [adjDelete map fst]; [constructor|].
      cbn [map fst] in Hnd. inversion Hnd as [|? ? Hnotin Hnd']; subst.
      destruct (InputKey_eqb k0 k) eqn:E; cbn [map fst]; [now apply IH|].
      constructor; [|now apply IH].
      intros Hin. apply adjDelete_keys_in in Hin. now apply Hnotin.
Qed.

Lemma applyAdjustments_untouched (a : Adjustments num) :
  forall (inputs : PropertyInputs num) (k : InputKey),
    ~ In k (map fst a) ->
    getInput k (applyAdjustments inputs a) = getInput k inputs.
Proof.
  unfold applyAdjustments.
  induction a as [|[k0 v0] a IH]; intros inputs k Hk; cbn [fold_left fst snd]; [reflexivity|].
  cbn [map fst In] in Hk.
  rewrite IH by (intros Hin; apply Hk; now right).
  rewrite setInput_getInput, InputKey_eqb_neq; [reflexivity|].
  intros ->. apply Hk. now left.
Qed.

Lemma applyAdjustments_status (a : Adjustments num) :
  forall inputs : PropertyInputs num,
    maritalStatus (applyAdjustments inputs a) = maritalStatus inputs
    /\ churchTaxLiability (applyAdjustments inputs a) = churchTaxLiability inputs.
Proof.
  unfold applyAdjustments.
  induction a as [|[k0 v0] a IH]; intros inputs; cbn [fold_left fst snd]; [now split|].
  destruct (IH (setInput k0 v0 inputs)) as [-> ->].
  destruct k0; now split.
Qed.

(** X21.  The inputs of a scenario, [{ ...inputs, ...variables }], read the
    scenario's value at every key it adjusts and the base input everywhere
    else; marital status and church tax liability are those of the base. *)
Theorem scenario_inputs_override_the_base :
  forall (inputs : PropertyInputs num) (a : Adjustments num) (k : InputKey),
    NoDup (map fst a) ->
    getInput k (applyAdjustments inputs a)
    = match adjLookup k a with
      | Some v => v
      | None => getInput k inputs
      end
    /\ maritalStatus (applyAdjustments inputs a) = maritalStatus inputs
    /\ churchTaxLiability (applyAdjustments inputs a) = churchTaxLiability inputs.
Proof.
  intros inputs a k Hnd. split; [|apply applyAdjustments_status].
  revert inputs. induction a as [|[k0 v0] a IH]; intros inputs; [reflexivity|].
  cbn [map fst] in Hnd. inversion Hnd as [|? ? Hnotin Hnd']; subst.
  cbn [adjLookup]. destruct (InputKey_eqb k0 k) eqn:E.
  - apply InputKey_eqb_eq in E. subst k0.
    change (applyAdjustments inputs ((k, v0) :: a))
      with (applyAdjustments (setInput k v0 inputs) a).
    rewrite applyAdjustments_untouched by exact Hnotin.
    rewrite setInput_getInput.
    now rewrite (proj2 (InputKey_eqb_eq k k) eq_refl).
  - change (applyAdjustments inputs ((k0, v0) :: a))
      with (applyAdjustments (setInput k0 v0 inputs) a).
    rewrite (IH Hnd'). destruct (adjLookup k a); [reflexivity|].
    now rewrite setInput_getInput, E.
Qed.
End AdjustmentLaws.

Lemma adjustments_behave_as_a_map_vacancy :
  let a := [(k_interestRate, (int 5 : float)); (k_vacancyRate, int 3)] in
  (adjLookup k_interestRate (adjSet k_vacancyRate (int 8) a) = adjLookup k_interestRate a
   /\ adjLookup k_interestRate (adjDelete k_vacancyRate a) = adjLookup k_interestRate a)
  /\ NoDup (map fst (adjSet k_vacancyRate (int 8) a))
  /\ NoDup (map fst (adjDelete k_vacancyRate a)).
Proof.
  intros a.
  destruct (@adjustments_behave_as_a_map float k_vacancyRate k_interestRate (int 8) a)
    as (_ & _ & Hother & Hnodup).
  split.
  - apply Hother. discriminate.
  - apply Hnodup. repeat constructor; cbn; intuition discriminate.
Defined.

Lemma scenario_inputs_override_the_base_optimistic :
  let a := getPresetAdjustments (defaultInputs (num := float)) optimistic in
  getInput k_vacancyRate (applyAdjustments defaultInputs a)
  = match adjLookup k_vacancyRate a with
    | Some v => v
    | None => getInput k_vacancyRate defaultInputs
    end
  /\ maritalStatus (applyAdjustments defaultInputs a) = maritalStatus defaultInputs
  /\ churchTaxLiability (applyAdjustments defaultInputs a)
     = churchTaxLiability (defaultInputs (num := float)).
Proof.
  intros a.
  apply (@scenario_inputs_override_the_base float defaultInputs a k_vacancyRate).
  repeat constructor; cbn; intuition discriminate.
Defined.

(** ** The presets against the validation of the dialog *)

Open Scope Q_scope.

(** X22.  For base inputs within the slider ranges of the catalog, every
    entry of the optimistic preset passes [isValidAdjustment] for type
    optimistic, and so does every entry of the pessimistic preset for type
    pessimistic except the vacancy rate: the preset sets it to 5, which the
    validation accepts exactly when the base vacancy rate is at most 5
    (exact arithmetic). *)
Theorem presets_against_their_own_validation :
  forall (inputs : PropertyInputs Q),
    2 <= interestRate inputs <= 6 ->
    1 <= rentIncreaseRate inputs <= 5 ->
    0 <= propertyValueIncreaseRate inputs <= 5 ->
    0 <= vacancyRate inputs <= 10 ->
    (forall key value,
        In (key, value) (getPresetAdjustments inputs optimistic) ->
        isValidAdjustment inputs key value optimistic = true)
    /\ (forall key value,
           In (key, value) (getPresetAdjustments inputs pessimistic) ->
           key <> k_vacancyRate ->
           isValidAdjustment inputs key value pessimistic = true)
    /\ In (k_vacancyRate, 5) (getPresetAdjustments inputs pessimistic)
    /\ (isValidAdjustment inputs k_vacancyRate 5 pessimistic = true
        <-> vacancyRate inputs <= 5).
Proof.
  intros inputs Hi Hr Hp Hv.
  repeat split.
  - intros key value Hin. cbn [getPresetAdjustments In] in Hin.
    destruct Hin as [Hin|[Hin|[Hin|[Hin|[]]]]]; injection Hin as <- <-;
      cbn [isValidAdjustment getInput]; unfold Math_min; q_unfold;
      repeat q_case_if; apply Qle_bool_iff; q_consts; lra.
  - intros key value Hin Hkey. cbn [getPresetAdjustments In] in Hin.
    destruct Hin as [Hin|[Hin|[Hin|[Hin|[]]]]]; injection Hin as <- <-;
      try (now destruct Hkey);
      cbn [isValidAdjustment getInput]; unfold Math_min; q_unfold;
      repeat q_case_if; apply Qle_bool_iff; q_consts; lra.
  - cbn [getPresetAdjustments In]. right. right. right. left. reflexivity.
  - cbn [isValidAdjustment getInput]. q_unfold. intros E. now apply Qle_bool_iff in E.
  - cbn [isValidAdjustment getInput]. q_unfold. intros E. now apply Qle_bool_iff.
Qed.

Lemma presets_against_their_own_validation_vacancy_8 :
  let inputs := setInput k_vacancyRate 8 (defaultInputs (num := Q)) in
  In (k_vacancyRate, 5) (getPresetAdjustments inputs pessimistic)
  /\ isValidAdjustment inputs k_vacancyRate 5 pessimistic = false.
Proof.
  intros inputs.
  destruct (@presets_against_their_own_validation inputs) as (_ & _ & Hin & Hvalid).
  - vm_compute. split; discriminate.
  - vm_compute. split; discriminate.
  - vm_compute. split; discriminate.
  - vm_compute. split; discriminate.
  - split; [exact Hin|].
    destruct (isValidAdjustment inputs k_vacancyRate 5 pessimistic); [|reflexivity].
    exfalso. assert (Hle : vacancyRate inputs <= 5) by (now apply Hvalid).
    revert Hle. vm_compute. intros Hle. now apply Hle.
Defined.

Close Scope Q_scope.

(** ** Scenario colours *)

(** X23.  [getScenarioColor] always answers with a colour of the palette,
    repeats with period 8, gives the first eight indices eight different
    colours, and gives every multiple of 8 the colour of the base scenario. *)
Theorem scenario_colours_cycle_through_eight :
  forall (index other : nat),
    In (getScenarioColor index) scenarioColors
    /\ getScenarioColor (index + 8) = getScenarioColor index
    /\ getScenarioColor (8 * other) = "#1e3a8a"%string
    /\ ((index < 8)%nat -> (other < 8)%nat ->
        getScenarioColor index = getScenarioColor other -> index = other).
Proof.
  intros index other. unfold getScenarioColor.
  change (List.length scenarioColors) with 8%nat.
  split; [|split; [|split]].
  - apply nth_In. change (List.length scenarioColors) with 8%nat.
    apply Nat.mod_upper_bound. discriminate.
  - replace (index + 8)%nat with (index + 1 * 8)%nat by lia.
    now rewrite Nat.Div0.mod_add.
  - rewrite Nat.mul_comm, Nat.Div0.mod_mul. reflexivity.
  - intros Hi Ho.
    rewrite !Nat.mod_small by assumption.
    do 8 (destruct index as [|index];
          [do 8 (destruct other as [|other]; [first [reflexivity|discriminate]|]); lia|]).
    lia.
Qed.

Lemma scenario_colours_cycle_through_eight_ninth :
  getScenarioColor 8 = "#1e3a8a"%string
  /\ (getScenarioColor 2 = getScenarioColor 5 -> 2 = 5)%nat.
Proof.
  destruct (scenario_colours_cycle_through_eight 2 5) as (_ & _ & Hbase & Hinj).
  split; [exact Hbase|].
  apply Hinj; lia.
Defined.

(** ** Overriding one input *)

(** X24.  [{ ...inputs, [key]: value }] updates one field: the key reads the
    new value, a second write to the same key replaces the first, writing
    back the value read changes nothing, the two non-numeric fields are
    untouched, and for another key the old value is read and the two writes
    commute. *)
Theorem inputs_update_one_field :
  forall (num : Type) (key other : InputKey) (value value' : num)
         (inputs : PropertyInputs num),
    getInput key (setInput key value inputs) = value
    /\ setInput key value' (setInput key value inputs) = setInput key value' inputs
    /\ setInput key (getInput key inputs) inputs = inputs
    /\ maritalStatus (setInput key value inputs) = maritalStatus inputs
    /\ churchTaxLiability (setInput key value inputs) = churchTaxLiability inputs
    /\ (other <> key ->
        getInput other (setInput key value inputs) = getInput other inputs
        /\ setInput key value (setInput other value' inputs)
           = setInput other value' (setInput key value inputs)).
Proof.
  intros num key other value value' inputs.
  split; [destruct key; reflexivity|].
  split; [destruct key; reflexivity|].
  split; [destruct key, inputs; reflexivity|].
  split; [destruct key; reflexivity|].
  split; [destruct key; reflexivity|].
  intros Hne. split.
  - destruct key, other; try reflexivity; now destruct Hne.
  - destruct key, other; try reflexivity; now destruct Hne.
Qed.

Lemma inputs_update_one_field_rent_and_rate :
  getInput k_monthlyRent (setInput k_interestRate (int 5) (defaultInputs (num := float)))
  = getInput k_monthlyRent defaultInputs
  /\ setInput k_interestRate (int 5) (setInput k_monthlyRent (int 1500) defaultInputs)
     = setInput k_monthlyRent (int 1500)
         (setInput k_interestRate (int 5) (defaultInputs (num := float))).
Proof.
  destruct (@inputs_update_one_field float k_interestRate k_monthlyRent (int 5) (int 1500)
              defaultInputs) as (_ & _ & _ & _ & _ & Hother).
  apply Hother. discriminate.
Defined.

(** ** Removing a scenario *)

Section RemoveScenario.
Context {num : Type} `{JSNumber num}.

Lemma Array_filterIndex_drop (A : Type) (l : list (Slot A)) :
  forall (i index : nat),
    forallb isElem l = true ->
    (i <= index)%nat ->
    Array_filterIndex (fun j => negb (j =? index)%nat) i l
    = firstn (index - i) l ++ skipn (S (index - i)) l.
Proof.
  induction l as [|s l IH]; intros i index Hl Hi.
  - cbn [Array_filterIndex]. now rewrite firstn_nil, skipn_nil.
  - cbn in Hl. apply andb_prop in Hl. destruct Hl as [Hs Hl].
    destruct s as [| |a]; try discriminate Hs. cbn [Array_filterIndex].
    destruct (Nat.eqb_spec i index) as [->|Hne]; cbn [negb].
    + rewrite Nat.sub_diag. cbn [firstn skipn app].
      clear IH Hi. revert index. induction l as [|s l IHl]; intros index; [reflexivity|].
      cbn in Hl. apply andb_prop in Hl. destruct Hl as [Hs' Hl].
      destruct s as [| |b]; try discriminate Hs'. cbn [Array_filterIndex].
      destruct (Nat.eqb_spec (S index) index) as [E|_]; [lia|]. cbn [negb].
      f_equal.
      specialize (IHl Hl (S index)).
      assert (Hshift : forall (m : list (Slot A)) i0,
                 forallb isElem m = true -> (index < i0)%nat ->
                 Array_filterIndex (fun j => negb (j =? index)%nat) i0 m = m).
      { clear. induction m as [|s m IHm]; intros i0 Hm Hlt; [reflexivity|].
        cbn in Hm. apply andb_prop in Hm. destruct Hm as [Hs Hm].
        destruct s as [| |c]; try discriminate Hs. cbn [Array_filterIndex].
        destruct (Nat.eqb_spec i0 index) as [E|_]; [lia|]. cbn [negb].
        f_equal. apply IHm; [exact Hm|lia]. }
      apply Hshift; [exact Hl|lia].
    + replace (index - i)%nat with (S (index - S i)) by lia.
      cbn [firstn skipn app]. f_equal. apply IH; [exact Hl|lia].
Qed.

(** X25.  Removing a listed scenario other than the base drops exactly that
    entry: the list is the entries before it followed by the entries after
    it, one shorter and still headed by the base scenario.  For index 0
    [removeScenario] and [editScenario] do nothing. *)
Theorem removing_a_scenario_closes_the_gap :
  forall (s : UIState num) (index : nat),
    wellFormed s ->
    (0 < index < List.length (scenarios s))%nat ->
    let s' := removeScenario index s in
    scenarios s' = firstn index (scenarios s) ++ skipn (S index) (scenarios s)
    /\ S (List.length (scenarios s')) = List.length (scenarios s)
    /\ nth_error (scenarios s') 0 = Some (Elem baseScenario)
    /\ removeScenario 0 s = s
    /\ editScenario 0 s = Done s.
Proof.
  intros s index [(rest & Hsc & Hrest) _] [Hpos Hlt] s'.
  assert (Hdense : forallb isElem (scenarios s) = true) by (rewrite Hsc; exact Hrest).
  assert (Hlist : scenarios s'
                  = firstn index (scenarios s) ++ skipn (S index) (scenarios s)).
  { unfold s', removeScenario.
    destruct (Nat.eqb_spec index 0) as [->|_]; [lia|]. cbn [scenarios].
    rewrite (@Array_filterIndex_drop _ (scenarios s) 0 index Hdense) by lia.
    now rewrite Nat.sub_0_r. }
  split; [exact Hlist|]. split; [|split; [|split; reflexivity]].
  - rewrite Hlist, length_app, length_firstn, length_skipn. lia.
  - rewrite Hlist, Hsc. destruct index as [|index]; [lia|]. reflexivity.
Qed.
End RemoveScenario.

Lemma removing_a_scenario_closes_the_gap_middle :
  let a := {| sc_name := "A"; sc_variables := [(k_interestRate, (int 5 : float))];
              sc_color := "#10b981" |} in
  let b := {| sc_name := "B"; sc_variables := [(k_vacancyRate, (int 3 : float))];
              sc_color := "#ef4444" |} in
  let s := {| scenarios := [Elem baseScenario; Elem a; Elem b];
              showScenarioDialog := false;
              newScenarioName := EmptyString;
              newScenarioType := custom;
              editingScenarioIndex := None;
              customAdjustments := [] |} in
  scenarios (removeScenario 1 s) = [Elem baseScenario; Elem b].
Proof.
  intros a b s.
  destruct (@removing_a_scenario_closes_the_gap float s 1) as (Hlist & _).
  - split; [exists [Elem a; Elem b]; split; reflexivity|exact I].
  - cbn. lia.
  - exact Hlist.
Defined.

(** ** Cumulative figures as sums *)

Open Scope Q_scope.

Lemma recordsFrom_cumulative h (inputs : PropertyInputs Q) (n : nat) :
  forall year cf ts k d,
    nth_error (recordsFrom h inputs n year cf ts) k = Some d ->
    cumulativeCashFlow d
    == cf + sumOf (@netCashFlow Q) (firstn (S k) (recordsFrom h inputs n year cf ts))
    /\ cumulativeTaxSavings d
       == ts + sumOf (@taxSavings Q) (firstn (S k) (recordsFrom h inputs n year cf ts)).
Proof.
  induction n as [|n IH]; intros year cf ts k d Hd.
  - destruct k; discriminate Hd.
  - cbn [recordsFrom] in *. cbv zeta in *.
    set (r := yearRecord h inputs year cf ts) in *.
    assert (Hr : cumulativeCashFlow r = cf + netCashFlow r
                 /\ cumulativeTaxSavings r = ts + taxSavings r) by (split; reflexivity).
    destruct Hr as [Hrc Hrt].
    destruct k as [|k].
    + injection Hd as <-. unfold sumOf. cbn [firstn map fold_right].
      rewrite Hrc, Hrt. split; ring.
    + cbn [nth_error] in Hd.
      destruct (IH _ _ _ _ _ Hd) as [Hc Ht].
      rewrite Hc, Ht, Hrc, Hrt.
      unfold sumOf. cbn [firstn map fold_right]. split; ring.
Qed.

Lemma or_zero_Q (x : Q) : or_zero x == x.
Proof.
  unfold or_zero, truthy. cbn [exact Q_JSNumber].
  destruct (Qeq_bool x 0) eqn:E; cbn [negb]; [|reflexivity].
  apply Qeq_bool_iff in E. rewrite E. reflexivity.
Qed.

(** X26.  The cumulative cash flow and the cumulative tax savings of a record
    are the sums of the net cash flows and of the tax savings of the years
    up to and including it, and for a horizon of 1 to 40 years the average
    annual cash flow of the summary times the number of years is the sum of
    all net cash flows (exact arithmetic). *)
Theorem cumulative_figures_are_sums :
  forall (h : Host) (inputs : PropertyInputs Q) (years k : nat) (d : YearlyProjection Q),
    let result := calculateProjections h inputs years in
    nth_error (yearlyData result) k = Some d ->
    (years <= 40)%nat ->
    cumulativeCashFlow d == sumOf (@netCashFlow Q) (firstn (S k) (yearlyData result))
    /\ cumulativeTaxSavings d == sumOf (@taxSavings Q) (firstn (S k) (yearlyData result))
    /\ averageAnnualCashFlow (summary result) * inject_Z (Z.of_nat years)
       == sumOf (@netCashFlow Q) (yearlyData result).
Proof.
  intros h inputs years k d result Hd Hyears. unfold result in *.
  assert (Hlen := yearlyData_length h inputs years).
  assert (Hk : (k < years)%nat).
  { rewrite <- Hlen. apply nth_error_Some. now rewrite Hd. }
  rewrite summary_summarize. rewrite yearlyData_records in *.
  set (data := recordsFrom h inputs years 0 (int 0) (int 0)) in *.
  destruct (recordsFrom_cumulative h inputs years 0 (int 0) (int 0) k Hd) as [Hc Ht].
  fold data in Hc, Ht.
  split; [rewrite Hc; unfold int; cbn [of_Z Q_JSNumber]; unfold inject_Z; ring|].
  split; [rewrite Ht; unfold int; cbn [of_Z Q_JSNumber]; unfold inject_Z; ring|].
  unfold summarize. cbn [averageAnnualCashFlow]. rewrite Hlen.
  replace (Z.min 39 (Z.of_nat years - 1)) with (Z.of_nat (years - 1)) by lia.
  replace (Z.min 40 (Z.of_nat years)) with (Z.of_nat years) by lia.
  destruct (nth_error data (years - 1)) as [last|] eqn:Hlast.
  2:{ apply nth_error_None in Hlast. lia. }
  unfold fieldOrZero.
  destruct (Z.ltb_spec (Z.of_nat (years - 1)) 0) as [Hneg|_]; [lia|].
  rewrite Nat2Z.id, Hlast.
  destruct (recordsFrom_cumulative h inputs years 0 (int 0) (int 0) (years - 1) Hlast)
    as [Hc' _].
  fold data in Hc'.
  replace (S (years - 1)) with years in Hc' by lia.
  rewrite <- Hlen in Hc' at 1. rewrite firstn_all in Hc'.
  q_unfold. rewrite or_zero_Q, Hc'.
  assert (Hy : ~ inject_Z (Z.of_nat years) == 0).
  { intros E. assert (Hpos : 0 < inject_Z (Z.of_nat years)).
    { change 0 with (inject_Z 0). rewrite <- Zlt_Qlt. lia. }
    rewrite E in Hpos. discriminate Hpos. }
  unfold inject_Z at 1. field. exact Hy.
Qed.

Lemma cumulative_figures_are_sums_second_year :
  let result := calculateProjections hostNov2026 (defaultInputs (num := Q)) 2 in
  let d0 := yearRecord hostNov2026 (defaultInputs (num := Q)) 0 0 0 in
  let d := yearRecord hostNov2026 (defaultInputs (num := Q)) 1
             (cumulativeCashFlow d0) (cumulativeTaxSavings d0) in
  cumulativeCashFlow d == sumOf (@netCashFlow Q) (firstn 2 (yearlyData result))
  /\ averageAnnualCashFlow (summary result) * inject_Z (Z.of_nat 2)
     == sumOf (@netCashFlow Q) (yearlyData result).
Proof.
  intros result d0 d.
  destruct (@cumulative_figures_are_sums hostNov2026 defaultInputs 2 1 d) as (Hc & _ & Ha).
  - reflexivity.
  - lia.
  - split; [exact Hc|exact Ha].
Defined.

Close Scope Q_scope.

(** ** The tornado rows on any number implementation *)

Section SortKeepsRows.
Context {A num : Type} `{JSNumber num}.
Variable compare : A -> A -> num.

Lemma sortInsert_keeps_rows (a : A) (l : list A) :
  Permutation (sortInsert compare a l) (a :: l).
Proof.
  induction l as [|b l IH]; cbn [sortInsert]; [apply Permutation_refl|].
  destruct (ltb (int 0) (compare a b)).
  - apply Permutation_trans with (b :: a :: l).
    + apply perm_skip. exact IH.
    + apply perm_swap.
  - apply Permutation_refl.
Qed.

Lemma Array_sort_keeps_rows (l : list A) :
  Permutation (Array_sort compare l) l.
Proof.
  induction l as [|a l IH]; cbn [Array_sort fold_right]; [constructor|].
  apply Permutation_trans with (a :: Array_sort compare l).
  - apply sortInsert_keeps_rows.
  - apply perm_skip. exact IH.
Qed.
End SortKeepsRows.

(** X27.  On every number implementation, NaN ranges included, sorting loses
    and duplicates nothing: the tornado rows are a rearrangement of the rows
    computed for the eight catalog variables, each name once; with the chart
    hidden there are no rows. *)
Theorem tornado_rows_are_the_catalog_rows :
  forall (num : Type) (N : JSNumber num) (h : Host) (metric : Metric)
         (inputs : PropertyInputs num) (years : nat),
    let base := getMetricValue metric years (calculateProjections h inputs years) in
    Permutation (tornadoData h true metric inputs years)
                (map (tornadoItem h metric inputs years base) (sensitivityVariables inputs))
    /\ Permutation (map (@t_variable num) (tornadoData h true metric inputs years))
         ["Interest Rate"; "Rent Increase"; "Property Value Increase";
          "Operating Costs Increase"; "Vacancy Rate"; "Marginal Tax Rate";
          "Repayment Rate"; "Depreciation Rate"]%string
    /\ tornadoData h false metric inputs years = [].
Proof.
  intros num N h metric inputs years base.
  assert (Hperm : Permutation (tornadoData h true metric inputs years)
            (map (tornadoItem h metric inputs years base) (sensitivityVariables inputs))).
  { unfold tornadoData, tornadoOf. cbn [negb]. cbv zeta. apply Array_sort_keeps_rows. }
  split; [exact Hperm|]. split; [|reflexivity].
  apply (Permutation_map (@t_variable num)) in Hperm.
  exact Hperm.
Qed.

(** ** An edit index left behind by a removal *)

Section StaleEditIndex.
Context {num : Type} `{JSNumber num}.
Variable isBlank : string -> bool.

Lemma Array_assign_beyond (A : Type) (x : A) (l : list (Slot A)) :
  forall index,
    (List.length l <= index)%nat ->
    Array_assign l index x = l ++ repeat Hole (index - List.length l) ++ [Elem x].
Proof.
  induction l as [|s l IH]; intros index Hi.
  - cbn [List.length app]. rewrite Nat.sub_0_r. clear Hi.
    induction index as [|index IHi]; [reflexivity|].
    cbn [Array_assign repeat app]. now rewrite IHi.
  - destruct index as [|index]; [cbn in Hi; lia|].
    cbn [Array_assign List.length app Nat.sub]. rewrite IH by (cbn in Hi; lia). reflexivity.
Qed.

Lemma mapScenarios_skips_holes h (inputs : PropertyInputs num) years
    (l : list (Slot (Scenario num))) :
  ~ In Undefined l ->
  exists ps, mapScenarios h inputs years l = Some ps /\ List.length ps = List.length l.
Proof.
  induction l as [|s l IH]; intros Hl; [now exists []|].
  destruct IH as (ps & Hps & Hlen); [intros Hin; apply Hl; now right|].
  destruct s as [| |scenario].
  - cbn [mapScenarios]. rewrite Hps. eexists. split; [reflexivity|]. cbn. now rewrite Hlen.
  - exfalso. apply Hl. now left.
  - cbn [mapScenarios]. cbv zeta. rewrite Hps. eexists. split; [reflexivity|].
    cbn. now rewrite Hlen.
Qed.

Lemma mapScenarios_throws_on_undefined h (inputs : PropertyInputs num) years
    (l : list (Slot (Scenario num))) :
  In Undefined l -> mapScenarios h inputs years l = None.
Proof.
  induction l as [|s l IH]; intros Hl; [destruct Hl|].
  destruct s as [| |scenario]; [| reflexivity |].
  - destruct Hl as [Hl|Hl]; [discriminate Hl|].
    cbn [mapScenarios]. now rewrite IH.
  - destruct Hl as [Hl|Hl]; [discriminate Hl|].
    cbn [mapScenarios]. cbv zeta. now rewrite IH.
Qed.

Lemma dense_no_undefined (A : Type) (l : list (Slot A)) :
  forallb isElem l = true -> ~ In Undefined l /\ ~ In Hole l.
Proof.
  intros Hl. rewrite forallb_forall in Hl.
  split; intros Hin; apply Hl in Hin; discriminate Hin.
Qed.

(** X28.  The handlers themselves do not guard the edit index.
    [removeScenario] leaves [editingScenarioIndex] as it is; when that index
    is already at or beyond the end of the list and one more scenario is
    removed, Update writes beyond the end: the list gets a hole, which
    [scenarioProjections] skips.  The next scenario added copies the list
    with the hole read as [undefined], and from then on
    [scenarioProjections] throws a TypeError. *)
Theorem stale_edit_index_leaves_a_hole :
  forall (inputs : PropertyInputs num) (s : UIState num) (index removed : nat),
    forallb isElem (scenarios s) = true ->
    editingScenarioIndex s = Some index ->
    (0 < removed < List.length (scenarios s))%nat ->
    (List.length (scenarios s) <= index)%nat ->
    isBlank (newScenarioName s) = false ->
    (newScenarioType s = custom -> customAdjustments s <> []) ->
    let gap := List.length (scenarios (removeScenario removed s)) in
    editingScenarioIndex (removeScenario removed s) = Some index
    /\ exists updated,
         addScenario isBlank inputs (removeScenario removed s) = Done updated
         /\ List.length (scenarios updated) = S index
         /\ nth_error (scenarios updated) gap = Some Hole
         /\ (forall h years,
               exists ps,
                 scenarioProjections h true inputs (scenarios updated) years = Some ps)
         /\ (forall again : UIState num,
               scenarios again = scenarios updated ->
               editingScenarioIndex again = None ->
               isBlank (newScenarioName again) = false ->
               (newScenarioType again = custom -> customAdjustments again <> []) ->
               exists added,
                 addScenario isBlank inputs again = Done added
                 /\ nth_error (scenarios added) gap = Some Undefined
                 /\ forall h years,
                      scenarioProjections h true inputs (scenarios added) years = None).
Proof.
  intros inputs s index removed Hdense Hedit [Hpos Hrem] Hidx Hname Hadj gap.
  set (s1 := removeScenario removed s) in *.
  assert (Hs1 : scenarios s1
                = Array_filterIndex (fun i => negb (i =? removed)%nat) 0 (scenarios s)
                /\ newScenarioName s1 = newScenarioName s
                /\ newScenarioType s1 = newScenarioType s
                /\ customAdjustments s1 = customAdjustments s
                /\ editingScenarioIndex s1 = Some index).
  { unfold s1, removeScenario.
    destruct (Nat.eqb_spec removed 0) as [->|_]; [lia|]. cbn. now rewrite Hedit. }
  destruct Hs1 as (Hsc1 & Hname1 & Htype1 & Hadj1 & Hedit1).
  assert (Hdense1 : forallb isElem (scenarios s1) = true).
  { rewrite Hsc1. now apply Array_filterIndex_dense. }
  assert (Hlen1 : S (List.length (scenarios s1)) = List.length (scenarios s)).
  { rewrite Hsc1, (@Array_filterIndex_drop _ (scenarios s) 0 removed Hdense) by lia.
    rewrite Nat.sub_0_r, length_app, length_firstn, length_skipn. lia. }
  split; [exact Hedit1|].
  assert (Hsubmit : forall (t : UIState num) (l : list (Slot (Scenario num))),
             isBlank (newScenarioName t) = false ->
             (newScenarioType t = custom -> customAdjustments t <> []) ->
             exists new,
               addScenario isBlank inputs t
               = Done {| scenarios :=
                           match editingScenarioIndex t with
                           | Some i => Array_assign (Array_spread (scenarios t)) i new
                           | None => Array_spread (scenarios t) ++ [Elem new]
                           end;
                         showScenarioDialog := false;
                         newScenarioName := EmptyString;
                         newScenarioType := custom;
                         editingScenarioIndex := None;
                         customAdjustments := [] |}).
  { intros t _ Hn Ha. unfold addScenario. rewrite Hn.
    destruct (newScenarioType t) eqn:Ht.
    - cbn [andb Nat.eqb List.length getPresetAdjustments]. eexists. reflexivity.
    - cbn [andb Nat.eqb List.length getPresetAdjustments]. eexists. reflexivity.
    - destruct (customAdjustments t) as [|kv kvs]; [now destruct (Ha eq_refl)|].
      cbn [andb Nat.eqb List.length]. eexists. reflexivity. }
  destruct (Hsubmit s1 [] ltac:(now rewrite Hname1)
              ltac:(rewrite Htype1, Hadj1; exact Hadj)) as (new & Hdone).
  rewrite Hedit1, (Array_spread_dense _ Hdense1) in Hdone.
  rewrite Array_assign_beyond in Hdone by lia.
  eexists. split; [exact Hdone|]. cbn [scenarios].
  set (holes := (index - List.length (scenarios s1))%nat) in *.
  assert (Hholes : holes = S (holes - 1)) by (unfold holes; lia).
  split; [|split; [|split]].
  - rewrite !length_app, repeat_length. cbn [List.length]. unfold holes. lia.
  - unfold gap. rewrite nth_error_app2 by lia. rewrite Nat.sub_diag, Hholes. reflexivity.
  - intros h years. unfold scenarioProjections. cbn [negb].
    destruct (@mapScenarios_skips_holes h inputs years
                (scenarios s1 ++ repeat Hole holes ++ [Elem new])) as (ps & Hps & _).
    { intros Hin. apply in_app_or in Hin. destruct Hin as [Hin|Hin].
      - now apply (proj1 (dense_no_undefined _ Hdense1)).
      - apply in_app_or in Hin. destruct Hin as [Hin|[Hin|[]]]; [|discriminate Hin].
        apply repeat_spec in Hin. discriminate Hin. }
    now exists ps.
  - intros again Hsc Hnone Hn Ha.
    destruct (Hsubmit again [] Hn Ha) as (new' & Hdone').
    rewrite Hnone, Hsc in Hdone'. cbn [scenarios] in Hdone'.
    eexists. split; [exact Hdone'|]. cbn [scenarios].
    assert (Hspread : Array_spread (scenarios s1 ++ repeat Hole holes ++ [Elem new])
                      = scenarios s1 ++ repeat Undefined holes ++ [Elem new]).
    { unfold Array_spread. rewrite !map_app.
      fold (Array_spread (scenarios s1)). rewrite (Array_spread_dense _ Hdense1).
      f_equal. f_equal. clear. induction holes as [|n IH]; [reflexivity|].
      cbn [repeat map]. now rewrite IH. }
    rewrite Hspread. split.
    + unfold gap. rewrite <- app_assoc, nth_error_app2 by lia.
      rewrite Nat.sub_diag, Hholes. reflexivity.
    + intros h years. unfold scenarioProjections. cbn [negb].
      apply mapScenarios_throws_on_undefined.
      apply in_or_app. left. apply in_or_app. right. apply in_or_app. left.
      rewrite Hholes. now left.
Qed.
End StaleEditIndex.

Lemma stale_edit_index_leaves_a_hole_two_removals :
  let isBlank := fun name => match name with EmptyString => true | _ => false end in
  let a := {| sc_name := "A"; sc_variables := [(k_interestRate, (int 5 : float))];
              sc_color := "#10b981" |} in
  let s := {| scenarios := [Elem baseScenario; Elem a];
              showScenarioDialog := true;
              newScenarioName := "B";
              newScenarioType := custom;
              editingScenarioIndex := Some 2%nat;
              customAdjustments := [(k_vacancyRate, (int 3 : float))] |} in
  exists updated,
    addScenario isBlank defaultInputs (removeScenario 1 s) = Done updated
    /\ List.length (scenarios updated) = 3%nat
    /\ nth_error (scenarios updated) 1 = Some Hole.
Proof.
  intros isBlank a s.
  destruct (@stale_edit_index_leaves_a_hole float _ isBlank defaultInputs s 2 1)
    as (_ & updated & Hdone & Hlen & Hhole & _).
  - reflexivity.
  - reflexivity.
  - cbn. lia.
  - cbn. lia.
  - reflexivity.
  - intros _. discriminate.
  - exists updated. split; [exact Hdone|]. split; [exact Hlen|exact Hhole].
Defined.
